(** * CelesteMods: the difficulty normaliser, the map-difficulty validator,
      map creation objects and the GameBanana identity lookups

    A shallow embedding of the helper functions of the mods/maps/publishers
    router (express routes over a Prisma schema) and the properties its
    specification states about them.

    Conventions of the embedding:
    - JavaScript arrays are lists; [push] appends at the end ([l ++ [x]]).
    - Database [Int] columns, array indices and orders are [Z].
    - [undefined] and [null] are [None] of an [option]; which of the two is
      said at each field.
    - A function that can throw returns [thrown + A]; a [try { } catch] that
      returns [toErrorWithMessage(error)] returns [errorWithMessage + A]. *)

From Stdlib Require Import Ascii String DecimalString ZArith Bool Lia List Permutation.
Import ListNotations.

Open Scope string_scope.
Open Scope list_scope.
Open Scope Z_scope.

(** ** Thrown values and the exception monad *)

(** What a [throw] statement (or the runtime) can raise in this code: a string
    ([throw "..."], [throw `...`]), an [Error] object ([new Error(msg)]), the
    [TypeError] of a property read on [undefined], a rejected promise of an
    outside collaborator, and an [errorWithMessage] that is thrown again. *)
Inductive thrown : Type :=
| ThrowString (s : string)
| ThrowError (message : string)
| ThrowTypeError
| ThrowRejected (reason : string)
| ThrowErrorWithMessage (inner : thrown).

(** [errorHandling.toErrorWithMessage] wraps whatever was caught; the wrapper
    is kept opaque, only its argument is recorded. *)
Inductive errorWithMessage : Type :=
| toErrorWithMessage (error : thrown).

Definition M (A : Type) : Type := (thrown + A)%type.

Definition ret {A : Type} (a : A) : M A := inr a.

Definition throw {A : Type} (t : thrown) : M A := inl t.

Definition bind {A B : Type} (m : M A) (k : A -> M B) : M B :=
  match m with
  | inl t => inl t
  | inr a => k a
  end.

Notation "x <- m ;; k" := (bind m (fun x => k))
  (at level 61, m at next level, right associativity).
Notation "' pat <- m ;; k" := (bind m (fun x => match x with pat => k end))
  (at level 61, pat pattern, m at next level, right associativity).

(** [try { body } catch (error) { return toErrorWithMessage(error); }] *)
Definition tryCatch {A : Type} (body : M A) : errorWithMessage + A :=
  match body with
  | inl error => inl (toErrorWithMessage error)
  | inr a => inr a
  end.

(** [`${n}`] for an integer-valued number. *)
Definition numberToString (n : Z) : string :=
  NilZero.string_of_int (Z.to_int n).

(** A number that may be [NaN]; the numbers held are database ids. *)
Inductive number : Type :=
| NaN
| Int (z : Z).

(** [a === b] for [a : number | null] and [b : number]: [NaN] and [null] are
    equal to nothing. *)
Definition strictEqual (a : option Z) (b : number) : bool :=
  match a, b with
  | Some x, Int y => x =? y
  | _, _ => false
  end.

(** [a === b] for two values that are a string or [undefined]. *)
Definition strictEqualName (a b : option string) : bool :=
  match a, b with
  | Some x, Some y => String.eqb x y
  | None, None => true
  | _, _ => false
  end.

(** ** Data model *)

(** An element of a difficulty submission or of the display shape:
    [string | string[]]. *)
Inductive stringOrArray : Type :=
| Str (s : string)
| Arr (a : list string).

(** [{ name: string }]: the elements of the flat name list. A parent name read
    from an empty inner array is [undefined] ([None]). *)
Record difficultyNamesArrayElement : Type := mkName {
  elementName : option string
}.

Module createChildDifficultyForMod.
Record t : Type := mk {
  name : string;
  order : Z
}.
End createChildDifficultyForMod.

(** [other_difficulties?: { create: createChildDifficultyForMod[] }]; [None]
    is the absent property. [name] is [None] when it was read as
    [undefined]. *)
Module createParentDifficultyForMod.
Record t : Type := mk {
  name : option string;
  order : Z;
  other_difficulties : option (list createChildDifficultyForMod.t)
}.
End createParentDifficultyForMod.

(** A row of the [difficulties] table, with the columns the code reads;
    [parentDifficultyID = None] is [null]. *)
Module difficulties.
Record t : Type := mk {
  id : Z;
  name : string;
  order : Z;
  parentDifficultyID : option Z
}.
End difficulties.

(** ** getDifficultyArrays *)

(** The inner loop
    [for (let childDifficultyIndex = 1; childDifficultyIndex < arr.length; childDifficultyIndex++)]:
    [rest] is the part of the array from [childDifficultyIndex] on. *)
Fixpoint childDifficultyLoop (rest : list string) (childDifficultyIndex : Z)
    (childDifficultyArray : list createChildDifficultyForMod.t)
    (difficultyNamesArray : list difficultyNamesArrayElement)
  : list createChildDifficultyForMod.t * list difficultyNamesArrayElement :=
  match rest with
  | [] => (childDifficultyArray, difficultyNamesArray)
  | childDifficultyName :: rest' =>
      childDifficultyLoop rest' (childDifficultyIndex + 1)
        (childDifficultyArray ++
           [createChildDifficultyForMod.mk childDifficultyName childDifficultyIndex])
        (difficultyNamesArray ++ [mkName (Some childDifficultyName)])
  end.

(** The three mutable locals of [getDifficultyArrays]. *)
Record difficultyArrays : Type := mkArrays {
  difficultyNamesArray : list difficultyNamesArrayElement;
  difficultiesDataArray : list createParentDifficultyForMod.t;
  modHasSubDifficultiesBool : bool
}.

(** The outer loop
    [for (let parentDifficultyIndex = 0; parentDifficultyIndex < difficultyNames.length; parentDifficultyIndex++)]:
    [rest] is the part of [difficultyNames] from [parentDifficultyIndex] on. *)
Fixpoint parentDifficultyLoop (rest : list stringOrArray) (parentDifficultyIndex : Z)
    (st : difficultyArrays) : M difficultyArrays :=
  match rest with
  | [] => ret st
  | Str parentDifficultyString :: rest' =>
      parentDifficultyLoop rest' (parentDifficultyIndex + 1)
        (mkArrays
           (difficultyNamesArray st ++ [mkName (Some parentDifficultyString)])
           (difficultiesDataArray st ++
              [createParentDifficultyForMod.mk (Some parentDifficultyString)
                 (parentDifficultyIndex + 1) None])
           (modHasSubDifficultiesBool st))
  | Arr parentDifficultyArray :: rest' =>
      let '(childDifficultyArray, names) :=
        childDifficultyLoop (tl parentDifficultyArray) 1 [] (difficultyNamesArray st) in
      parentDifficultyLoop rest' (parentDifficultyIndex + 1)
        (mkArrays
           (names ++ [mkName (hd_error parentDifficultyArray)])
           (difficultiesDataArray st ++
              [createParentDifficultyForMod.mk (hd_error parentDifficultyArray)
                 (parentDifficultyIndex + 1) (Some childDifficultyArray)])
           true)
  end.

Definition getDifficultyArrays (difficultyNames : list stringOrArray)
  : errorWithMessage + difficultyArrays :=
  tryCatch (parentDifficultyLoop difficultyNames 0 (mkArrays [] [] false)).

(** ** getSortedDifficultyNames *)

(** [for (const siblingArray of subDifficultiesArray)] of the grouping step:
    the difficulty joins the first sibling array whose first element has its
    parent; the boolean is [alreadyListed]. *)
Fixpoint pushToSiblingArray (subDifficultiesArray : list (list difficulties.t))
    (difficulty : difficulties.t) (parentDifficultyID : Z)
  : M (list (list difficulties.t) * bool) :=
  match subDifficultiesArray with
  | [] => ret ([], false)
  | siblingArray :: rest =>
      match siblingArray with
      | [] => throw ThrowTypeError
      | first :: _ =>
          if strictEqual (difficulties.parentDifficultyID first) (Int parentDifficultyID)
          then ret ((siblingArray ++ [difficulty]) :: rest, true)
          else
            '(rest', alreadyListed) <- pushToSiblingArray rest difficulty parentDifficultyID ;;
            ret (siblingArray :: rest', alreadyListed)
      end
  end.

(** [for (const difficulty of difficulties)]: parents and sibling arrays. *)
Fixpoint groupDifficulties (rest : list difficulties.t)
    (parentDifficultyArray : list difficulties.t)
    (subDifficultiesArray : list (list difficulties.t))
  : M (list difficulties.t * list (list difficulties.t)) :=
  match rest with
  | [] => ret (parentDifficultyArray, subDifficultiesArray)
  | difficulty :: rest' =>
      match difficulties.parentDifficultyID difficulty with
      | None =>
          groupDifficulties rest' (parentDifficultyArray ++ [difficulty]) subDifficultiesArray
      | Some parentDifficultyID =>
          '(subs, alreadyListed) <-
             pushToSiblingArray subDifficultiesArray difficulty parentDifficultyID ;;
          groupDifficulties rest' parentDifficultyArray
            (if alreadyListed then subs else subs ++ [[difficulty]])
      end
  end.

(** [for (const difficulty of parentDifficultyArray)] with its [break]: the
    first difficulty with the order, as the pair [(parentId, parentName)];
    [(NaN, "")] when there is none. *)
Fixpoint findParent (parentDifficultyArray : list difficulties.t) (parentOrder : Z)
  : number * string :=
  match parentDifficultyArray with
  | [] => (NaN, "")
  | difficulty :: rest =>
      if difficulties.order difficulty =? parentOrder
      then (Int (difficulties.id difficulty), difficulties.name difficulty)
      else findParent rest parentOrder
  end.

(** [for (const sibling of siblingArray)] with its [break]: the name that is
    pushed, if any. *)
Fixpoint findSibling (siblingArray : list difficulties.t) (siblingOrder : Z)
  : option string :=
  match siblingArray with
  | [] => None
  | sibling :: rest =>
      if difficulties.order sibling =? siblingOrder
      then Some (difficulties.name sibling)
      else findSibling rest siblingOrder
  end.

(** [for (let siblingOrder = 1; siblingOrder <= siblingArray.length; siblingOrder++)];
    [fuel] is the number of iterations left. *)
Fixpoint siblingOrderLoop (fuel : nat) (siblingOrder : Z)
    (siblingArray : list difficulties.t) (parentAndChildrenArray : list string)
  : list string :=
  match fuel with
  | O => parentAndChildrenArray
  | S fuel' =>
      siblingOrderLoop fuel' (siblingOrder + 1) siblingArray
        (match findSibling siblingArray siblingOrder with
         | Some siblingName => parentAndChildrenArray ++ [siblingName]
         | None => parentAndChildrenArray
         end)
  end.

(** [for (const siblingArray of subDifficultiesArray)] of the output step, with
    its [break]: [Some parentAndChildrenArray] when [hasChildren] is set. *)
Fixpoint findChildren (subDifficultiesArray : list (list difficulties.t))
    (parentId : number) (parentName : string) : M (option (list string)) :=
  match subDifficultiesArray with
  | [] => ret None
  | siblingArray :: rest =>
      match siblingArray with
      | [] => throw ThrowTypeError
      | first :: _ =>
          if strictEqual (difficulties.parentDifficultyID first) parentId
          then ret (Some (siblingOrderLoop (length siblingArray) 1 siblingArray [parentName]))
          else findChildren rest parentId parentName
      end
  end.

(** [for (let parentOrder = 1; parentOrder <= parentDifficultyArray.length; parentOrder++)]. *)
Fixpoint parentOrderLoop (fuel : nat) (parentOrder : Z)
    (parentDifficultyArray : list difficulties.t)
    (subDifficultiesArray : list (list difficulties.t))
    (formattedArray : list stringOrArray) : M (list stringOrArray) :=
  match fuel with
  | O => ret formattedArray
  | S fuel' =>
      let '(parentId, parentName) := findParent parentDifficultyArray parentOrder in
      children <- findChildren subDifficultiesArray parentId parentName ;;
      parentOrderLoop fuel' (parentOrder + 1) parentDifficultyArray subDifficultiesArray
        (match children with
         | Some parentAndChildrenArray => formattedArray ++ [Arr parentAndChildrenArray]
         | None => formattedArray ++ [Str parentName]
         end)
  end.

Definition parentOrdersMessage (modID : Z) : string :=
  ("Parent difficulty orders for mod " ++ numberToString modID ++
   " are not continuous")%string.

(** [${parentDifficulty[0]}] prints nothing for [undefined]. *)
Definition childOrdersMessage (parentDifficulty : list string) (modID : Z) : string :=
  ("Child difficulty orders for parent difficulty " ++
   match parentDifficulty with [] => "" | parent :: _ => parent end ++
   " in mod " ++ numberToString modID ++ " are not continuous")%string.

(** The inner [parentDifficulty.forEach]. *)
Fixpoint checkChildren (rest parentDifficulty : list string) (modID : Z) : M unit :=
  match rest with
  | [] => ret tt
  | childDifficulty :: rest' =>
      if String.eqb childDifficulty ""
      then throw (ThrowString (childOrdersMessage parentDifficulty modID))
      else checkChildren rest' parentDifficulty modID
  end.

(** [formattedArray.forEach]: the check that all orders are continuous. *)
Fixpoint checkContinuous (formattedArray : list stringOrArray) (modID : Z) : M unit :=
  match formattedArray with
  | [] => ret tt
  | Str parentDifficulty :: rest =>
      if String.eqb parentDifficulty ""
      then throw (ThrowString (parentOrdersMessage modID))
      else checkContinuous rest modID
  | Arr parentDifficulty :: rest =>
      _ <- checkChildren parentDifficulty parentDifficulty modID ;;
      checkContinuous rest modID
  end.

Definition getSortedDifficultyNames (difficulties : list difficulties.t) (modID : Z)
  : M (list stringOrArray) :=
  '(parentDifficultyArray, subDifficultiesArray) <- groupDifficulties difficulties [] [] ;;
  formattedArray <-
    parentOrderLoop (length parentDifficultyArray) 1 parentDifficultyArray
      subDifficultiesArray [] ;;
  _ <- checkContinuous formattedArray modID ;;
  ret formattedArray.

(** ** Persistence of a creation list *)

(** The ids of the store: [fresh n] is the id of the row that is created
    when [n] rows were created before it. Consecutive ids from [first] on are
    one such allocation. *)
Definition sequentialIDs (first : Z) (allocated : nat) : Z := first + Z.of_nat allocated.

(** The child rows of one nested [other_difficulties: { create: [...] }],
    with the ids [fresh allocated], [fresh (allocated + 1)], ... and the
    parent's id as [parentDifficultyID]. *)
Fixpoint persistChildren (fresh : nat -> Z) (allocated : nat) (parentID : Z)
    (children : list createChildDifficultyForMod.t) : list difficulties.t :=
  match children with
  | [] => []
  | child :: rest =>
      difficulties.mk (fresh allocated) (createChildDifficultyForMod.name child)
        (createChildDifficultyForMod.order child) (Some parentID)
      :: persistChildren fresh (S allocated) parentID rest
  end.

(** Modelled from the spec: the persistence store (the Prisma nested create
    [difficulties: { create: difficultiesCreationArray }] and the schema it
    writes to are outside the sources). Each creation record becomes one row
    with an id of its own, its [name] and [order]; a parent row has a null
    [parentDifficultyID], a child row refers to the row of the record it is
    nested under. [allocated] rows were created before. A record whose
    required [name] is [undefined] is refused. *)
Fixpoint persist (fresh : nat -> Z) (allocated : nat)
    (difficultiesCreationArray : list createParentDifficultyForMod.t)
  : M (list difficulties.t) :=
  match difficultiesCreationArray with
  | [] => ret []
  | parent :: rest =>
      match createParentDifficultyForMod.name parent with
      | None => throw (ThrowRejected "Argument name is missing")
      | Some parentName =>
          let children :=
            match createParentDifficultyForMod.other_difficulties parent with
            | Some create => create
            | None => []
            end in
          rows <- persist fresh (S allocated + length children) rest ;;
          ret (difficulties.mk (fresh allocated) parentName
                 (createParentDifficultyForMod.order parent) None
               :: persistChildren fresh (S allocated) (fresh allocated) children ++ rows)
      end
  end.

(** Submission, persistence and reconstruction in sequence. *)
Definition roundTrip (fresh : nat -> Z) (allocated : nat)
    (difficultyNames : list stringOrArray) (modID : Z) : M (list stringOrArray) :=
  match getDifficultyArrays difficultyNames with
  | inl (toErrorWithMessage error) => throw (ThrowErrorWithMessage error)
  | inr arrays =>
      rows <- persist fresh allocated (difficultiesDataArray arrays) ;;
      getSortedDifficultyNames rows modID
  end.

(** ** Types of the map creation path *)

Inductive mods_details_type : Type :=
| Normal
| Collab
| Contest
| Lobby.

Definition isNormal (modType : mods_details_type) : bool :=
  match modType with Normal => true | _ => false end.

Definition isContest (modType : mods_details_type) : bool :=
  match modType with Contest => true | _ => false end.

(** A default difficulty read with [include: { other_difficulties: true }]. *)
Module defaultDifficultyForMod.
Record t : Type := mk {
  id : Z;
  name : string;
  order : Z;
  parentDifficultyID : option Z;
  other_difficulties : option (list difficulties.t)
}.
End defaultDifficultyForMod.

Module map_lengths.
Record t : Type := mk {
  id : Z;
  name : string
}.
End map_lengths.

(** A row of [tech_list] read with [include: { difficulties: true }]. *)
Module tech_list.
Record t : Type := mk {
  name : string;
  defaultDifficultyID : Z;
  difficulties : difficulties.t
}.
End tech_list.

Module submitterUser.
Record t : Type := mk {
  id : Z;
  displayName : string;
  discordID : string;
  discordUsername : string;
  discordDiscrim : string;
  displayDiscord : bool;
  timeCreated : Z;
  permissions : string;
  permissionsArray : list string;
  accountStatus : string;
  timeDeletedOrBanned : option Z
}.
End submitterUser.

(** The request body of one map; an absent property is [None]. *)
Module jsonCreateMapWithMod.
Record t : Type := mk {
  name : string;
  length : string;
  description : option string;
  notes : option string;
  minimumModVersion : string;
  mapRemovedFromModBool : bool;
  techAny : option (list string);
  techFC : option (list string);
  canonicalDifficulty : option string;
  mapperUserID : option Z;
  mapperNameString : option string;
  chapter : option Z;
  side : option string;
  modDifficulty : option stringOrArray;
  overallRank : option Z
}.
End jsonCreateMapWithMod.

Module mapToTechCreationObject.
Record t : Type := mk {
  maps_details_maps_detailsTomaps_to_tech_revision : Z;
  tech_list : string;
  fullClearOnlyBool : bool
}.
End mapToTechCreationObject.

(** The element of [map_details.create]. A [{ connect: { id: n } }] is the
    connected id [n]; a property that was never assigned is [None]. *)
Module mapDetailsCreationObject.
Record t : Type := mk {
  name : string;
  canonicalDifficulty : Z;
  map_lengths : Z;
  description : option string;
  notes : option string;
  minimumModVersion : string;
  mapRemovedFromModBool : bool;
  timeSubmitted : Z;
  users_maps_details_submittedByTousers : Z;
  timeApproved : option Z;
  users_maps_details_approvedByTousers : option Z;
  users_maps_details_mapperUserIDTousers : option Z;
  mapperNameString : option string;
  chapter : option Z;
  side : option string;
  overallRank : option Z;
  difficulties_difficultiesTomaps_details_modDifficultyID : option Z;
  maps_to_tech_maps_detailsTomaps_to_tech_mapID : option (list mapToTechCreationObject.t)
}.

Definition set_approved (time user : Z) (o : t) : t :=
  mk (name o) (canonicalDifficulty o) (map_lengths o) (description o) (notes o)
     (minimumModVersion o) (mapRemovedFromModBool o) (timeSubmitted o)
     (users_maps_details_submittedByTousers o)
     (Some time) (Some user)
     (users_maps_details_mapperUserIDTousers o) (mapperNameString o) (chapter o) (side o)
     (overallRank o) (difficulties_difficultiesTomaps_details_modDifficultyID o)
     (maps_to_tech_maps_detailsTomaps_to_tech_mapID o).

Definition set_mapperUserID (user : Z) (o : t) : t :=
  mk (name o) (canonicalDifficulty o) (map_lengths o) (description o) (notes o)
     (minimumModVersion o) (mapRemovedFromModBool o) (timeSubmitted o)
     (users_maps_details_submittedByTousers o)
     (timeApproved o) (users_maps_details_approvedByTousers o)
     (Some user) (mapperNameString o) (chapter o) (side o)
     (overallRank o) (difficulties_difficultiesTomaps_details_modDifficultyID o)
     (maps_to_tech_maps_detailsTomaps_to_tech_mapID o).

Definition set_mapperNameString (mapper : string) (o : t) : t :=
  mk (name o) (canonicalDifficulty o) (map_lengths o) (description o) (notes o)
     (minimumModVersion o) (mapRemovedFromModBool o) (timeSubmitted o)
     (users_maps_details_submittedByTousers o)
     (timeApproved o) (users_maps_details_approvedByTousers o)
     (users_maps_details_mapperUserIDTousers o) (Some mapper) (chapter o) (side o)
     (overallRank o) (difficulties_difficultiesTomaps_details_modDifficultyID o)
     (maps_to_tech_maps_detailsTomaps_to_tech_mapID o).

Definition set_chapter_side (newChapter : option Z) (newSide : option string) (o : t) : t :=
  mk (name o) (canonicalDifficulty o) (map_lengths o) (description o) (notes o)
     (minimumModVersion o) (mapRemovedFromModBool o) (timeSubmitted o)
     (users_maps_details_submittedByTousers o)
     (timeApproved o) (users_maps_details_approvedByTousers o)
     (users_maps_details_mapperUserIDTousers o) (mapperNameString o) newChapter newSide
     (overallRank o) (difficulties_difficultiesTomaps_details_modDifficultyID o)
     (maps_to_tech_maps_detailsTomaps_to_tech_mapID o).

Definition set_overallRank (rank : option Z) (o : t) : t :=
  mk (name o) (canonicalDifficulty o) (map_lengths o) (description o) (notes o)
     (minimumModVersion o) (mapRemovedFromModBool o) (timeSubmitted o)
     (users_maps_details_submittedByTousers o)
     (timeApproved o) (users_maps_details_approvedByTousers o)
     (users_maps_details_mapperUserIDTousers o) (mapperNameString o) (chapter o) (side o)
     rank (difficulties_difficultiesTomaps_details_modDifficultyID o)
     (maps_to_tech_maps_detailsTomaps_to_tech_mapID o).

Definition set_modDifficultyID (difficultyID : Z) (o : t) : t :=
  mk (name o) (canonicalDifficulty o) (map_lengths o) (description o) (notes o)
     (minimumModVersion o) (mapRemovedFromModBool o) (timeSubmitted o)
     (users_maps_details_submittedByTousers o)
     (timeApproved o) (users_maps_details_approvedByTousers o)
     (users_maps_details_mapperUserIDTousers o) (mapperNameString o) (chapter o) (side o)
     (overallRank o) (Some difficultyID)
     (maps_to_tech_maps_detailsTomaps_to_tech_mapID o).

Definition set_tech (tech : list mapToTechCreationObject.t) (o : t) : t :=
  mk (name o) (canonicalDifficulty o) (map_lengths o) (description o) (notes o)
     (minimumModVersion o) (mapRemovedFromModBool o) (timeSubmitted o)
     (users_maps_details_submittedByTousers o)
     (timeApproved o) (users_maps_details_approvedByTousers o)
     (users_maps_details_mapperUserIDTousers o) (mapperNameString o) (chapter o) (side o)
     (overallRank o) (difficulties_difficultiesTomaps_details_modDifficultyID o)
     (Some tech).
End mapDetailsCreationObject.

(** [{ map_details: { create: mapDetailsCreationObject[] } }]. *)
Record mapIdCreationObject : Type := mkMapId {
  map_details_create : list mapDetailsCreationObject.t
}.

(** An assignment [mapIdCreationObject.map_details.create[0].field = value]:
    a [TypeError] when [create] is empty. *)
Definition assignCreate0 (update : mapDetailsCreationObject.t -> mapDetailsCreationObject.t)
    (object : mapIdCreationObject) : M mapIdCreationObject :=
  match map_details_create object with
  | [] => throw ThrowTypeError
  | details :: rest => ret (mkMapId (update details :: rest))
  end.

Definition canonicalDifficultyNameErrorMessage : string :=
  "canonicalDifficulty does not match any default parent difficulty names".

Definition techNameErrorMessage : string :=
  "A tech name in techAny did not match the names of any tech in the celestemods.com database".

Definition lengthErrorMessage : string :=
  "length does not match the name of any map lengths in the celestemods.com database".

Definition invalidMapperUserIdErrorMessage : string :=
  "No user found with ID = ".

(** The template literal of the source, with its line break. *)
Definition invalidMapDifficultyErrorMessage : string :=
  ("All maps in a non-Normal mod must be assigned a modDifficulty that matches the difficulties used by the mod (whether default or custom)."
   ++ String (Ascii.ascii_of_nat 10) "If the mod uses sub-difficulties, modDifficulty must be given in the form [difficulty, sub-difficulty].")%string.

(** ** handleNonNormalMods *)

(** The test [!modDifficulty]: [undefined] and the empty string are falsy
    ([None]), an array (even an empty one) is not. *)
Definition truthyModDifficulty (modDifficulty : option stringOrArray)
  : option stringOrArray :=
  match modDifficulty with
  | None => None
  | Some (Str s) => if String.eqb s "" then None else Some (Str s)
  | Some (Arr a) => Some (Arr a)
  end.

(** [for (const childDifficulty of difficulty.other_difficulties.create)] with
    its [break]: the value left in [validModDifficultyBool]. *)
Fixpoint customChildLoop (create : list createChildDifficultyForMod.t)
    (modDifficulty1 : option string) : bool :=
  match create with
  | [] => false
  | childDifficulty :: rest =>
      if strictEqualName (Some (createChildDifficultyForMod.name childDifficulty)) modDifficulty1
      then true
      else customChildLoop rest modDifficulty1
  end.

(** [for (const difficulty of customDifficultiesArray)] of a mod with
    sub-difficulties. *)
Fixpoint customSubDifficultyLoop (customDifficultiesArray : list createParentDifficultyForMod.t)
    (modDifficulty : list string) : bool :=
  match customDifficultiesArray with
  | [] => false
  | difficulty :: rest =>
      match createParentDifficultyForMod.other_difficulties difficulty with
      | None => customSubDifficultyLoop rest modDifficulty
      | Some create =>
          if strictEqualName (createParentDifficultyForMod.name difficulty)
               (nth_error modDifficulty 0)
          then customChildLoop create (nth_error modDifficulty 1)
          else customSubDifficultyLoop rest modDifficulty
      end
  end.

(** [for (const difficulty of customDifficultiesArray)] of a mod without
    sub-difficulties; the [typeof] test sits inside the loop. *)
Fixpoint customDifficultyLoop (customDifficultiesArray : list createParentDifficultyForMod.t)
    (modDifficulty : stringOrArray) : M bool :=
  match customDifficultiesArray with
  | [] => ret false
  | difficulty :: rest =>
      match modDifficulty with
      | Arr _ => throw (ThrowString invalidMapDifficultyErrorMessage)
      | Str modDifficultyString =>
          if strictEqualName (createParentDifficultyForMod.name difficulty)
               (Some modDifficultyString)
          then ret true
          else customDifficultyLoop rest modDifficulty
      end
  end.

(** [for (const childDifficulty of difficulty.other_difficulties)] of the
    default tree, with its [break]: the id that is connected, if any. *)
Fixpoint defaultChildLoop (other_difficulties : list difficulties.t)
    (modDifficulty1 : option string) : option Z :=
  match other_difficulties with
  | [] => None
  | childDifficulty :: rest =>
      if strictEqualName (Some (difficulties.name childDifficulty)) modDifficulty1
      then Some (difficulties.id childDifficulty)
      else defaultChildLoop rest modDifficulty1
  end.

(** [for (const difficulty of defaultDifficultyObjectsArray)]. *)
Fixpoint defaultDifficultyLoop (defaultDifficultyObjectsArray : list defaultDifficultyForMod.t)
    (modDifficulty : list string) : option Z :=
  match defaultDifficultyObjectsArray with
  | [] => None
  | difficulty :: rest =>
      match defaultDifficultyForMod.other_difficulties difficulty with
      | None | Some [] => defaultDifficultyLoop rest modDifficulty
      | Some other_difficulties =>
          if strictEqualName (Some (defaultDifficultyForMod.name difficulty))
               (nth_error modDifficulty 0)
          then defaultChildLoop other_difficulties (nth_error modDifficulty 1)
          else defaultDifficultyLoop rest modDifficulty
      end
  end.

(** The body of [handleNonNormalMods], returning the creation object as it
    was mutated together with the final value of the local
    [validModDifficultyBool]. *)
Definition handleNonNormalModsBody (object : mapIdCreationObject)
    (modType : mods_details_type) (overallRank : option Z)
    (modDifficulty : option stringOrArray)
    (customDifficultiesArray : list createParentDifficultyForMod.t)
    (defaultDifficultyObjectsArray : list defaultDifficultyForMod.t)
    (modUsesCustomDifficultiesBool modHasSubDifficultiesBool : bool)
  : M (mapIdCreationObject * bool) :=
  object <- (if isContest modType
             then assignCreate0 (mapDetailsCreationObject.set_overallRank overallRank) object
             else ret object) ;;
  match truthyModDifficulty modDifficulty with
  | None => throw (ThrowString invalidMapDifficultyErrorMessage)
  | Some modDifficulty =>
      if modUsesCustomDifficultiesBool
      then
        match customDifficultiesArray with
        | [] => throw (ThrowString "customDifficultiesArray is empty")
        | _ :: _ =>
            if modHasSubDifficultiesBool
            then
              match modDifficulty with
              | Str _ => throw (ThrowString invalidMapDifficultyErrorMessage)
              | Arr claimed =>
                  ret (object, customSubDifficultyLoop customDifficultiesArray claimed)
              end
            else
              validModDifficultyBool <-
                customDifficultyLoop customDifficultiesArray modDifficulty ;;
              ret (object, validModDifficultyBool)
        end
      else
        match defaultDifficultyObjectsArray with
        | [] => throw (ThrowString "defaultDifficultyObjectsArray is empty")
        | _ :: _ =>
            match modDifficulty with
            | Str _ => throw (ThrowString invalidMapDifficultyErrorMessage)
            | Arr claimed =>
                match defaultDifficultyLoop defaultDifficultyObjectsArray claimed with
                | Some childID =>
                    object <-
                      assignCreate0 (mapDetailsCreationObject.set_modDifficultyID childID)
                        object ;;
                    ret (object, true)
                | None => ret (object, false)
                end
            end
        end
  end.

(** [handleNonNormalMods] returns nothing; what is left of a call is the
    mutated creation object. [validModDifficultyBool] is not read after the
    loops. *)
Definition handleNonNormalMods (object : mapIdCreationObject)
    (modType : mods_details_type) (overallRank : option Z)
    (modDifficulty : option stringOrArray)
    (customDifficultiesArray : list createParentDifficultyForMod.t)
    (defaultDifficultyObjectsArray : list defaultDifficultyForMod.t)
    (modUsesCustomDifficultiesBool modHasSubDifficultiesBool : bool)
  : M mapIdCreationObject :=
  '(object, _) <-
     handleNonNormalModsBody object modType overallRank modDifficulty customDifficultiesArray
       defaultDifficultyObjectsArray modUsesCustomDifficultiesBool modHasSubDifficultiesBool ;;
  ret object.

(** ** privilegedUser *)

(** [for (const perm of permArray)] with its [return true]. *)
Fixpoint permLoop (permArray : list string) : bool :=
  match permArray with
  | [] => false
  | perm :: rest =>
      if String.eqb perm "Super_Admin" || String.eqb perm "Admin"
         || String.eqb perm "Map_Moderator"
      then true
      else permLoop rest
  end.

Definition privilegedUser (user : submitterUser.t) : errorWithMessage + bool :=
  tryCatch
    (let permArray := submitterUser.permissionsArray user in
     if (length permArray =? 0)%nat then ret false else ret (permLoop permArray)).

(** ** getCanonicalDifficultyID and getMapIdCreationObject *)

(** What the Prisma reads of the map creation path resolve to:
    [difficulties.findMany] over the default parent difficulties,
    [tech_list.findMany] with its difficulties, and whether
    [users.findUnique] finds a row with the id. *)
Record prismaReads : Type := mkReads {
  parentDefaultDifficultyObjectsArray : list difficulties.t;
  techObjectsWithDifficultyObjectsArray : list tech_list.t;
  users_findUnique : Z -> bool
}.

(** [for (const parentDifficulty of parentDefaultDifficultyObjectsArray)] of a
    named canonical difficulty, with its [return]. *)
Fixpoint canonicalNameLoop (parents : list difficulties.t) (canonicalDifficultyName : string)
  : M Z :=
  match parents with
  | [] => throw (ThrowString canonicalDifficultyNameErrorMessage)
  | parentDifficulty :: rest =>
      if String.eqb (difficulties.name parentDifficulty) canonicalDifficultyName
      then ret (difficulties.id parentDifficulty)
      else canonicalNameLoop rest canonicalDifficultyName
  end.

(** The search of the easiest default parent difficulty. *)
Fixpoint easiestLoop (parents : list difficulties.t)
    (easiestDifficultyID easiestDifficultyOrder : Z) : M (Z * Z) :=
  match parents with
  | [] => ret (easiestDifficultyID, easiestDifficultyOrder)
  | parentDifficulty :: rest =>
      if difficulties.order parentDifficulty =? easiestDifficultyOrder
      then throw (ThrowString "Two default parent difficulties have the same order")
      else if difficulties.order parentDifficulty <? easiestDifficultyOrder
      then easiestLoop rest (difficulties.id parentDifficulty)
             (difficulties.order parentDifficulty)
      else easiestLoop rest easiestDifficultyID easiestDifficultyOrder
  end.

(** [for (const techObject of techObjectsWithDifficultyObjectsArray)] with its
    [break]: [None] when [validTechName] stays false. *)
Fixpoint findTech (techObjects : list tech_list.t) (techName : string)
  : option tech_list.t :=
  match techObjects with
  | [] => None
  | techObject :: rest =>
      if String.eqb (tech_list.name techObject) techName
      then Some techObject
      else findTech rest techName
  end.

(** [for (const techName of techAny)]. *)
Fixpoint highestLoop (techAny : list string) (techObjects : list tech_list.t)
    (highestDifficultyID highestDifficultyOrder : Z) : M (Z * Z) :=
  match techAny with
  | [] => ret (highestDifficultyID, highestDifficultyOrder)
  | techName :: rest =>
      match findTech techObjects techName with
      | None => throw (ThrowString techNameErrorMessage)
      | Some techObject =>
          let difficultyOrder := difficulties.order (tech_list.difficulties techObject) in
          if difficultyOrder =? highestDifficultyOrder
          then throw (ThrowString "Two default parent difficulties have the same order")
          else if difficultyOrder >? highestDifficultyOrder
          then highestLoop rest techObjects (tech_list.defaultDifficultyID techObject)
                 difficultyOrder
          else highestLoop rest techObjects highestDifficultyID highestDifficultyOrder
      end
  end.

(** A string that is [null], [undefined] or empty is falsy. *)
Definition truthyString (s : option string) : option string :=
  match s with
  | Some s' => if String.eqb s' "" then None else Some s'
  | None => None
  end.

(** A number that is [undefined] or zero is falsy. *)
Definition truthyNumber (n : option Z) : option Z :=
  match n with
  | Some n' => if n' =? 0 then None else Some n'
  | None => None
  end.

Definition getCanonicalDifficultyID (prisma : prismaReads)
    (canonicalDifficultyName : option string) (techAny : option (list string)) : M Z :=
  match truthyString canonicalDifficultyName with
  | Some canonicalDifficultyName =>
      canonicalNameLoop (parentDefaultDifficultyObjectsArray prisma) canonicalDifficultyName
  | None =>
      match techAny with
      | None =>
          '(easiestDifficultyID, _) <-
             easiestLoop (parentDefaultDifficultyObjectsArray prisma) 0 99999 ;;
          if easiestDifficultyID =? 0
          then throw (ThrowString "Unable to find easiest parent default difficulty")
          else ret easiestDifficultyID
      | Some techAny =>
          '(highestDifficultyID, _) <-
             highestLoop techAny (techObjectsWithDifficultyObjectsArray prisma) 0 0 ;;
          if highestDifficultyID =? 0
          then throw (ThrowString "Unable to find highestDifficultyID")
          else ret highestDifficultyID
      end
  end.

(** [for (const length of lengthObjectArray)] with its [break]; [0] when no
    length has the name. *)
Fixpoint findLengthID (lengthObjectArray : list map_lengths.t) (lengthName : string) : Z :=
  match lengthObjectArray with
  | [] => 0
  | length :: rest =>
      if String.eqb (map_lengths.name length) lengthName
      then map_lengths.id length
      else findLengthID rest lengthName
  end.

(** One [techCreationObject] per name, as the two [forEach] build them. *)
Definition techCreationObjects (names : option (list string)) (fullClearOnlyBool : bool)
  : list mapToTechCreationObject.t :=
  match names with
  | None => []
  | Some names =>
      map (fun techName => mapToTechCreationObject.mk 0 techName fullClearOnlyBool) names
  end.

(** The placeholder bound to the module-level [submittingUser]. *)
Definition submittingUserPlaceholder : submitterUser.t :=
  submitterUser.mk 5 "steve" "5" "steve" "5555" false 1 "" [] "Active" None.

(** [getMapIdCreationObject], with the module-level [submittingUser] and the
    results of the awaited Prisma reads as its first two parameters. *)
Definition getMapIdCreationObject (submittingUser : submitterUser.t) (prisma : prismaReads)
    (mapObject : jsonCreateMapWithMod.t) (currentTime : Z) (modType : mods_details_type)
    (lengthObjectArray : list map_lengths.t)
    (customDifficultiesArray : list createParentDifficultyForMod.t)
    (defaultDifficultyObjectsArray : list defaultDifficultyForMod.t)
    (modUsesCustomDifficultiesBool modHasSubDifficultiesBool : bool)
  : M mapIdCreationObject :=
  let techAny := jsonCreateMapWithMod.techAny mapObject in
  let techFC := jsonCreateMapWithMod.techFC mapObject in
  canonicalDifficultyID <-
    getCanonicalDifficultyID prisma (jsonCreateMapWithMod.canonicalDifficulty mapObject) techAny ;;
  let lengthID := findLengthID lengthObjectArray (jsonCreateMapWithMod.length mapObject) in
  if lengthID =? 0 then throw (ThrowString lengthErrorMessage) else
  let object :=
    mkMapId
      [mapDetailsCreationObject.mk
         (jsonCreateMapWithMod.name mapObject) canonicalDifficultyID lengthID
         (jsonCreateMapWithMod.description mapObject) (jsonCreateMapWithMod.notes mapObject)
         (jsonCreateMapWithMod.minimumModVersion mapObject)
         (jsonCreateMapWithMod.mapRemovedFromModBool mapObject)
         currentTime (submitterUser.id submittingUser)
         None None None None None None None None None] in
  privilegedUserBool <-
    match privilegedUser submittingUser with
    | inl (toErrorWithMessage error) => throw (ThrowErrorWithMessage error)
    | inr b => ret b
    end ;;
  object <-
    (if privilegedUserBool : bool
     then assignCreate0
            (mapDetailsCreationObject.set_approved currentTime (submitterUser.id submittingUser))
            object
     else ret object) ;;
  object <-
    match truthyNumber (jsonCreateMapWithMod.mapperUserID mapObject) with
    | Some mapperUserID =>
        if users_findUnique prisma mapperUserID
        then assignCreate0 (mapDetailsCreationObject.set_mapperUserID mapperUserID) object
        else throw (ThrowString
                      (invalidMapperUserIdErrorMessage ++ numberToString mapperUserID)%string)
    | None =>
        match truthyString (jsonCreateMapWithMod.mapperNameString mapObject) with
        | Some mapperNameString =>
            assignCreate0 (mapDetailsCreationObject.set_mapperNameString mapperNameString) object
        | None => ret object
        end
    end ;;
  object <-
    (if isNormal modType
     then assignCreate0
            (mapDetailsCreationObject.set_chapter_side
               (jsonCreateMapWithMod.chapter mapObject) (jsonCreateMapWithMod.side mapObject))
            object
     else handleNonNormalMods object modType (jsonCreateMapWithMod.overallRank mapObject)
            (jsonCreateMapWithMod.modDifficulty mapObject) customDifficultiesArray
            defaultDifficultyObjectsArray modUsesCustomDifficultiesBool
            modHasSubDifficultiesBool) ;;
  match techAny, techFC with
  | None, None => ret object
  | _, _ =>
      assignCreate0
        (mapDetailsCreationObject.set_tech
           (techCreationObjects techAny false ++ techCreationObjects techFC true))
        object
  end.

(** ** The GameBanana identity lookups *)

(** [options.url] of the two requests. *)
Definition identifyByIdUrl (gamebananaID : Z) : string :=
  ("https://api.gamebanana.com/Core/Member/IdentifyById?userid="
   ++ numberToString gamebananaID)%string.

Definition identifyUrl (gamebananaUsername : string) : string :=
  ("https://api.gamebanana.com/Core/Member/Identify?username="
   ++ gamebananaUsername)%string.

Section GameBanana.

(** The numbers other than [NaN], with the literal [-1]. *)
Variable double : Type.
Variable minusOne : double.

(** A decoded JSON body. *)
#[warnings="-register-all"]
Inductive json : Type :=
| JNull
| JBool (b : bool)
| JNumber (d : double)
| JString (s : string)
| JArray (elements : list json)
| JObject (properties : list (string * json)).

(** [axiosResponse.status] and [axiosResponse.data]; a response without a
    body has [data = None] ([undefined]). *)
Record axiosResponse : Type := mkResponse {
  status : Z;
  data : option json
}.

(** The awaited [axios(options)], by url: a response, or a rejection. *)
Variable axios : string -> M axiosResponse.

(** The builtin conversions [Number(v)] ([None] is [NaN]) and [String(v)] of
    a value that may be [undefined]. Both can throw: on an object they call
    its [valueOf] and [toString], and raise a [TypeError] when neither gives
    a primitive. *)
Variable Number : option json -> M (option double).
Variable StringOf : option json -> M string.

Fixpoint getProperty (properties : list (string * json)) (key : string) : option json :=
  match properties with
  | [] => None
  | (k, v) :: rest => if String.eqb k key then Some v else getProperty rest key
  end.

(** [data[0]]: a [TypeError] on [undefined] and [null], the first element of
    an array, the first character of a string, the property ["0"] of an
    object, and [undefined] on the other primitives. *)
Definition element0 (data : option json) : M (option json) :=
  match data with
  | None | Some JNull => throw ThrowTypeError
  | Some (JArray elements) => ret (nth_error elements 0)
  | Some (JString s) =>
      ret (match s with
           | EmptyString => None
           | String c _ => Some (JString (String c EmptyString))
           end)
  | Some (JObject properties) => ret (getProperty properties "0")
  | Some (JBool _) | Some (JNumber _) => ret None
  end.

Definition getGamebananaUsernameById (gamebananaID : Z) : errorWithMessage + string :=
  tryCatch
    (axiosResponse <- axios (identifyByIdUrl gamebananaID) ;;
     if negb (status axiosResponse =? 200)
     then throw (ThrowError "GameBanana api not responding as expected.")
     else
       first <- element0 (data axiosResponse) ;;
       gamebananaName <- StringOf first ;;
       ret gamebananaName).

(** The result is a number, [None] being [NaN]. *)
Definition getGamebananaIdByUsername (gamebananaUsername : string)
  : errorWithMessage + option double :=
  tryCatch
    (axiosResponse <- axios (identifyUrl gamebananaUsername) ;;
     if negb (status axiosResponse =? 200)
     then throw (ThrowError "GameBanana api not responding as expected.")
     else
       first <- element0 (data axiosResponse) ;;
       gamebananaID <- Number first ;;
       let gamebananaID :=
         match gamebananaID with
         | None => Some minusOne
         | Some _ => gamebananaID
         end in
       ret gamebananaID).

End GameBanana.

Arguments JNull {double}.
Arguments JBool {double} b.
Arguments JString {double} s.
Arguments JArray {double} elements.
Arguments JObject {double} properties.
Arguments JNumber {double} d.
Arguments mkResponse {double} status data.
Arguments status {double} a.
Arguments data {double} a.
Arguments element0 {double} data.

(** ** The conversions on decoded JSON

    [Number] and [String] as ECMAScript defines them on the values that
    [JSON.parse] produces, for JSON whose numbers are integers. Such a value
    has no callable property, so the conversion of an object to a primitive
    goes through [Object.prototype.toString] when the object has no
    [toString] of its own, and raises a [TypeError] when it has one.

    A string converts to the integer it writes in decimal digits (a sign is
    allowed, and white space around it), to 0 when it is blank, and to [NaN]
    otherwise. The strings that write a number in another form (a fraction,
    an exponent, a radix prefix, [Infinity]) are outside this
    interpretation, as is white space beyond ASCII. *)

Definition isWhiteSpace (c : ascii) : bool :=
  let n := nat_of_ascii c in
  ((n =? 9) || (n =? 10) || (n =? 11) || (n =? 12) || (n =? 13) || (n =? 32))%nat.

Fixpoint trimStart (s : string) : string :=
  match s with
  | EmptyString => EmptyString
  | String c rest => if isWhiteSpace c then trimStart rest else s
  end.

Fixpoint trimEnd (s : string) : string :=
  match s with
  | EmptyString => EmptyString
  | String c rest =>
      match trimEnd rest with
      | EmptyString => if isWhiteSpace c then EmptyString else String c EmptyString
      | kept => String c kept
      end
  end.

(** A non-empty run of decimal digits. *)
Definition digitsToNumber (s : string) : option Z :=
  match s with
  | EmptyString => None
  | _ => option_map Z.of_uint (NilEmpty.uint_of_string s)
  end.

(** [StringToNumber]. *)
Definition stringToNumber (s : string) : option Z :=
  match trimEnd (trimStart s) with
  | EmptyString => Some 0
  | String "+" digits => digitsToNumber digits
  | String "-" digits => option_map Z.opp (digitsToNumber digits)
  | digits => digitsToNumber digits
  end.

(** [ToString(v)]; [Array.prototype.join] writes [null] as the empty
    string. *)
Fixpoint toStringJson (v : json Z) : M string :=
  match v with
  | JNull => ret "null"
  | JBool b => ret (if b then "true" else "false")
  | JNumber d => ret (numberToString d)
  | JString s => ret s
  | JArray elements =>
      (fix join (elements : list (json Z)) : M string :=
         match elements with
         | [] => ret ""
         | element :: rest =>
             written <- match element with
                        | JNull => ret ""
                        | _ => toStringJson element
                        end ;;
             match rest with
             | [] => ret written
             | _ => joined <- join rest ;; ret (written ++ "," ++ joined)%string
             end
         end) elements
  | JObject properties =>
      match getProperty Z properties "toString" with
      | Some _ => throw ThrowTypeError
      | None => ret "[object Object]"
      end
  end.

(** [String(v)]. *)
Definition jsString (v : option (json Z)) : M string :=
  match v with
  | None => ret "undefined"
  | Some value => toStringJson value
  end.

(** [Number(v)]. *)
Definition jsNumber (v : option (json Z)) : M (option Z) :=
  match v with
  | None => ret None
  | Some JNull => ret (Some 0)
  | Some (JBool b) => ret (Some (if b then 1 else 0))
  | Some (JNumber d) => ret (Some d)
  | Some (JString s) => ret (stringToNumber s)
  | Some value => written <- toStringJson value ;; ret (stringToNumber written)
  end.

(** Responses with status 200 and a body of one element: a number, a name,
    [null], and an object with a [toString] property. *)
Definition axiosAnswering (first : json Z) (url : string) : M (axiosResponse Z) :=
  ret (mkResponse 200 (Some (JArray [first]))).

Definition sampleAxios : string -> M (axiosResponse Z) :=
  axiosAnswering (JNumber 1698143).

Definition toStringObject : json Z :=
  JObject [("toString", JNumber 1)].

(** ** Functional descriptions used in the proofs *)

(** The orders [start], [start + 1], ... that a counting loop of [n]
    iterations visits. *)
Fixpoint seqZ (start : Z) (n : nat) : list Z :=
  match n with
  | O => []
  | S n' => start :: seqZ (start + 1) n'
  end.

(** The child creation records of the names [rest], numbered from
    [childDifficultyIndex]. *)
Fixpoint childRecords (rest : list string) (childDifficultyIndex : Z)
  : list createChildDifficultyForMod.t :=
  match rest with
  | [] => []
  | childDifficultyName :: rest' =>
      createChildDifficultyForMod.mk childDifficultyName childDifficultyIndex
      :: childRecords rest' (childDifficultyIndex + 1)
  end.

(** The creation record of the element at index [parentDifficultyIndex]. *)
Definition parentRecord (parentDifficultyIndex : Z) (element : stringOrArray)
  : createParentDifficultyForMod.t :=
  match element with
  | Str s => createParentDifficultyForMod.mk (Some s) (parentDifficultyIndex + 1) None
  | Arr a =>
      createParentDifficultyForMod.mk (hd_error a) (parentDifficultyIndex + 1)
        (Some (childRecords (tl a) 1))
  end.

Fixpoint parentRecords (rest : list stringOrArray) (parentDifficultyIndex : Z)
  : list createParentDifficultyForMod.t :=
  match rest with
  | [] => []
  | element :: rest' =>
      parentRecord parentDifficultyIndex element
      :: parentRecords rest' (parentDifficultyIndex + 1)
  end.

(** The names one element adds to the flat list: the children of an array
    first, its parent name last. *)
Definition flatNames (element : stringOrArray) : list difficultyNamesArrayElement :=
  match element with
  | Str s => [mkName (Some s)]
  | Arr a => map (fun n => mkName (Some n)) (tl a) ++ [mkName (hd_error a)]
  end.

Definition isArray (element : stringOrArray) : bool :=
  match element with
  | Str _ => false
  | Arr _ => true
  end.

(** Rows with a null [parentDifficultyID]. *)
Definition isParent (difficulty : difficulties.t) : bool :=
  match difficulties.parentDifficultyID difficulty with
  | None => true
  | Some _ => false
  end.

Definition parentRows (rows : list difficulties.t) : list difficulties.t :=
  filter isParent rows.

(** Rows whose [parentDifficultyID] is [parentID]. *)
Definition isChildOf (parentID : Z) (difficulty : difficulties.t) : bool :=
  strictEqual (difficulties.parentDifficultyID difficulty) (Int parentID).

Definition childrenOf (parentID : Z) (rows : list difficulties.t) : list difficulties.t :=
  filter (isChildOf parentID) rows.

Definition hasOrder (order : Z) (difficulty : difficulties.t) : bool :=
  difficulties.order difficulty =? order.

(** The first sibling array whose first element has the parent. *)
Definition headIsChildOf (parentID : Z) (siblingArray : list difficulties.t) : bool :=
  match siblingArray with
  | [] => false
  | first :: _ => isChildOf parentID first
  end.

Definition lookupGroup (subDifficultiesArray : list (list difficulties.t)) (parentID : Z)
  : option (list difficulties.t) :=
  find (headIsChildOf parentID) subDifficultiesArray.

Definition nonEmpty {A : Type} (l : list A) : option (list A) :=
  match l with
  | [] => None
  | _ :: _ => Some l
  end.

(** The sibling arrays hold, for each parent id, its rows among [seen]. *)
Definition groupsOf (seen : list difficulties.t)
    (subDifficultiesArray : list (list difficulties.t)) : Prop :=
  Forall (fun siblingArray => siblingArray <> []) subDifficultiesArray /\
  forall parentID, lookupGroup subDifficultiesArray parentID = nonEmpty (childrenOf parentID seen).

(** The element of the display shape that the output step builds for
    [parentOrder], read off the rows. *)
Definition formatEntry (rows : list difficulties.t) (parentOrder : Z) : stringOrArray :=
  match findParent (parentRows rows) parentOrder with
  | (NaN, parentName) => Str parentName
  | (Int parentId, parentName) =>
      match childrenOf parentId rows with
      | [] => Str parentName
      | siblingArray =>
          Arr (siblingOrderLoop (length siblingArray) 1 siblingArray [parentName])
      end
  end.

(** ** Well-formed submissions *)

Definition nonBlank (name : string) : bool := negb (String.eqb name "").

(** A bare non-blank name, or an array of non-blank names that holds a parent
    name and at least one child name. *)
Definition wellFormedElement (element : stringOrArray) : bool :=
  match element with
  | Str s => nonBlank s
  | Arr (parent :: child :: children) => forallb nonBlank (parent :: child :: children)
  | Arr _ => false
  end.

Definition wellFormedSubmission (difficultyNames : list stringOrArray) : bool :=
  forallb wellFormedElement difficultyNames.

Definition exampleSubmission : list stringOrArray :=
  [Str "Easy"; Arr ["Medium"; "Medium+"]; Str "Hard"].

(** The stored rows of the example: three parents with orders 1, 2, 3 and
    "Medium+" under "Medium" with order 1. *)
Definition exampleRows (easyID mediumID mediumPlusID hardID : Z) : list difficulties.t :=
  [difficulties.mk easyID "Easy" 1 None;
   difficulties.mk mediumID "Medium" 2 None;
   difficulties.mk mediumPlusID "Medium+" 1 (Some mediumID);
   difficulties.mk hardID "Hard" 3 None].

(** ** Sample inputs of the validator *)

(** The creation object of a map as [getMapIdCreationObject] has it when it
    calls [handleNonNormalMods]. *)
Definition sampleObject : mapIdCreationObject :=
  mkMapId
    [mapDetailsCreationObject.mk "Summit" 3 2 None None "1.0.0" false 1700000000 5
       None None None None None None None None None].

(** The custom tree of the submission ["Easy"; ["Medium"; "Medium+"]; "Hard"]. *)
Definition sampleCustomDifficulties : list createParentDifficultyForMod.t :=
  parentRecords exampleSubmission 0.


(** The submitting user holds one of the three privileged permissions. *)
Definition hasPrivilegedPermission (user : submitterUser.t) : Prop :=
  exists perm,
    In perm (submitterUser.permissionsArray user) /\
    (perm = "Super_Admin" \/ perm = "Admin" \/ perm = "Map_Moderator").

(** The two approval fields of the only element of [map_details.create]. *)
Definition approvalOf (object : mapIdCreationObject) : option (option Z * option Z) :=
  match map_details_create object with
  | [details] =>
      Some (mapDetailsCreationObject.timeApproved details,
            mapDetailsCreationObject.users_maps_details_approvedByTousers details)
  | _ => None
  end.

(** A user, a database and a request body to run [getMapIdCreationObject]. *)
Definition sampleModerator : submitterUser.t :=
  submitterUser.mk 8 "ellie" "8" "ellie" "0008" true 1 "Map_Reviewer,Map_Moderator"
    ["Map_Reviewer"; "Map_Moderator"] "Active" None.

Definition samplePrisma : prismaReads :=
  mkReads [difficulties.mk 1 "Beginner" 1 None; difficulties.mk 2 "Intermediate" 2 None]
    [] (fun userID => userID =? 5).

Definition sampleMap : jsonCreateMapWithMod.t :=
  jsonCreateMapWithMod.mk "Summit" "Long" None None "1.0.0" false None None
    (Some "Intermediate") None (Some "ellie") (Some 7) (Some "A") None None.

Definition sampleLengths : list map_lengths.t :=
  [map_lengths.mk 1 "Short"; map_lengths.mk 2 "Long"].

(** Three parents among which no row has order 2. *)
Definition gapRows : list difficulties.t :=
  [difficulties.mk 21 "Easy" 1 None;
   difficulties.mk 22 "Hard" 3 None;
   difficulties.mk 23 "Expert" 4 None].

(** ** The rows a well-formed submission is stored as *)

(** The parent name and the child names of an element. *)
Definition parentNameOf (element : stringOrArray) : string :=
  match element with
  | Str s => s
  | Arr a => hd "" a
  end.

Definition childNamesOf (element : stringOrArray) : list string :=
  match element with
  | Str _ => []
  | Arr a => tl a
  end.

(** The rows of the elements [rest], the first of which is at index
    [parentDifficultyIndex], when [allocated] rows were created before. *)
Fixpoint storedRows (fresh : nat -> Z) (allocated : nat) (parentDifficultyIndex : Z)
    (rest : list stringOrArray) : list difficulties.t :=
  match rest with
  | [] => []
  | element :: rest' =>
      difficulties.mk (fresh allocated) (parentNameOf element) (parentDifficultyIndex + 1) None
      :: persistChildren fresh (S allocated) (fresh allocated)
           (childRecords (childNamesOf element) 1)
      ++ storedRows fresh (S allocated + length (childNamesOf element))
           (parentDifficultyIndex + 1) rest'
  end.

(** The parent rows among them. *)
Fixpoint storedParents (fresh : nat -> Z) (allocated : nat) (parentDifficultyIndex : Z)
    (rest : list stringOrArray) : list difficulties.t :=
  match rest with
  | [] => []
  | element :: rest' =>
      difficulties.mk (fresh allocated) (parentNameOf element) (parentDifficultyIndex + 1) None
      :: storedParents fresh (S allocated + length (childNamesOf element))
           (parentDifficultyIndex + 1) rest'
  end.

(** ** Further descriptions of the reconstruction *)

(** No name of an element of the display shape is the empty string. *)
Definition namesNonBlank (element : stringOrArray) : bool :=
  match element with
  | Str s => nonBlank s
  | Arr a => forallb nonBlank a
  end.

(** Rows of one sibling scope (the parents, or the children of one parent)
    that have the same order are the same row. *)
Definition ordersDistinct (rows : list difficulties.t) : Prop :=
  forall x y,
    In x rows -> In y rows ->
    difficulties.parentDifficultyID x = difficulties.parentDifficultyID y ->
    difficulties.order x = difficulties.order y ->
    x = y.

(** The rows of the worked example, children first. *)
Definition exampleRowsShuffled : list difficulties.t :=
  [difficulties.mk 13 "Medium+" 1 (Some 12);
   difficulties.mk 14 "Hard" 3 None;
   difficulties.mk 12 "Medium" 2 None;
   difficulties.mk 11 "Easy" 1 None].

(** The names an element of the display shape holds. *)
Definition namesOf (element : stringOrArray) : list string :=
  match element with
  | Str s => [s]
  | Arr a => a
  end.

(** Children whose parent row is missing. *)
Definition orphanRows : list difficulties.t :=
  [difficulties.mk 2 "Medium+" 1 (Some 1); difficulties.mk 3 "Medium++" 2 (Some 1)].

(** ** Sample database reads for the canonical difficulty *)

Definition sampleTechObjects : list tech_list.t :=
  [tech_list.mk "Wavedash" 2 (difficulties.mk 2 "Intermediate" 2 None);
   tech_list.mk "Cornerboost" 3 (difficulties.mk 3 "Advanced" 3 None);
   tech_list.mk "Jump" 1 (difficulties.mk 1 "Beginner" 1 None)].

Definition samplePrismaTech : prismaReads :=
  mkReads
    [difficulties.mk 2 "Intermediate" 2 None; difficulties.mk 1 "Beginner" 1 None;
     difficulties.mk 3 "Advanced" 3 None]
    sampleTechObjects (fun userID => userID =? 5).

(** ** Descriptions of the creation object *)

(** What [handleNonNormalMods] leaves of the first element of
    [map_details.create]: the overall rank of a Contest mod, and the
    difficulty that was connected, if one was. *)
Definition afterNonNormal (modType : mods_details_type) (overallRank connected : option Z)
    (details : mapDetailsCreationObject.t) : mapDetailsCreationObject.t :=
  let ranked :=
    if isContest modType
    then mapDetailsCreationObject.set_overallRank overallRank details
    else details in
  match connected with
  | Some difficultyID => mapDetailsCreationObject.set_modDifficultyID difficultyID ranked
  | None => ranked
  end.

(** The record [getMapIdCreationObject] builds, field by field, from the
    canonical difficulty id, the length id and the difficulty that was
    connected. *)
Definition creationDetails (submittingUser : submitterUser.t)
    (mapObject : jsonCreateMapWithMod.t) (currentTime : Z) (modType : mods_details_type)
    (canonicalDifficultyID lengthID : Z) (connected : option Z)
  : mapDetailsCreationObject.t :=
  let privileged := permLoop (submitterUser.permissionsArray submittingUser) in
  mapDetailsCreationObject.mk
    (jsonCreateMapWithMod.name mapObject) canonicalDifficultyID lengthID
    (jsonCreateMapWithMod.description mapObject) (jsonCreateMapWithMod.notes mapObject)
    (jsonCreateMapWithMod.minimumModVersion mapObject)
    (jsonCreateMapWithMod.mapRemovedFromModBool mapObject)
    currentTime (submitterUser.id submittingUser)
    (if privileged then Some currentTime else None)
    (if privileged then Some (submitterUser.id submittingUser) else None)
    (truthyNumber (jsonCreateMapWithMod.mapperUserID mapObject))
    (match truthyNumber (jsonCreateMapWithMod.mapperUserID mapObject) with
     | Some _ => None
     | None => truthyString (jsonCreateMapWithMod.mapperNameString mapObject)
     end)
    (if isNormal modType then jsonCreateMapWithMod.chapter mapObject else None)
    (if isNormal modType then jsonCreateMapWithMod.side mapObject else None)
    (if isContest modType then jsonCreateMapWithMod.overallRank mapObject else None)
    connected
    (match jsonCreateMapWithMod.techAny mapObject, jsonCreateMapWithMod.techFC mapObject with
     | None, None => None
     | techAny, techFC =>
         Some (techCreationObjects techAny false ++ techCreationObjects techFC true)
     end).

(** The only element of [map_details.create] of the sample object. *)
Definition sampleDetails : mapDetailsCreationObject.t :=
  mapDetailsCreationObject.mk "Summit" 3 2 None None "1.0.0" false 1700000000 5
    None None None None None None None None None.

(** The default tree of the site, and a Contest map that claims one of its
    sub-difficulties. *)
Definition sampleDefaultDifficulties : list defaultDifficultyForMod.t :=
  [defaultDifficultyForMod.mk 1 "Beginner" 1 None
     (Some [difficulties.mk 4 "Low" 1 (Some 1); difficulties.mk 5 "High" 2 (Some 1)]);
   defaultDifficultyForMod.mk 2 "Intermediate" 2 None
     (Some [difficulties.mk 6 "Low" 1 (Some 2); difficulties.mk 7 "High" 2 (Some 2)]);
   defaultDifficultyForMod.mk 4 "Low" 1 (Some 1) (Some [])].

Definition sampleContestMap : jsonCreateMapWithMod.t :=
  jsonCreateMapWithMod.mk "Summit" "Long" None None "1.0.0" false (Some ["Wavedash"])
    (Some ["Cornerboost"]) None (Some 5) (Some "ellie") (Some 7) (Some "A")
    (Some (Arr ["Intermediate"; "High"])) (Some 3).

(** The tech name and the full-clear flag of a tech creation object. *)
Definition techEntry (tech : mapToTechCreationObject.t) : string * bool :=
  (mapToTechCreationObject.tech_list tech, mapToTechCreationObject.fullClearOnlyBool tech).

(** The names of an optional array. *)
Definition namesOrNone (names : option (list string)) : list string :=
  match names with
  | Some names => names
  | None => []
  end.

(** The creation object of [sampleMap] by [sampleModerator] in a Normal mod,
    and of [sampleContestMap] in a Contest mod on the default tree. *)
Definition sampleCreated : mapIdCreationObject :=
  mkMapId [creationDetails sampleModerator sampleMap 1700000000 Normal 2 2 None].

Definition sampleContestCreated : mapIdCreationObject :=
  mkMapId
    [creationDetails sampleModerator sampleContestMap 1700000000 Contest 2 2 (Some 7)].

(** A map whose length the site does not have, and a map whose mapper is not
    a user. *)
Definition sampleUnknownLengthMap : jsonCreateMapWithMod.t :=
  jsonCreateMapWithMod.mk "Summit" "Endless" None None "1.0.0" false None None
    (Some "Beginner") None None None None None None.

Definition sampleUnknownMapperMap : jsonCreateMapWithMod.t :=
  jsonCreateMapWithMod.mk "Summit" "Long" None None "1.0.0" false None None
    (Some "Beginner") (Some 99) (Some "ellie") None None None None.

(** ** getMapIDsCreationArray *)

(** The part of an express response this code writes: the status of
    [res.status(n)], the body of [.json(body)], and [res.errorSent]. *)
Record Response : Type := mkResponseState {
  statusCode : option Z;
  jsonBody : option string;
  errorSent : bool
}.

(** A response nothing was written to. *)
Definition freshResponse : Response := mkResponseState None None false.

(** [res.status(n).json(message); res.errorSent = true;] *)
Definition sendError (status : Z) (message : string) (res : Response) : Response :=
  mkResponseState (Some status) (Some message) true.

(** [s.includes(pattern)]. *)
Fixpoint includes (s pattern : string) : bool :=
  if String.prefix pattern s
  then true
  else
    match s with
    | EmptyString => false
    | String _ rest => includes rest pattern
    end.

(** The values of promises that are all fulfilled. *)
Fixpoint allFulfilled {A : Type} (settled : list (M A)) : option (list A) :=
  match settled with
  | [] => Some []
  | inl _ :: _ => None
  | inr value :: rest =>
      match allFulfilled rest with
      | Some values => Some (value :: values)
      | None => None
      end
  end.

(** The reasons of the promises that are rejected, in array order. *)
Fixpoint rejections {A : Type} (settled : list (M A)) : list thrown :=
  match settled with
  | [] => []
  | inl reason :: rest => reason :: rejections rest
  | inr _ :: rest => rejections rest
  end.

(** [await Promise.all(promises)]: the values in array order when every
    promise is fulfilled; else the reason of the promise that is rejected
    first in time. Which of the rejected promises that is depends on how the
    awaited reads interleave: [first] is its index among the rejections (the
    first in array order when out of range). *)
Definition promiseAll {A : Type} (first : nat) (settled : list (M A)) : M (list A) :=
  match allFulfilled settled with
  | Some values => ret values
  | None =>
      match nth_error (rejections settled) first, rejections settled with
      | Some reason, _ => throw reason
      | None, reason :: _ => throw reason
      | None, [] => throw ThrowTypeError
      end
  end.

(** The [catch] block of [getMapIDsCreationArray]: the five messages are
    answered (the function then returns [undefined]), anything else is
    thrown again. *)
Definition catchCreationError {A : Type} (error : thrown) (res : Response)
  : M (option A * Response) :=
  match error with
  | ThrowString message =>
      if String.eqb message canonicalDifficultyNameErrorMessage
      then ret (None, sendError 404 canonicalDifficultyNameErrorMessage res)
      else if String.eqb message techNameErrorMessage
      then ret (None, sendError 404 techNameErrorMessage res)
      else if String.eqb message lengthErrorMessage
      then ret (None, sendError 404 lengthErrorMessage res)
      else if includes message invalidMapperUserIdErrorMessage
      then ret (None, sendError 404 message res)
      else if String.eqb message invalidMapDifficultyErrorMessage
      then ret (None, sendError 400 invalidMapDifficultyErrorMessage res)
      else throw error
  | _ => throw error
  end.

(** [getMapIDsCreationArray], with the module-level [submittingUser], the
    Prisma reads and the interleaving of the rejections as its first
    parameters; it returns the array (or [undefined]) and the response as it
    left it. *)
Definition getMapIDsCreationArray (submittingUser : submitterUser.t) (prisma : prismaReads)
    (first : nat) (res : Response)
    (maps : list jsonCreateMapWithMod.t) (currentTime : Z) (modType : mods_details_type)
    (lengthObjectArray : list map_lengths.t)
    (difficultiesCreationArray : list createParentDifficultyForMod.t)
    (defaultDifficultyObjectsArray : list defaultDifficultyForMod.t)
    (modUsesCustomDifficultiesBool modHasSubDifficultiesBool : bool)
  : M (option (list mapIdCreationObject) * Response) :=
  match
    promiseAll first
      (map (fun mapObject =>
              getMapIdCreationObject submittingUser prisma mapObject currentTime modType
                lengthObjectArray difficultiesCreationArray defaultDifficultyObjectsArray
                modUsesCustomDifficultiesBool modHasSubDifficultiesBool)
         maps)
  with
  | inr mapIDsCreationArray => ret (Some mapIDsCreationArray, res)
  | inl error => catchCreationError error res
  end.

(** ** formatMod and the handlers that answer with mods *)

(** A row of [maps_ids] as the queries include it; [formatMaps] reads
    nothing of it. *)
Inductive rawMap : Type :=
| mkRawMap (id : Z).

(** [formattedMap] is an interface without members. *)
Inductive formattedMap : Type :=
| mkFormattedMap.

(** A row of [mods_details] with its publisher included; [None] is
    [null]. *)
Module rawModDetails.
Record t : Type := mk {
  revision : Z;
  type : mods_details_type;
  name : string;
  publisherID : Z;
  publishers_gamebananaID : option Z;
  contentWarning : bool;
  notes : option string;
  shortDescription : string;
  longDescription : option string;
  gamebananaModID : option Z
}.
End rawModDetails.

(** A row of [mods_ids] with [difficulties], [mods_details] and [maps_ids]
    included; [difficulties = None] is the property left out. *)
Module rawMod.
Record t : Type := mk {
  id : Z;
  mods_details : list rawModDetails.t;
  maps_ids : list rawMap;
  difficulties : option (list difficulties.t)
}.
End rawMod.

(** [None] is a property that is [undefined]. *)
Module formattedMod.
Record t : Type := mk {
  id : Z;
  revision : Z;
  type : mods_details_type;
  name : string;
  publisherID : Z;
  publisherGamebananaID : option Z;
  contentWarning : bool;
  notes : option string;
  shortDescription : string;
  longDescription : option string;
  gamebananaModID : option Z;
  maps : list (option formattedMap);
  difficulties : option (list stringOrArray)
}.
End formattedMod.

(** [formatMaps] has an empty body: it returns [undefined]. *)
Definition formatMaps (rawMap : rawMap) : errorWithMessage + option formattedMap :=
  inr None.

(** [rawMaps.map((rawMap) => { ...; if (isErrorWithMessage(formattedMap)) throw formattedMap; ... })] *)
Fixpoint formatMapsLoop (rawMaps : list rawMap) : M (list (option formattedMap)) :=
  match rawMaps with
  | [] => ret []
  | rawMap :: rest =>
      match formatMaps rawMap with
      | inl (toErrorWithMessage error) => throw (ThrowErrorWithMessage error)
      | inr formattedMap =>
          formattedMaps <- formatMapsLoop rest ;;
          ret (formattedMap :: formattedMaps)
      end
  end.

Definition modDetailsCountMessage (id : Z) : string :=
  ("more than 1 mod_details for mod " ++ numberToString id ++ " passed to formatMod")%string.

Definition formatMod (rawMod : rawMod.t) : errorWithMessage + formattedMod.t :=
  tryCatch
    (match rawMod.mods_details rawMod with
     | [details] =>
         formattedMaps <- formatMapsLoop (rawMod.maps_ids rawMod) ;;
         formattedArray <-
           match rawMod.difficulties rawMod with
           | Some difficulties =>
               formattedArray <- getSortedDifficultyNames difficulties (rawMod.id rawMod) ;;
               ret (Some formattedArray)
           | None => ret None
           end ;;
         ret (formattedMod.mk (rawMod.id rawMod)
                (rawModDetails.revision details) (rawModDetails.type details)
                (rawModDetails.name details) (rawModDetails.publisherID details)
                (rawModDetails.publishers_gamebananaID details)
                (rawModDetails.contentWarning details) (rawModDetails.notes details)
                (rawModDetails.shortDescription details)
                (rawModDetails.longDescription details)
                (rawModDetails.gamebananaModID details)
                formattedMaps formattedArray)
     | _ => throw (ThrowString (modDetailsCountMessage (rawMod.id rawMod)))
     end).

(** [rawMods.map((rawMod) => { const formattedMod = formatMod(rawMod); if (isErrorWithMessage(formattedMod)) throw formattedMod; return formattedMod; })] *)
Fixpoint formatMods (rawMods : list rawMod.t) : M (list formattedMod.t) :=
  match rawMods with
  | [] => ret []
  | rawMod :: rest =>
      match formatMod rawMod with
      | inl (toErrorWithMessage error) => throw (ThrowErrorWithMessage error)
      | inr formattedMod =>
          formattedMods <- formatMods rest ;;
          ret (formattedMod :: formattedMods)
      end
  end.

(** What a route handler does with the request: it answers, or it hands an
    error to [next]. *)
Inductive handled (A : Type) : Type :=
| Json (body : A)
| Next (error : thrown).

Arguments Json {A} body.
Arguments Next {A} error.

(** The body, after their query, of the handlers that answer with a list of
    mods ([GET /], [/search], [/type], [/publisher/gamebanana/:gbUserID],
    [/publisher/:publisherID], [/user/:userID/publisher],
    [/user/:userID/submitter]):
    [try { ...; res.json(formattedMods); } catch (error) { next(error); }] *)
Definition respondWithMods (rawMods : list rawMod.t) : handled (list formattedMod.t) :=
  match formatMods rawMods with
  | inr formattedMods => Json formattedMods
  | inl error => Next error
  end.

(** Sample mods: one with the rows of the worked example, one whose parent
    orders have a gap. *)
Definition sampleRawDetails : rawModDetails.t :=
  rawModDetails.mk 1 Normal "Spring Collab" 4 (Some 1698143) false None "A collab" None
    (Some 150813).

Definition sampleRawMod : rawMod.t :=
  rawMod.mk 7 [sampleRawDetails] [mkRawMap 1; mkRawMap 2] (Some (exampleRows 11 12 13 14)).

Definition sampleCorruptMod : rawMod.t :=
  rawMod.mk 8 [sampleRawDetails] [] (Some gapRows).

(** ** getPublisherConnectionObject *)

(** A row of the [publishers] table. *)
Module publishers.
Record t : Type := mk {
  id : Z;
  gamebananaID : option Z;
  name : string;
  userID : option Z
}.
End publishers.

(** What the Prisma reads of [getPublisherConnectionObject] resolve to: the
    publishers of the user with an id ([None] when there is no such user),
    the publisher with a GameBanana id, the publisher with an id, and the
    publishers with a name. *)
Record publisherReads : Type := mkPublisherReads {
  users_findUnique_publishers : Z -> option (list publishers.t);
  publishers_findUnique_gamebananaID : Z -> option publishers.t;
  publishers_findUnique_id : Z -> option publishers.t;
  publishers_findMany_name : string -> list publishers.t
}.

(** [{}], [{ connect: { id } }] and [{ create: { name, gamebananaID } }]; the
    [gamebananaID] of a publisher to create is a number ([None] is [NaN]). *)
Inductive publisherConnection (double : Type) : Type :=
| NoConnection
| ConnectPublisher (id : Z)
| CreatePublisher (name : string) (gamebananaID : option double).

Arguments NoConnection {double}.
Arguments ConnectPublisher {double} id.
Arguments CreatePublisher {double} name gamebananaID.

Definition severalPublishersOfUserMessage : string :=
  ("Specified user has more than 1 associated publisher. Please specify publisherID instead."
   ++ String (Ascii.ascii_of_nat 10)
        "                Publisher IDs associated with the specified user are: ")%string.

Definition severalPublishersOfNameMessage : string :=
  ("More than one publisher has the specified name. Please specify publisherID instead."
   ++ String (Ascii.ascii_of_nat 10)
        "                Publisher IDs with the specified name are: ")%string.

Section PublisherConnection.

(** The numbers other than [NaN], the number of an integer, and [a === b] on
    them. *)
Variable double : Type.
Variable ofZ : Z -> double.
Variable strictEqualDouble : double -> double -> bool.

Variable axios : string -> M (axiosResponse double).
Variable Number : option (json double) -> M (option double).
Variable StringOf : option (json double) -> M string.

Variable reads : publisherReads.

(** [gamebananaID === -1] for a number that may be [NaN]. *)
Definition isMinusOne (gamebananaID : option double) : bool :=
  match gamebananaID with
  | Some d => strictEqualDouble d (ofZ (-1))
  | None => false
  end.

(** [publisherIDArray] is never pushed to: in both messages [${publisherIDArray}]
    prints the empty string. The function returns the connection object, or
    [undefined] ([None]) after it sent an answer, beside the response as it
    left it. *)
Definition getPublisherConnectionObject (res : Response)
    (userID publisherGamebananaID publisherID : option Z) (publisherName : option string)
  : errorWithMessage + (option (publisherConnection double) * Response) :=
  tryCatch
    (match truthyNumber userID with
     | Some userID =>
         match users_findUnique_publishers reads userID with
         | None => ret (None, sendError 404 "userID not found" res)
         | Some userPublishers =>
             if (length userPublishers <? 1)%nat
             then ret (None, sendError 400 "Specified user has no associated publishers." res)
             else if (1 <? length userPublishers)%nat
             then ret (None, sendError 400 severalPublishersOfUserMessage res)
             else
               match userPublishers with
               | publisher :: _ => ret (Some (ConnectPublisher (publishers.id publisher)), res)
               | [] => throw ThrowTypeError
               end
         end
     | None =>
         match truthyNumber publisherGamebananaID with
         | Some publisherGamebananaID =>
             match publishers_findUnique_gamebananaID reads publisherGamebananaID with
             | Some _ => ret (Some (ConnectPublisher publisherGamebananaID), res)
             | None =>
                 match getGamebananaUsernameById double axios StringOf publisherGamebananaID with
                 | inl (toErrorWithMessage error) => throw (ThrowErrorWithMessage error)
                 | inr nameFromGamebanana =>
                     if String.eqb nameFromGamebanana "false"
                     then ret (None,
                               sendError 404
                                 "Specified Member ID does not exist on GameBanana." res)
                     else ret (Some (CreatePublisher nameFromGamebanana
                                       (Some (ofZ publisherGamebananaID))),
                               res)
                 end
             end
         | None =>
             match truthyNumber publisherID with
             | Some publisherID =>
                 match publishers_findUnique_id reads publisherID with
                 | None => ret (None, sendError 404 "publisherID not found." res)
                 | Some _ => ret (Some (ConnectPublisher publisherID), res)
                 end
             | None =>
                 match truthyString publisherName with
                 | Some publisherName =>
                     let publishersFromName := publishers_findMany_name reads publisherName in
                     if (1 <? length publishersFromName)%nat
                     then ret (None, sendError 400 severalPublishersOfNameMessage res)
                     else
                       match publishersFromName with
                       | [publisher] =>
                           ret (Some (ConnectPublisher (publishers.id publisher)), res)
                       | _ =>
                           match
                             getGamebananaIdByUsername double (ofZ (-1)) axios Number
                               publisherName
                           with
                           | inl (toErrorWithMessage error) =>
                               throw (ThrowErrorWithMessage error)
                           | inr gamebananaID =>
                               if isMinusOne gamebananaID
                               then ret (None,
                                         sendError 404
                                           "Specified username does not exist on GameBanana."
                                           res)
                               else ret (Some (CreatePublisher publisherName gamebananaID),
                                         res)
                           end
                       end
                 | None => ret (Some NoConnection, res)
                 end
             end
         end
     end).

End PublisherConnection.

(** The tables of a site with one publisher, of user 5. *)
Definition samplePublisherReads : publisherReads :=
  mkPublisherReads
    (fun userID => if userID =? 5 then Some [publishers.mk 4 (Some 1698143) "steve" (Some 5)]
                   else None)
    (fun gamebananaID => None)
    (fun id => if id =? 4 then Some (publishers.mk 4 (Some 1698143) "steve" (Some 5)) else None)
    (fun name => []).

(** * Properties *)

(** ** The parser *)

Lemma childDifficultyLoop_eq (rest : list string) :
  forall (index : Z) (children : list createChildDifficultyForMod.t)
         (names : list difficultyNamesArrayElement),
    childDifficultyLoop rest index children names =
    (children ++ childRecords rest index,
     names ++ map (fun n => mkName (Some n)) rest).
Proof.
  induction rest as [|n rest IH]; intros index children names; simpl.
  - now rewrite !app_nil_r.
  - rewrite IH, <- !app_assoc. reflexivity.
Qed.

Lemma parentDifficultyLoop_eq (rest : list stringOrArray) :
  forall (index : Z) (st : difficultyArrays),
    parentDifficultyLoop rest index st =
    ret (mkArrays
           (difficultyNamesArray st ++ flat_map flatNames rest)
           (difficultiesDataArray st ++ parentRecords rest index)
           (modHasSubDifficultiesBool st || existsb isArray rest)).
Proof.
  induction rest as [|element rest IH]; intros index st.
  - simpl. rewrite !app_nil_r, orb_false_r. now destruct st.
  - destruct element as [s|a]; simpl.
    + rewrite IH. simpl. now rewrite <- !app_assoc.
    + rewrite childDifficultyLoop_eq, IH. simpl.
      rewrite <- !app_assoc, orb_true_r. reflexivity.
Qed.

Lemma getDifficultyArrays_eq (difficultyNames : list stringOrArray) :
  getDifficultyArrays difficultyNames =
  inr (mkArrays (flat_map flatNames difficultyNames)
         (parentRecords difficultyNames 0) (existsb isArray difficultyNames)).
Proof.
  unfold getDifficultyArrays. now rewrite parentDifficultyLoop_eq.
Qed.

Lemma parentRecords_length (rest : list stringOrArray) :
  forall index, length (parentRecords rest index) = length rest.
Proof.
  induction rest as [|e rest IH]; intros index; simpl; [reflexivity|].
  now rewrite IH.
Qed.

Lemma parentRecords_nth (rest : list stringOrArray) :
  forall (index : Z) (i : nat) (element : stringOrArray),
    nth_error rest i = Some element ->
    nth_error (parentRecords rest index) i =
    Some (parentRecord (index + Z.of_nat i) element).
Proof.
  induction rest as [|e rest IH]; intros index i element H.
  - destruct i; discriminate.
  - destruct i as [|i]; simpl in *.
    + injection H as ->. now rewrite Z.add_0_r.
    + rewrite (IH _ _ _ H). do 2 f_equal. lia.
Qed.

Lemma childRecords_length (rest : list string) :
  forall index, length (childRecords rest index) = length rest.
Proof.
  induction rest as [|n rest IH]; intros index; simpl; [reflexivity|].
  now rewrite IH.
Qed.

Lemma childRecords_nth (rest : list string) :
  forall (index : Z) (j : nat) (child : createChildDifficultyForMod.t),
    nth_error (childRecords rest index) j = Some child ->
    createChildDifficultyForMod.order child = index + Z.of_nat j /\
    nth_error rest j = Some (createChildDifficultyForMod.name child).
Proof.
  induction rest as [|n rest IH]; intros index j child H.
  - destruct j; discriminate.
  - destruct j as [|j]; simpl in *.
    + injection H as <-. simpl. split; [lia | reflexivity].
    + destruct (IH _ _ _ H) as [Ho Hn]. split; [lia | exact Hn].
Qed.

(** C6. Order assignment: the creation record at position [i] of the nested
    list comes from the element at position [i] of the submission and has
    order [i + 1]; a bare name gives a record without children, and an array
    gives a record named by its element 0 whose child at position [j] is
    element [j + 1] of the array with order [j + 1]. *)
Theorem getDifficultyArrays_order_assignment
    (difficultyNames : list stringOrArray) (arrays : difficultyArrays)
    (i : nat) (element : stringOrArray) :
  getDifficultyArrays difficultyNames = inr arrays ->
  nth_error difficultyNames i = Some element ->
  exists parent,
    nth_error (difficultiesDataArray arrays) i = Some parent /\
    createParentDifficultyForMod.order parent = Z.of_nat i + 1 /\
    match element with
    | Str s =>
        createParentDifficultyForMod.name parent = Some s /\
        createParentDifficultyForMod.other_difficulties parent = None
    | Arr a =>
        createParentDifficultyForMod.name parent = nth_error a 0 /\
        exists create,
          createParentDifficultyForMod.other_difficulties parent = Some create /\
          length create = (length a - 1)%nat /\
          forall (j : nat) (child : createChildDifficultyForMod.t),
            nth_error create j = Some child ->
            createChildDifficultyForMod.order child = Z.of_nat j + 1 /\
            nth_error a (S j) = Some (createChildDifficultyForMod.name child)
    end.
Proof.
  rewrite getDifficultyArrays_eq. intros Harrays Hnth.
  injection Harrays as <-. simpl.
  exists (parentRecord (Z.of_nat i) element). split.
  - now rewrite (parentRecords_nth _ 0 _ _ Hnth).
  - destruct element as [s|a]; simpl.
    + repeat split.
    + split; [reflexivity|]. split; [now destruct a|].
      exists (childRecords (tl a) 1). split; [reflexivity|]. split.
      * rewrite childRecords_length. destruct a; simpl; lia.
      * intros j child Hchild. apply childRecords_nth in Hchild.
        destruct Hchild as [Ho Hn]. split; [lia|].
        destruct a; [destruct j; discriminate | exact Hn].
Qed.

Lemma getDifficultyArrays_order_assignment_witness :
  exists parent,
    nth_error (parentRecords [Str "Easy"; Arr ["Medium"; "Medium+"]; Str "Hard"] 0) 1
    = Some parent /\
    createParentDifficultyForMod.order parent = 2 /\
    createParentDifficultyForMod.name parent = Some "Medium" /\
    exists create,
      createParentDifficultyForMod.other_difficulties parent = Some create /\
      length create = 1%nat /\
      forall (j : nat) (child : createChildDifficultyForMod.t),
        nth_error create j = Some child ->
        createChildDifficultyForMod.order child = Z.of_nat j + 1 /\
        nth_error ["Medium"; "Medium+"] (S j) = Some (createChildDifficultyForMod.name child).
Proof.
  exact (getDifficultyArrays_order_assignment
           [Str "Easy"; Arr ["Medium"; "Medium+"]; Str "Hard"]
           (mkArrays
              (flat_map flatNames [Str "Easy"; Arr ["Medium"; "Medium+"]; Str "Hard"])
              (parentRecords [Str "Easy"; Arr ["Medium"; "Medium+"]; Str "Hard"] 0)
              true)
           1%nat (Arr ["Medium"; "Medium+"]) eq_refl eq_refl).
Defined.

(** C8. Parser totality: on every sequence of strings and arrays of strings,
    malformed ones included, [getDifficultyArrays] returns its triple and not
    an error: one creation record per element, in the same order, the flat
    names of the elements, and the flag that says whether an element is an
    array. Nothing is validated: an empty inner array gives a record with an
    undefined name, blank and duplicate names are passed on. *)
Theorem getDifficultyArrays_total (difficultyNames : list stringOrArray) :
  exists arrays,
    getDifficultyArrays difficultyNames = inr arrays /\
    length (difficultiesDataArray arrays) = length difficultyNames /\
    difficultiesDataArray arrays = parentRecords difficultyNames 0 /\
    difficultyNamesArray arrays = flat_map flatNames difficultyNames /\
    modHasSubDifficultiesBool arrays = existsb isArray difficultyNames /\
    getDifficultyArrays [Arr []; Str ""; Str "Hard"; Str "Hard"] =
    inr (mkArrays
           [mkName None; mkName (Some ""); mkName (Some "Hard"); mkName (Some "Hard")]
           [createParentDifficultyForMod.mk None 1 (Some []);
            createParentDifficultyForMod.mk (Some "") 2 None;
            createParentDifficultyForMod.mk (Some "Hard") 3 None;
            createParentDifficultyForMod.mk (Some "Hard") 4 None]
           true).
Proof.
  eexists. split; [apply getDifficultyArrays_eq|]. simpl.
  rewrite parentRecords_length. repeat split.
Qed.

(** ** The worked example *)

(** C3, as stated, fails: the flat name list of the example is not
    ["Easy"; "Medium"; "Medium+"; "Hard"]. The parser pushes the children of
    an array before it pushes the parent name. *)
Lemma example_flat_names_not_parent_first :
  ~ (exists arrays,
        getDifficultyArrays exampleSubmission = inr arrays /\
        map elementName (difficultyNamesArray arrays) =
        [Some "Easy"; Some "Medium"; Some "Medium+"; Some "Hard"] /\
        modHasSubDifficultiesBool arrays = true).
Proof.
  intros (arrays & Harrays & Hnames & _).
  rewrite getDifficultyArrays_eq in Harrays. injection Harrays as <-.
  discriminate Hnames.
Qed.

(** C3, amended. On the example the parser returns the flat names
    ["Easy"; "Medium+"; "Medium"; "Hard"] (children before their parent), the
    three parent records with orders 1, 2, 3 ("Medium+" nested under "Medium"
    with order 1) and the flag [true]; and the stored rows reconstruct to the
    submission, whatever their ids, as long as no other parent has the id of
    "Medium". *)
Theorem example_parse_and_reconstruct (easyID mediumID mediumPlusID hardID modID : Z) :
  mediumID <> easyID ->
  mediumID <> hardID ->
  getDifficultyArrays exampleSubmission =
  inr (mkArrays
         [mkName (Some "Easy"); mkName (Some "Medium+"); mkName (Some "Medium");
          mkName (Some "Hard")]
         [createParentDifficultyForMod.mk (Some "Easy") 1 None;
          createParentDifficultyForMod.mk (Some "Medium") 2
            (Some [createChildDifficultyForMod.mk "Medium+" 1]);
          createParentDifficultyForMod.mk (Some "Hard") 3 None]
         true) /\
  getSortedDifficultyNames (exampleRows easyID mediumID mediumPlusID hardID) modID =
  inr exampleSubmission.
Proof.
  intros Heasy Hhard. split; [reflexivity|].
  unfold getSortedDifficultyNames, exampleRows. simpl.
  unfold strictEqual.
  apply Z.eqb_neq in Heasy, Hhard.
  rewrite Heasy, Z.eqb_refl, Hhard. reflexivity.
Qed.

Lemma example_parse_and_reconstruct_witness :
  getDifficultyArrays exampleSubmission =
  inr (mkArrays
         [mkName (Some "Easy"); mkName (Some "Medium+"); mkName (Some "Medium");
          mkName (Some "Hard")]
         [createParentDifficultyForMod.mk (Some "Easy") 1 None;
          createParentDifficultyForMod.mk (Some "Medium") 2
            (Some [createChildDifficultyForMod.mk "Medium+" 1]);
          createParentDifficultyForMod.mk (Some "Hard") 3 None]
         true) /\
  getSortedDifficultyNames (exampleRows 11 12 13 14) 7 = inr exampleSubmission.
Proof.
  apply (example_parse_and_reconstruct 11 12 13 14 7); lia.
Defined.

(** ** Gaps in the child orders *)

(** C2 fails on the code. Two children of "Medium" with orders 1 and 3: slot 2
    of the group has no child, and the reconstruction returns
    ["Medium"; "Medium+"] instead of raising. A slot without a child pushes
    nothing, so the check for an empty child name has nothing to find. *)
Theorem child_order_gap_is_skipped (modID : Z) :
  getSortedDifficultyNames
    [difficulties.mk 1 "Medium" 1 None;
     difficulties.mk 2 "Medium+" 1 (Some 1);
     difficulties.mk 3 "Medium++" 3 (Some 1)] modID =
  inr [Arr ["Medium"; "Medium+"]].
Proof. reflexivity. Qed.

(** ** The map-difficulty validator *)

(** C4 fails on the code. The tree of ["Easy"; ["Medium"; "Medium+"]; "Hard"]
    has sub-difficulties and "Impossible" is not a child of "Medium", yet the
    call returns without throwing, the creation object untouched. The loops
    leave [validModDifficultyBool] at [false], and nothing reads it. *)
Theorem absent_pair_is_not_rejected :
  handleNonNormalModsBody sampleObject Collab None (Some (Arr ["Medium"; "Impossible"]))
    sampleCustomDifficulties [] true true = inr (sampleObject, false) /\
  handleNonNormalMods sampleObject Collab None (Some (Arr ["Medium"; "Impossible"]))
    sampleCustomDifficulties [] true true = inr sampleObject.
Proof. split; reflexivity. Qed.


Lemma assignCreate0_nonempty (update : mapDetailsCreationObject.t -> mapDetailsCreationObject.t)
    (object : mapIdCreationObject) :
  map_details_create object <> [] ->
  exists object',
    assignCreate0 update object = inr object' /\ map_details_create object' <> [].
Proof.
  unfold assignCreate0. destruct (map_details_create object) as [|details rest].
  - intros H. now contradiction H.
  - intros _. eexists. split; [reflexivity|]. discriminate.
Qed.



(** ** The identity lookups *)

(** What [data[0]] throws: it cannot be read on [undefined] and [null], and
    on nothing else. *)
Lemma element0_inl (double : Type) (body : option (json double)) (error : thrown) :
  element0 body = inl error <->
  (body = None \/ body = Some JNull) /\ error = ThrowTypeError.
Proof.
  destruct body as [[| | | | |]|]; cbn [element0 throw ret]; split;
    try discriminate;
    try (intros H; injection H as <-; auto);
    try (intros [[H | H] _]; discriminate);
    intros [_ ->]; reflexivity.
Qed.

(** C9, as stated, fails: a first element that is no number can convert to
    one, and the id lookup then returns that number and not the sentinel
    ([null] and the empty string give 0); and a response with status 200
    and a first element whose conversion throws makes either lookup return
    an error value, neither a name nor a number. *)
Lemma gamebanana_lookups_without_sentinel :
  getGamebananaIdByUsername Z (-1) (axiosAnswering JNull) jsNumber "nobody"
  = inr (Some 0) /\
  getGamebananaIdByUsername Z (-1) (axiosAnswering (JString "")) jsNumber "nobody"
  = inr (Some 0) /\
  getGamebananaIdByUsername Z (-1) (axiosAnswering toStringObject) jsNumber "nobody"
  = inl (toErrorWithMessage ThrowTypeError) /\
  getGamebananaUsernameById Z (axiosAnswering toStringObject) jsString 1698143
  = inl (toErrorWithMessage ThrowTypeError).
Proof. repeat split. Qed.

(** C9. Identity-lookup sentinels. Let the request complete with status 200
    and a body whose element 0 can be read. The name-by-id lookup returns
    [String(data[0])] when that conversion returns (the display name, or
    whatever the service puts there for an unknown id). The id-by-username
    lookup returns [Number(data[0])] when that is a number, and [-1] when it
    is [NaN]. A conversion that throws is returned as an error value holding
    what was thrown. Nothing is raised, and the result of the id lookup is
    never [NaN]. *)
Theorem gamebanana_lookups_return_sentinels
    (double : Type) (minusOne : double)
    (axios : string -> M (axiosResponse double))
    (Number : option (json double) -> M (option double))
    (StringOf : option (json double) -> M string)
    (gamebananaID : Z) (gamebananaUsername : string)
    (body : option (json double)) (first : option (json double)) :
  element0 body = inr first ->
  (axios (identifyByIdUrl gamebananaID) = inr (mkResponse 200 body) ->
   (forall name,
       StringOf first = inr name ->
       getGamebananaUsernameById double axios StringOf gamebananaID = inr name) /\
   (forall error,
       StringOf first = inl error ->
       getGamebananaUsernameById double axios StringOf gamebananaID
       = inl (toErrorWithMessage error))) /\
  (axios (identifyUrl gamebananaUsername) = inr (mkResponse 200 body) ->
   (forall found,
       Number first = inr (Some found) ->
       getGamebananaIdByUsername double minusOne axios Number gamebananaUsername
       = inr (Some found)) /\
   (Number first = inr None ->
    getGamebananaIdByUsername double minusOne axios Number gamebananaUsername
    = inr (Some minusOne)) /\
   (forall error,
       Number first = inl error ->
       getGamebananaIdByUsername double minusOne axios Number gamebananaUsername
       = inl (toErrorWithMessage error))) /\
  getGamebananaIdByUsername double minusOne axios Number gamebananaUsername <> inr None.
Proof.
  intros Hfirst. split; [|split].
  - intros Hresponse. unfold getGamebananaUsernameById. rewrite Hresponse.
    cbn [bind status data Z.eqb Pos.eqb negb]. rewrite Hfirst. cbn [bind].
    split; intros result Hconversion; rewrite Hconversion; reflexivity.
  - intros Hresponse. unfold getGamebananaIdByUsername. rewrite Hresponse.
    cbn [bind status data Z.eqb Pos.eqb negb]. rewrite Hfirst. cbn [bind].
    split; [|split].
    + intros found Hconversion. rewrite Hconversion. reflexivity.
    + intros Hconversion. rewrite Hconversion. reflexivity.
    + intros error Hconversion. rewrite Hconversion. reflexivity.
  - unfold getGamebananaIdByUsername, tryCatch, bind, throw, ret.
    destruct (axios (identifyUrl gamebananaUsername)) as [reason|response];
      [discriminate|].
    destruct (negb (status response =? 200)); [discriminate|].
    destruct (element0 (data response)) as [reason|element]; [discriminate|].
    destruct (Number element) as [reason|[found|]]; discriminate.
Qed.

Lemma gamebanana_lookups_return_sentinels_witness :
  getGamebananaUsernameById Z sampleAxios jsString 1698143 = inr "1698143" /\
  getGamebananaIdByUsername Z (-1) sampleAxios jsNumber "steve" = inr (Some 1698143) /\
  getGamebananaIdByUsername Z (-1) (axiosAnswering (JString "unknown")) jsNumber "nobody"
  = inr (Some (-1)) /\
  getGamebananaIdByUsername Z (-1) (axiosAnswering toStringObject) jsNumber "nobody"
  = inl (toErrorWithMessage ThrowTypeError).
Proof.
  split; [|split; [|split]].
  - apply (proj1 (gamebanana_lookups_return_sentinels Z (-1) sampleAxios jsNumber jsString
                    1698143 "steve" (Some (JArray [JNumber 1698143]))
                    (Some (JNumber 1698143)) eq_refl)); reflexivity.
  - apply (proj1 (proj2 (gamebanana_lookups_return_sentinels Z (-1) sampleAxios jsNumber
                           jsString 1698143 "steve" (Some (JArray [JNumber 1698143]))
                           (Some (JNumber 1698143)) eq_refl))); reflexivity.
  - apply (proj1 (proj2 (gamebanana_lookups_return_sentinels Z (-1)
                           (axiosAnswering (JString "unknown")) jsNumber jsString 1698143
                           "nobody" (Some (JArray [JString "unknown"]))
                           (Some (JString "unknown")) eq_refl))); reflexivity.
  - apply (proj1 (proj2 (gamebanana_lookups_return_sentinels Z (-1)
                           (axiosAnswering toStringObject) jsNumber jsString 1698143
                           "nobody" (Some (JArray [toStringObject]))
                           (Some toStringObject) eq_refl))); reflexivity.
Defined.

(** ** Approval of the maps of privileged submitters *)

Lemma bind_inr {A B : Type} (m : M A) (k : A -> M B) (b : B) :
  bind m k = inr b -> exists a, m = inr a /\ k a = inr b.
Proof.
  destruct m as [t|a]; simpl; [discriminate|]. intros H. now exists a.
Qed.

Lemma permLoop_true_iff (permArray : list string) :
  permLoop permArray = true <->
  exists perm,
    In perm permArray /\
    (perm = "Super_Admin" \/ perm = "Admin" \/ perm = "Map_Moderator").
Proof.
  induction permArray as [|perm rest IH]; simpl.
  - split; [discriminate | intros (p & [] & _)].
  - destruct (String.eqb perm "Super_Admin") eqn:Hsuper;
      [apply String.eqb_eq in Hsuper | apply String.eqb_neq in Hsuper];
      simpl.
    { split; [|reflexivity]. intros _. exists perm. auto. }
    destruct (String.eqb perm "Admin") eqn:Hadmin;
      [apply String.eqb_eq in Hadmin | apply String.eqb_neq in Hadmin];
      simpl.
    { split; [|reflexivity]. intros _. exists perm. auto. }
    destruct (String.eqb perm "Map_Moderator") eqn:Hmod;
      [apply String.eqb_eq in Hmod | apply String.eqb_neq in Hmod];
      simpl.
    { split; [|reflexivity]. intros _. exists perm. auto. }
    rewrite IH. split.
    + intros (p & Hin & Hp). exists p. auto.
    + intros (p & [<- | Hin] & Hp).
      * destruct Hp as [Hp | [Hp | Hp]]; contradiction.
      * exists p. auto.
Qed.

Lemma privilegedUser_eq (user : submitterUser.t) :
  privilegedUser user = inr (permLoop (submitterUser.permissionsArray user)).
Proof.
  unfold privilegedUser. now destruct (submitterUser.permissionsArray user).
Qed.

(** With the placeholder that the module binds to [submittingUser], no map is
    approved on creation. *)
Lemma placeholder_not_privileged :
  privilegedUser submittingUserPlaceholder = inr false.
Proof. reflexivity. Qed.

Lemma assignCreate0_keeps_approval
    (update : mapDetailsCreationObject.t -> mapDetailsCreationObject.t)
    (object object' : mapIdCreationObject) (approval : option Z * option Z) :
  (forall details,
      mapDetailsCreationObject.timeApproved (update details) =
      mapDetailsCreationObject.timeApproved details /\
      mapDetailsCreationObject.users_maps_details_approvedByTousers (update details) =
      mapDetailsCreationObject.users_maps_details_approvedByTousers details) ->
  approvalOf object = Some approval ->
  assignCreate0 update object = inr object' ->
  approvalOf object' = Some approval.
Proof.
  intros Hkeeps. unfold approvalOf, assignCreate0.
  destruct (map_details_create object) as [|details [|second rest]]; try discriminate.
  intros Happroval Hassign. injection Hassign as <-. simpl.
  destruct (Hkeeps details) as [-> ->]. exact Happroval.
Qed.

Lemma handleNonNormalMods_keeps_approval
    (object object' : mapIdCreationObject) (approval : option Z * option Z)
    (modType : mods_details_type) (overallRank : option Z)
    (modDifficulty : option stringOrArray)
    (customDifficultiesArray : list createParentDifficultyForMod.t)
    (defaultDifficultyObjectsArray : list defaultDifficultyForMod.t)
    (modUsesCustomDifficultiesBool modHasSubDifficultiesBool : bool) :
  approvalOf object = Some approval ->
  handleNonNormalMods object modType overallRank modDifficulty customDifficultiesArray
    defaultDifficultyObjectsArray modUsesCustomDifficultiesBool modHasSubDifficultiesBool
  = inr object' ->
  approvalOf object' = Some approval.
Proof.
  intros Happroval Hcall. unfold handleNonNormalMods in Hcall.
  apply bind_inr in Hcall. destruct Hcall as ([object1 valid] & Hbody & Hret).
  injection Hret as <-. unfold handleNonNormalModsBody in Hbody.
  apply bind_inr in Hbody. destruct Hbody as (object0 & Hrank & Hrest).
  assert (Happroval0 : approvalOf object0 = Some approval).
  { destruct (isContest modType).
    - eapply assignCreate0_keeps_approval; [|exact Happroval|exact Hrank].
      intros details. split; reflexivity.
    - injection Hrank as <-. exact Happroval. }
  destruct (truthyModDifficulty modDifficulty) as [claimed|]; [|discriminate].
  destruct modUsesCustomDifficultiesBool.
  - destruct customDifficultiesArray as [|difficulty rest]; [discriminate|].
    destruct modHasSubDifficultiesBool.
    + destruct claimed as [s|a]; [discriminate|].
      injection Hrest as <- _. exact Happroval0.
    + apply bind_inr in Hrest. destruct Hrest as (valid' & _ & Hret).
      injection Hret as <- _. exact Happroval0.
  - destruct defaultDifficultyObjectsArray as [|difficulty rest]; [discriminate|].
    destruct claimed as [s|a]; [discriminate|].
    destruct (defaultDifficultyLoop (difficulty :: rest) a) as [childID|].
    + apply bind_inr in Hrest. destruct Hrest as (object2 & Hassign & Hret).
      injection Hret as <- _.
      eapply assignCreate0_keeps_approval; [|exact Happroval0|exact Hassign].
      intros details. split; reflexivity.
    + injection Hrest as <- _. exact Happroval0.
Qed.

(** C10. Auto-approval of privileged submitters. Whenever
    [getMapIdCreationObject] builds a creation object, its [map_details]
    record has [timeApproved] set to the submission time and an [approvedBy]
    connection to the submitting user exactly when the user's
    [permissionsArray] holds "Super_Admin", "Admin" or "Map_Moderator";
    otherwise neither field is set. *)
Theorem getMapIdCreationObject_approval
    (submittingUser : submitterUser.t) (prisma : prismaReads)
    (mapObject : jsonCreateMapWithMod.t) (currentTime : Z) (modType : mods_details_type)
    (lengthObjectArray : list map_lengths.t)
    (customDifficultiesArray : list createParentDifficultyForMod.t)
    (defaultDifficultyObjectsArray : list defaultDifficultyForMod.t)
    (modUsesCustomDifficultiesBool modHasSubDifficultiesBool : bool)
    (object : mapIdCreationObject) :
  getMapIdCreationObject submittingUser prisma mapObject currentTime modType
    lengthObjectArray customDifficultiesArray defaultDifficultyObjectsArray
    modUsesCustomDifficultiesBool modHasSubDifficultiesBool = inr object ->
  exists details,
    map_details_create object = [details] /\
    (hasPrivilegedPermission submittingUser <->
     mapDetailsCreationObject.timeApproved details = Some currentTime /\
     mapDetailsCreationObject.users_maps_details_approvedByTousers details =
     Some (submitterUser.id submittingUser)) /\
    (~ hasPrivilegedPermission submittingUser ->
     mapDetailsCreationObject.timeApproved details = None /\
     mapDetailsCreationObject.users_maps_details_approvedByTousers details = None).
Proof.
  intros Hcall.
  assert (Happroval :
            approvalOf object =
            Some (if permLoop (submitterUser.permissionsArray submittingUser)
                  then (Some currentTime, Some (submitterUser.id submittingUser))
                  else (None, None))).
  { unfold getMapIdCreationObject in Hcall.
    apply bind_inr in Hcall. destruct Hcall as (canonicalDifficultyID & _ & Hcall).
    destruct (findLengthID lengthObjectArray (jsonCreateMapWithMod.length mapObject) =? 0);
      [discriminate|].
    rewrite privilegedUser_eq in Hcall.
    apply bind_inr in Hcall. destruct Hcall as (privileged & Hprivileged & Hcall).
    injection Hprivileged as <-.
    apply bind_inr in Hcall. destruct Hcall as (object1 & Hstep1 & Hcall).
    apply bind_inr in Hcall. destruct Hcall as (object2 & Hstep2 & Hcall).
    apply bind_inr in Hcall. destruct Hcall as (object3 & Hstep3 & Hcall).
    assert (H1 : approvalOf object1 =
                 Some (if permLoop (submitterUser.permissionsArray submittingUser)
                       then (Some currentTime, Some (submitterUser.id submittingUser))
                       else (None, None))).
    { destruct (permLoop (submitterUser.permissionsArray submittingUser));
        injection Hstep1 as <-; reflexivity. }
    assert (H2 : approvalOf object2 = approvalOf object1).
    { rewrite H1.
      destruct (truthyNumber (jsonCreateMapWithMod.mapperUserID mapObject)) as [mapper|].
      - destruct (users_findUnique prisma mapper); [|discriminate].
        eapply assignCreate0_keeps_approval; [|exact H1|exact Hstep2].
        intros details. split; reflexivity.
      - destruct (truthyString (jsonCreateMapWithMod.mapperNameString mapObject)).
        + eapply assignCreate0_keeps_approval; [|exact H1|exact Hstep2].
          intros details. split; reflexivity.
        + injection Hstep2 as <-. exact H1. }
    rewrite H1 in H2.
    assert (H3 : approvalOf object3 = approvalOf object2).
    { rewrite H2. destruct (isNormal modType).
      - eapply assignCreate0_keeps_approval; [|exact H2|exact Hstep3].
        intros details. split; reflexivity.
      - eapply handleNonNormalMods_keeps_approval; [exact H2|exact Hstep3]. }
    rewrite H2 in H3.
    destruct (jsonCreateMapWithMod.techAny mapObject), (jsonCreateMapWithMod.techFC mapObject);
      try (eapply assignCreate0_keeps_approval; [|exact H3|exact Hcall];
           intros details; split; reflexivity).
    injection Hcall as <-. exact H3. }
  unfold approvalOf in Happroval.
  destruct (map_details_create object) as [|details [|second rest]]; try discriminate.
  exists details. split; [reflexivity|].
  unfold hasPrivilegedPermission. rewrite <- permLoop_true_iff.
  destruct (permLoop (submitterUser.permissionsArray submittingUser));
    injection Happroval as Htime Huser; rewrite Htime, Huser; split.
  - split; [intros _; split; reflexivity | reflexivity].
  - intros Hnot. now contradiction Hnot.
  - split; [discriminate | intros [Habsurd _]; discriminate].
  - intros _. split; reflexivity.
Qed.

Lemma getMapIdCreationObject_approval_witness :
  exists details,
    map_details_create
      (mkMapId
         [mapDetailsCreationObject.mk "Summit" 2 2 None None "1.0.0" false 1700000000 8
            (Some 1700000000) (Some 8) None (Some "ellie") (Some 7) (Some "A")
            None None None]) = [details] /\
    (hasPrivilegedPermission sampleModerator <->
     mapDetailsCreationObject.timeApproved details = Some 1700000000 /\
     mapDetailsCreationObject.users_maps_details_approvedByTousers details =
     Some (submitterUser.id sampleModerator)) /\
    (~ hasPrivilegedPermission sampleModerator ->
     mapDetailsCreationObject.timeApproved details = None /\
     mapDetailsCreationObject.users_maps_details_approvedByTousers details = None).
Proof.
  apply (getMapIdCreationObject_approval sampleModerator samplePrisma sampleMap 1700000000
           Normal sampleLengths [] [] true true).
  reflexivity.
Defined.

(** ** The reconstruction, read off the rows *)

Lemma isChildOf_eq (parentID : Z) (difficulty : difficulties.t) :
  isChildOf parentID difficulty = true <->
  difficulties.parentDifficultyID difficulty = Some parentID.
Proof.
  unfold isChildOf, strictEqual.
  destruct (difficulties.parentDifficultyID difficulty) as [p|].
  - rewrite Z.eqb_eq. split; congruence.
  - split; discriminate.
Qed.

Lemma headIsChildOf_push (parentID : Z) (siblingArray : list difficulties.t)
    (difficulty : difficulties.t) :
  siblingArray <> [] ->
  headIsChildOf parentID (siblingArray ++ [difficulty]) = headIsChildOf parentID siblingArray.
Proof.
  destruct siblingArray; [intros H; now contradiction H | reflexivity].
Qed.

Lemma lookupGroup_app (subs : list (list difficulties.t)) (siblingArray : list difficulties.t)
    (parentID : Z) :
  lookupGroup (subs ++ [siblingArray]) parentID =
  match lookupGroup subs parentID with
  | Some found => Some found
  | None => if headIsChildOf parentID siblingArray then Some siblingArray else None
  end.
Proof.
  unfold lookupGroup. induction subs as [|g subs IH]; simpl.
  - reflexivity.
  - destruct (headIsChildOf parentID g); [reflexivity | exact IH].
Qed.

(** The inner loop of the grouping step finds the sibling array of the
    parent, if there is one, and pushes onto it; the other arrays are as
    before. *)
Lemma pushToSiblingArray_spec (subs : list (list difficulties.t))
    (difficulty : difficulties.t) (parentID : Z) :
  Forall (fun siblingArray => siblingArray <> []) subs ->
  exists subs' alreadyListed,
    pushToSiblingArray subs difficulty parentID = inr (subs', alreadyListed) /\
    Forall (fun siblingArray => siblingArray <> []) subs' /\
    alreadyListed =
      match lookupGroup subs parentID with Some _ => true | None => false end /\
    forall k,
      lookupGroup subs' k =
      if alreadyListed && (k =? parentID)
      then option_map (fun found => found ++ [difficulty]) (lookupGroup subs k)
      else lookupGroup subs k.
Proof.
  induction subs as [|siblingArray rest IH]; intros Hnonempty.
  - exists [], false. simpl. repeat split; auto.
  - inversion Hnonempty as [|? ? Hhead Hrest]; subst.
    destruct siblingArray as [|first others]; [now contradiction Hhead|].
    simpl. unfold lookupGroup. simpl. fold (isChildOf parentID first).
    destruct (isChildOf parentID first) eqn:Hmatch.
    + exists (((first :: others) ++ [difficulty]) :: rest), true.
      split; [reflexivity|]. split.
      { constructor; [discriminate | exact Hrest]. }
      split; [reflexivity|].
      intros k. simpl.
      apply isChildOf_eq in Hmatch.
      destruct (k =? parentID) eqn:Hk.
      * apply Z.eqb_eq in Hk. subst k.
        assert (H : isChildOf parentID first = true) by now apply isChildOf_eq.
        now rewrite H.
      * assert (H : isChildOf k first = false).
        { destruct (isChildOf k first) eqn:H; [|reflexivity].
          apply isChildOf_eq in H. rewrite Hmatch in H. injection H as <-.
          now rewrite Z.eqb_refl in Hk. }
        now rewrite H.
    + destruct (IH Hrest) as (rest' & alreadyListed & Hpush & Hnonempty' & Hlisted & Hlookup).
      rewrite Hpush. simpl.
      exists ((first :: others) :: rest'), alreadyListed.
      split; [reflexivity|]. split.
      { constructor; [discriminate | exact Hnonempty']. }
      split; [exact Hlisted|].
      intros k. simpl. unfold lookupGroup in Hlookup |- *. simpl.
      destruct (isChildOf k first) eqn:Hk.
      * destruct (k =? parentID) eqn:Hkp.
        { apply Z.eqb_eq in Hkp. subst k. congruence. }
        now rewrite andb_false_r.
      * apply Hlookup.
Qed.

Lemma childrenOf_app (parentID : Z) (rows rows' : list difficulties.t) :
  childrenOf parentID (rows ++ rows') = childrenOf parentID rows ++ childrenOf parentID rows'.
Proof. apply filter_app. Qed.

Lemma parentRows_app (rows rows' : list difficulties.t) :
  parentRows (rows ++ rows') = parentRows rows ++ parentRows rows'.
Proof. apply filter_app. Qed.

Lemma nonEmpty_push {A : Type} (l : list A) (x : A) : nonEmpty (l ++ [x]) = Some (l ++ [x]).
Proof. now destruct l. Qed.

(** The grouping step: the parents in row order, and sibling arrays that hold
    the children of each parent id. *)
Lemma groupDifficulties_spec (rest : list difficulties.t) :
  forall (seen parents : list difficulties.t) (subs : list (list difficulties.t)),
    groupsOf seen subs ->
    exists subs',
      groupDifficulties rest parents subs = inr (parents ++ parentRows rest, subs') /\
      groupsOf (seen ++ rest) subs'.
Proof.
  induction rest as [|difficulty rest IH]; intros seen parents subs Hgroups.
  - exists subs. simpl. now rewrite !app_nil_r.
  - simpl. unfold isParent.
    destruct (difficulties.parentDifficultyID difficulty) as [parentID|] eqn:Hparent.
    + destruct Hgroups as [Hnonempty Hlookup].
      destruct (pushToSiblingArray_spec subs difficulty parentID Hnonempty)
        as (subs1 & alreadyListed & Hpush & Hnonempty1 & Hlisted & Hlookup1).
      rewrite Hpush. simpl.
      destruct (IH (seen ++ [difficulty]) parents
                  (if alreadyListed then subs1 else subs1 ++ [[difficulty]]))
        as (subs' & Hloop & Hgroups').
      { assert (Hself : forall k, isChildOf k difficulty = (k =? parentID)).
        { intros k. unfold isChildOf. rewrite Hparent. simpl. apply Z.eqb_sym. }
        split.
        - destruct alreadyListed; [exact Hnonempty1|].
          apply Forall_app. split; [exact Hnonempty1|].
          constructor; [discriminate | constructor].
        - intros k. rewrite childrenOf_app. simpl. rewrite Hself.
          rewrite Hlookup in Hlisted.
          destruct alreadyListed.
          + rewrite Hlookup1, Hlookup. simpl.
            destruct (k =? parentID) eqn:Hk.
            * apply Z.eqb_eq in Hk. subst k.
              destruct (childrenOf parentID seen) as [|c cs]; [discriminate|].
              reflexivity.
            * now rewrite app_nil_r.
          + rewrite lookupGroup_app, Hlookup1, Hlookup. simpl. rewrite Hself.
            destruct (k =? parentID) eqn:Hk.
            * apply Z.eqb_eq in Hk. subst k.
              destruct (childrenOf parentID seen) as [|c cs]; [reflexivity|discriminate].
            * rewrite app_nil_r. now destruct (childrenOf k seen). }
      exists subs'. rewrite Hloop. split; [reflexivity|].
      now rewrite <- app_assoc in Hgroups'.
    + destruct (IH (seen ++ [difficulty]) (parents ++ [difficulty]) subs) as (subs' & Hloop & Hgroups').
      { destruct Hgroups as [Hnonempty Hlookup]. split; [exact Hnonempty|].
        intros k. rewrite childrenOf_app. simpl.
        assert (H : isChildOf k difficulty = false).
        { unfold isChildOf. now rewrite Hparent. }
        rewrite H, app_nil_r. apply Hlookup. }
      exists subs'. rewrite Hloop, <- !app_assoc. split; [reflexivity|].
      now rewrite <- app_assoc in Hgroups'.
Qed.

Lemma findChildren_spec (subs : list (list difficulties.t)) (parentId : number)
    (parentName : string) :
  Forall (fun siblingArray => siblingArray <> []) subs ->
  findChildren subs parentId parentName =
  inr match parentId with
      | NaN => None
      | Int k =>
          option_map
            (fun siblingArray =>
               siblingOrderLoop (length siblingArray) 1 siblingArray [parentName])
            (lookupGroup subs k)
      end.
Proof.
  induction subs as [|siblingArray rest IH]; intros Hnonempty.
  - now destruct parentId.
  - inversion Hnonempty as [|? ? Hhead Hrest]; subst.
    destruct siblingArray as [|first others]; [now contradiction Hhead|].
    simpl. destruct parentId as [|k].
    + assert (H : strictEqual (difficulties.parentDifficultyID first) NaN = false).
      { unfold strictEqual. now destruct (difficulties.parentDifficultyID first). }
      rewrite H. now apply IH.
    + unfold lookupGroup. simpl. fold (isChildOf k first).
      destruct (isChildOf k first); [reflexivity|]. now apply IH.
Qed.

Lemma parentOrderLoop_spec (rows : list difficulties.t) (subs : list (list difficulties.t)) :
  groupsOf rows subs ->
  forall (fuel : nat) (parentOrder : Z) (formattedArray : list stringOrArray),
    parentOrderLoop fuel parentOrder (parentRows rows) subs formattedArray =
    inr (formattedArray ++ map (formatEntry rows) (seqZ parentOrder fuel)).
Proof.
  intros [Hnonempty Hlookup].
  induction fuel as [|fuel IH]; intros parentOrder formattedArray;
    cbn [parentOrderLoop seqZ map].
  - unfold ret. now rewrite app_nil_r.
  - unfold formatEntry at 1.
    destruct (findParent (parentRows rows) parentOrder) as [parentId parentName].
    rewrite (findChildren_spec subs parentId parentName Hnonempty).
    cbn [bind]. rewrite IH. f_equal.
    destruct parentId as [|k].
    + now rewrite <- app_assoc.
    + rewrite Hlookup.
      destruct (childrenOf k rows); cbn [nonEmpty option_map]; now rewrite <- app_assoc.
Qed.

(** [getSortedDifficultyNames] formats one element per order from 1 to the
    number of parents and then checks the result. *)
Lemma getSortedDifficultyNames_eq (rows : list difficulties.t) (modID : Z) :
  getSortedDifficultyNames rows modID =
  (_ <- checkContinuous
          (map (formatEntry rows) (seqZ 1 (length (parentRows rows)))) modID ;;
   ret (map (formatEntry rows) (seqZ 1 (length (parentRows rows))))).
Proof.
  unfold getSortedDifficultyNames.
  destruct (groupDifficulties_spec rows [] [] []) as (subs & Hgroup & Hgroups).
  { split; [constructor | reflexivity]. }
  rewrite Hgroup. simpl in *.
  now rewrite (parentOrderLoop_spec rows subs Hgroups).
Qed.

(** ** Gaps in the parent orders *)

Lemma In_seqZ (n : nat) :
  forall start order, In order (seqZ start n) <-> start <= order < start + Z.of_nat n.
Proof.
  induction n as [|n IH]; intros start order; cbn [seqZ In].
  - lia.
  - rewrite IH. lia.
Qed.

Lemma findParent_missing (parents : list difficulties.t) (parentOrder : Z) :
  (forall difficulty, In difficulty parents -> difficulties.order difficulty <> parentOrder) ->
  findParent parents parentOrder = (NaN, "").
Proof.
  induction parents as [|difficulty rest IH]; intros Hmissing; simpl.
  - reflexivity.
  - destruct (difficulties.order difficulty =? parentOrder) eqn:Horder.
    + apply Z.eqb_eq in Horder. exfalso. apply (Hmissing difficulty); simpl; auto.
    + apply IH. intros d Hd. apply Hmissing. simpl. auto.
Qed.

Lemma checkChildren_cases (rest parentDifficulty : list string) (modID : Z) :
  checkChildren rest parentDifficulty modID = inr tt \/
  checkChildren rest parentDifficulty modID =
  inl (ThrowString (childOrdersMessage parentDifficulty modID)).
Proof.
  induction rest as [|child rest IH]; simpl.
  - now left.
  - destruct (String.eqb child ""); [now right | exact IH].
Qed.

(** The final check throws as soon as the formatted array holds the empty
    string that stands for a parent that was not found. *)
Lemma checkContinuous_blank (formattedArray : list stringOrArray) (modID : Z) :
  In (Str "") formattedArray ->
  exists message,
    checkContinuous formattedArray modID = inl (ThrowString message) /\
    (message = parentOrdersMessage modID \/
     exists parentDifficulty, message = childOrdersMessage parentDifficulty modID).
Proof.
  induction formattedArray as [|element rest IH]; intros Hin; [contradiction|].
  destruct element as [s|a]; simpl.
  - destruct (String.eqb s "") eqn:Hs.
    + eexists. split; [reflexivity | now left].
    + apply IH. destruct Hin as [Heq | Hin]; [|exact Hin].
      injection Heq as ->. discriminate.
  - destruct (checkChildren_cases a a modID) as [-> | ->]; simpl.
    + apply IH. destruct Hin as [Heq | Hin]; [discriminate | exact Hin].
    + eexists. split; [reflexivity|]. right. now exists a.
Qed.

(** C5. Parent-order contiguity: when some order between 1 and the number of
    parent rows is the order of no parent row, [getSortedDifficultyNames]
    returns no result and throws one of its two "orders are not continuous"
    messages. *)
Theorem parent_order_gap_raises (rows : list difficulties.t) (modID parentOrder : Z) :
  1 <= parentOrder <= Z.of_nat (length (parentRows rows)) ->
  (forall difficulty,
      In difficulty rows ->
      difficulties.parentDifficultyID difficulty = None ->
      difficulties.order difficulty <> parentOrder) ->
  exists message,
    getSortedDifficultyNames rows modID = inl (ThrowString message) /\
    (message = parentOrdersMessage modID \/
     exists parentDifficulty, message = childOrdersMessage parentDifficulty modID).
Proof.
  intros Hrange Hmissing.
  rewrite getSortedDifficultyNames_eq.
  destruct (checkContinuous_blank
              (map (formatEntry rows) (seqZ 1 (length (parentRows rows)))) modID)
    as (message & Hthrow & Hmessage).
  - apply in_map_iff. exists parentOrder. split.
    + unfold formatEntry. rewrite findParent_missing; [reflexivity|].
      intros difficulty Hin. unfold parentRows in Hin.
      apply filter_In in Hin. destruct Hin as [Hin Hparent].
      apply Hmissing; [exact Hin|].
      unfold isParent in Hparent.
      now destruct (difficulties.parentDifficultyID difficulty).
    + apply In_seqZ. lia.
  - exists message. rewrite Hthrow. split; [reflexivity | exact Hmessage].
Qed.

Lemma parent_order_gap_raises_witness :
  exists message,
    getSortedDifficultyNames gapRows 7 = inl (ThrowString message) /\
    (message = parentOrdersMessage 7 \/
     exists parentDifficulty, message = childOrdersMessage parentDifficulty 7).
Proof.
  apply (parent_order_gap_raises gapRows 7 2).
  - simpl. lia.
  - intros difficulty [<- | [<- | [<- | []]]] _; discriminate.
Defined.

(** ** Lookups by order *)

Lemma findParent_find (parents : list difficulties.t) (parentOrder : Z) :
  findParent parents parentOrder =
  match find (hasOrder parentOrder) parents with
  | Some difficulty => (Int (difficulties.id difficulty), difficulties.name difficulty)
  | None => (NaN, "")
  end.
Proof.
  induction parents as [|difficulty rest IH]; simpl; [reflexivity|].
  unfold hasOrder at 1. now destruct (difficulties.order difficulty =? parentOrder).
Qed.

Lemma findSibling_find (siblingArray : list difficulties.t) (siblingOrder : Z) :
  findSibling siblingArray siblingOrder =
  option_map difficulties.name (find (hasOrder siblingOrder) siblingArray).
Proof.
  induction siblingArray as [|sibling rest IH]; simpl; [reflexivity|].
  unfold hasOrder at 1. now destruct (difficulties.order sibling =? siblingOrder).
Qed.

Lemma order_unique (l : list difficulties.t) :
  NoDup (map difficulties.order l) ->
  forall x y,
    In x l -> In y l -> difficulties.order x = difficulties.order y -> x = y.
Proof.
  induction l as [|a l IH]; intros Hnodup x y Hx Hy Horder; [contradiction|].
  inversion Hnodup as [|? ? Hnotin Hrest]; subst.
  destruct Hx as [<- | Hx], Hy as [<- | Hy].
  - reflexivity.
  - exfalso. apply Hnotin. rewrite Horder. now apply in_map.
  - exfalso. apply Hnotin. rewrite <- Horder. now apply in_map.
  - now apply IH.
Qed.

(** Among rows with pairwise different orders, the row found for an order
    does not depend on the sequence of the rows. *)
Lemma find_order_permutation (l l' : list difficulties.t) (order : Z) :
  Permutation l l' ->
  NoDup (map difficulties.order l) ->
  find (hasOrder order) l' = find (hasOrder order) l.
Proof.
  intros Hperm Hnodup.
  destruct (find (hasOrder order) l) as [x|] eqn:Hl.
  - apply find_some in Hl. destruct Hl as [Hin Hx].
    destruct (find (hasOrder order) l') as [y|] eqn:Hl'.
    + apply find_some in Hl'. destruct Hl' as [Hin' Hy].
      f_equal. apply (order_unique l Hnodup).
      * apply (Permutation_in _ (Permutation_sym Hperm) Hin').
      * exact Hin.
      * unfold hasOrder in Hx, Hy. apply Z.eqb_eq in Hx, Hy. congruence.
    + rewrite (find_none _ _ Hl' x) in Hx; [discriminate|].
      apply (Permutation_in _ Hperm Hin).
  - destruct (find (hasOrder order) l') as [y|] eqn:Hl'; [|reflexivity].
    apply find_some in Hl'. destruct Hl' as [Hin' Hy].
    rewrite (find_none _ _ Hl y) in Hy; [discriminate|].
    apply (Permutation_in _ (Permutation_sym Hperm) Hin').
Qed.

(** In rows whose orders count up from [start], the order [start + i] finds
    the row at position [i]. *)
Lemma find_order_consecutive (l : list difficulties.t) :
  forall (start : Z) (i : nat) (x : difficulties.t),
    map difficulties.order l = seqZ start (length l) ->
    nth_error l i = Some x ->
    find (hasOrder (start + Z.of_nat i)) l = Some x.
Proof.
  induction l as [|a l IH]; intros start i x Horders Hnth.
  - destruct i; discriminate.
  - simpl in Horders. injection Horders as Ha Hrest.
    destruct i as [|i]; simpl in *.
    + injection Hnth as ->. unfold hasOrder.
      replace (start + 0) with start by lia. now rewrite Ha, Z.eqb_refl.
    + unfold hasOrder at 1.
      destruct (difficulties.order a =? start + Z.pos (Pos.of_succ_nat i)) eqn:Hc.
      * apply Z.eqb_eq in Hc. lia.
      * replace (start + Z.pos (Pos.of_succ_nat i)) with (start + 1 + Z.of_nat i) by lia.
        now apply IH.
Qed.

Lemma NoDup_seqZ (n : nat) : forall start, NoDup (seqZ start n).
Proof.
  induction n as [|n IH]; intros start; simpl; constructor.
  - rewrite In_seqZ. lia.
  - apply IH.
Qed.

Lemma seqZ_length (n : nat) : forall start, length (seqZ start n) = n.
Proof.
  induction n as [|n IH]; intros start; simpl; [reflexivity|]. now rewrite IH.
Qed.

Lemma filter_permutation {A : Type} (f : A -> bool) (l l' : list A) :
  Permutation l l' -> Permutation (filter f l) (filter f l').
Proof.
  induction 1 as [|x l l' _ IH|x y l|l l' l'' _ IH1 _ IH2]; simpl.
  - constructor.
  - destruct (f x); [now constructor | exact IH].
  - destruct (f x), (f y); try apply Permutation_refl. apply perm_swap.
  - now apply Permutation_trans with (filter f l').
Qed.

Lemma map_seqZ_nth {A : Type} (f : Z -> A) (l : list A) :
  forall start,
    (forall (j : nat) (x : A), nth_error l j = Some x -> f (start + Z.of_nat j) = x) ->
    map f (seqZ start (length l)) = l.
Proof.
  induction l as [|a l IH]; intros start Hnth; simpl; [reflexivity|]. f_equal.
  - rewrite <- (Hnth 0%nat a eq_refl). f_equal. lia.
  - apply IH. intros j x Hj.
    rewrite <- (Hnth (S j) x Hj). f_equal. lia.
Qed.

(** When each order from [siblingOrder] on finds the next name, the loop over
    the sibling orders pushes the names in sequence. *)
Lemma siblingOrderLoop_found (siblingArray : list difficulties.t) (names : list string) :
  forall (siblingOrder : Z) (parentAndChildrenArray : list string),
    (forall (i : nat) (n : string),
        nth_error names i = Some n ->
        findSibling siblingArray (siblingOrder + Z.of_nat i) = Some n) ->
    siblingOrderLoop (length names) siblingOrder siblingArray parentAndChildrenArray =
    parentAndChildrenArray ++ names.
Proof.
  induction names as [|n names IH]; intros siblingOrder acc Hfound; simpl.
  - now rewrite app_nil_r.
  - assert (H0 : findSibling siblingArray siblingOrder = Some n).
    { rewrite <- (Hfound 0%nat n eq_refl). f_equal. lia. }
    rewrite H0, IH.
    + now rewrite <- app_assoc.
    + intros i m Hi. rewrite <- (Hfound (S i) m Hi). f_equal. lia.
Qed.

(** ** The stored rows of a well-formed submission *)

Lemma wellFormedElement_record (index : Z) (element : stringOrArray) :
  wellFormedElement element = true ->
  createParentDifficultyForMod.name (parentRecord index element) =
  Some (parentNameOf element) /\
  match createParentDifficultyForMod.other_difficulties (parentRecord index element) with
  | Some create => create
  | None => []
  end = childRecords (childNamesOf element) 1.
Proof.
  destruct element as [s|[|parent a]]; simpl; try discriminate; now split.
Qed.

Lemma persist_stored (fresh : nat -> Z) (difficultyNames : list stringOrArray) :
  wellFormedSubmission difficultyNames = true ->
  forall allocated index,
    persist fresh allocated (parentRecords difficultyNames index) =
    inr (storedRows fresh allocated index difficultyNames).
Proof.
  induction difficultyNames as [|element rest IH]; intros Hwf allocated index.
  - reflexivity.
  - simpl in Hwf. apply andb_true_iff in Hwf. destruct Hwf as [Helement Hrest].
    cbn [parentRecords persist storedRows].
    destruct (wellFormedElement_record index element Helement) as [-> ->].
    rewrite childRecords_length, (IH Hrest).
    replace (createParentDifficultyForMod.order (parentRecord index element))
      with (index + 1) by now destruct element.
    reflexivity.
Qed.

Lemma persistChildren_parentRows (fresh : nat -> Z)
    (children : list createChildDifficultyForMod.t) :
  forall allocated parentID,
    parentRows (persistChildren fresh allocated parentID children) = [].
Proof.
  induction children as [|child rest IH]; intros allocated parentID; simpl; [reflexivity|].
  apply IH.
Qed.

Lemma persistChildren_childrenOf (fresh : nat -> Z)
    (children : list createChildDifficultyForMod.t) :
  forall allocated parentID k,
    childrenOf k (persistChildren fresh allocated parentID children) =
    if parentID =? k then persistChildren fresh allocated parentID children else [].
Proof.
  induction children as [|child rest IH]; intros allocated parentID k; simpl.
  - now destruct (parentID =? k).
  - unfold isChildOf. simpl. rewrite IH. now destruct (parentID =? k).
Qed.

Lemma persistChildren_orders (fresh : nat -> Z) (names : list string) :
  forall allocated parentID start,
    map difficulties.order
      (persistChildren fresh allocated parentID (childRecords names start)) =
    seqZ start (length names).
Proof.
  induction names as [|n names IH]; intros allocated parentID start; simpl; [reflexivity|].
  now rewrite IH.
Qed.

Lemma persistChildren_length (fresh : nat -> Z)
    (children : list createChildDifficultyForMod.t) :
  forall allocated parentID,
    length (persistChildren fresh allocated parentID children) = length children.
Proof.
  induction children as [|child rest IH]; intros allocated parentID; simpl; [reflexivity|].
  now rewrite IH.
Qed.

Lemma persistChildren_nth (fresh : nat -> Z) (names : list string) :
  forall allocated parentID start (i : nat) (n : string),
    nth_error names i = Some n ->
    exists row,
      nth_error (persistChildren fresh allocated parentID (childRecords names start)) i
      = Some row /\
      difficulties.name row = n.
Proof.
  induction names as [|m names IH]; intros allocated parentID start i n Hnth.
  - destruct i; discriminate.
  - destruct i as [|i]; simpl in *.
    + injection Hnth as ->. eexists. split; reflexivity.
    + now apply IH.
Qed.

Lemma parentRows_cons_parent (id : Z) (name : string) (order : Z)
    (rows : list difficulties.t) :
  parentRows (difficulties.mk id name order None :: rows) =
  difficulties.mk id name order None :: parentRows rows.
Proof. reflexivity. Qed.

Lemma childrenOf_cons_parent (k id : Z) (name : string) (order : Z)
    (rows : list difficulties.t) :
  childrenOf k (difficulties.mk id name order None :: rows) = childrenOf k rows.
Proof. reflexivity. Qed.

Lemma storedRows_parentRows (fresh : nat -> Z) (rest : list stringOrArray) :
  forall allocated index,
    parentRows (storedRows fresh allocated index rest) =
    storedParents fresh allocated index rest.
Proof.
  induction rest as [|element rest IH]; intros allocated index; [reflexivity|].
  cbn [storedRows storedParents].
  now rewrite parentRows_cons_parent, parentRows_app, persistChildren_parentRows, IH.
Qed.

Lemma storedParents_orders (fresh : nat -> Z) (rest : list stringOrArray) :
  forall allocated index,
    map difficulties.order (storedParents fresh allocated index rest) =
    seqZ (index + 1) (length rest).
Proof.
  induction rest as [|element rest IH]; intros allocated index; simpl; [reflexivity|].
  now rewrite IH.
Qed.

Lemma storedParents_length (fresh : nat -> Z) (rest : list stringOrArray) :
  forall allocated index, length (storedParents fresh allocated index rest) = length rest.
Proof.
  induction rest as [|element rest IH]; intros allocated index; simpl; [reflexivity|].
  now rewrite IH.
Qed.

Section DistinctIDs.

(** No id is handed out twice. *)
Variable fresh : nat -> Z.
Hypothesis fresh_injective : forall a b : nat, fresh a = fresh b -> a = b.

(** No row created after [allocated] others is a child of a row created
    among those others. *)
Lemma storedRows_childrenOf_earlier (rest : list stringOrArray) :
  forall (allocated : nat) (index : Z) (earlier : nat),
    (earlier < allocated)%nat ->
    childrenOf (fresh earlier) (storedRows fresh allocated index rest) = [].
Proof.
  induction rest as [|element rest IH]; intros allocated index earlier Hearlier;
    [reflexivity|].
  cbn [storedRows].
  rewrite childrenOf_cons_parent, childrenOf_app, persistChildren_childrenOf.
  destruct (fresh allocated =? fresh earlier) eqn:Heq.
  - apply Z.eqb_eq, fresh_injective in Heq. lia.
  - apply IH. lia.
Qed.

(** The element at position [j] is stored as the parent row at position [j],
    and the rows under that parent are the rows of its child names. *)
Lemma storedRows_nth (rest : list stringOrArray) :
  forall (allocated : nat) (index : Z) (j : nat) (element : stringOrArray),
    nth_error rest j = Some element ->
    exists own : nat,
      (allocated <= own)%nat /\
      nth_error (storedParents fresh allocated index rest) j =
      Some (difficulties.mk (fresh own) (parentNameOf element)
              (index + Z.of_nat j + 1) None) /\
      childrenOf (fresh own) (storedRows fresh allocated index rest) =
      persistChildren fresh (S own) (fresh own) (childRecords (childNamesOf element) 1).
Proof.
  induction rest as [|first rest IH]; intros allocated index j element Hnth.
  - destruct j; discriminate.
  - cbn [storedRows storedParents]. destruct j as [|j]; cbn [nth_error] in *.
    + injection Hnth as ->. exists allocated. split; [lia|]. split.
      * do 2 f_equal. lia.
      * rewrite childrenOf_cons_parent, childrenOf_app, persistChildren_childrenOf,
          Z.eqb_refl.
        rewrite storedRows_childrenOf_earlier by lia. apply app_nil_r.
    + destruct (IH (S allocated + length (childNamesOf first))%nat (index + 1)
                  j element Hnth) as (own & Hown & Hparent & Hchildren).
      exists own. split; [lia|]. split.
      * rewrite Hparent. do 2 f_equal. lia.
      * rewrite childrenOf_cons_parent, childrenOf_app, persistChildren_childrenOf.
        destruct (fresh allocated =? fresh own) eqn:Heq.
        { apply Z.eqb_eq, fresh_injective in Heq. lia. }
        exact Hchildren.
Qed.

End DistinctIDs.

Lemma checkChildren_nonBlank (rest parentDifficulty : list string) (modID : Z) :
  forallb nonBlank rest = true ->
  checkChildren rest parentDifficulty modID = inr tt.
Proof.
  induction rest as [|child rest IH]; simpl; [reflexivity|].
  intros H. apply andb_true_iff in H. destruct H as [Hchild Hrest].
  unfold nonBlank in Hchild. apply negb_true_iff in Hchild. rewrite Hchild.
  now apply IH.
Qed.

Lemma checkContinuous_wellFormed (difficultyNames : list stringOrArray) (modID : Z) :
  wellFormedSubmission difficultyNames = true ->
  checkContinuous difficultyNames modID = inr tt.
Proof.
  induction difficultyNames as [|element rest IH]; simpl; [reflexivity|].
  intros H. apply andb_true_iff in H. destruct H as [Helement Hrest].
  destruct element as [s|a].
  - simpl in Helement. unfold nonBlank in Helement.
    apply negb_true_iff in Helement. rewrite Helement. now apply IH.
  - rewrite checkChildren_nonBlank; [now apply IH|].
    destruct a as [|parent [|child children]]; try discriminate. exact Helement.
Qed.

(** ** The round trip *)

(** Whatever the sequence of the stored rows, the element formatted for the
    order [j + 1] is the element at position [j] of the submission. *)
Lemma formatEntry_stored (fresh : nat -> Z) (allocated : nat)
    (difficultyNames : list stringOrArray)
    (rows : list difficulties.t) (j : nat) (element : stringOrArray) :
  (forall a b : nat, fresh a = fresh b -> a = b) ->
  wellFormedSubmission difficultyNames = true ->
  Permutation (storedRows fresh allocated 0 difficultyNames) rows ->
  nth_error difficultyNames j = Some element ->
  formatEntry rows (1 + Z.of_nat j) = element.
Proof.
  intros Hfresh Hwf Hperm Hnth.
  assert (Helement : wellFormedElement element = true).
  { unfold wellFormedSubmission in Hwf. rewrite forallb_forall in Hwf.
    apply Hwf. eapply nth_error_In. exact Hnth. }
  destruct (storedRows_nth fresh Hfresh difficultyNames allocated 0 j element Hnth)
    as (own & _ & Hparent & Hchildren).
  assert (Hparents : Permutation (storedParents fresh allocated 0 difficultyNames)
                       (parentRows rows)).
  { rewrite <- storedRows_parentRows. now apply filter_permutation. }
  unfold formatEntry.
  rewrite findParent_find.
  rewrite (find_order_permutation _ _ _ Hparents)
    by (rewrite storedParents_orders; apply NoDup_seqZ).
  replace (1 + Z.of_nat j) with (0 + 1 + Z.of_nat j) by lia.
  rewrite (find_order_consecutive _ (0 + 1) j _
             (eq_trans (storedParents_orders fresh difficultyNames allocated 0)
                (f_equal (seqZ (0 + 1))
                   (eq_sym (storedParents_length fresh difficultyNames allocated 0))))
             Hparent).
  cbn [difficulties.id difficulties.name].
  assert (Hgroup : Permutation
                     (persistChildren fresh (S own) (fresh own)
                        (childRecords (childNamesOf element) 1))
                     (childrenOf (fresh own) rows)).
  { rewrite <- Hchildren. now apply filter_permutation. }
  destruct element as [s|[|parent [|child children]]]; try discriminate Helement.
  - simpl in Hgroup. apply Permutation_nil in Hgroup. now rewrite Hgroup.
  - cbn [parentNameOf childNamesOf hd tl] in *.
    assert (Hlength : length (childrenOf (fresh own) rows) = length (child :: children)).
    { rewrite <- (Permutation_length Hgroup), persistChildren_length.
      apply childRecords_length. }
    destruct (childrenOf (fresh own) rows) as [|sibling siblings] eqn:Hrows;
      [discriminate|].
    rewrite Hlength. f_equal.
    rewrite siblingOrderLoop_found; [reflexivity|].
    intros i n Hi.
    rewrite findSibling_find.
    rewrite (find_order_permutation _ _ _ Hgroup)
      by (rewrite persistChildren_orders; apply NoDup_seqZ).
    destruct (persistChildren_nth fresh (child :: children) (S own) (fresh own) 1 i n Hi)
      as (row & Hrow & Hname).
    rewrite (find_order_consecutive _ 1 i row).
    + simpl. now rewrite Hname.
    + rewrite persistChildren_orders, persistChildren_length, childRecords_length.
      reflexivity.
    + exact Hrow.
Qed.

(** C1, as stated, fails: the parser accepts an inner array that holds only
    a parent name, its creation record is stored as one parent row, and the
    reconstruction gives the bare name back, not the array. *)
Lemma round_trip_fails_on_childless_array :
  getDifficultyArrays [Arr ["Medium"]] =
  inr (mkArrays [mkName (Some "Medium")]
         [createParentDifficultyForMod.mk (Some "Medium") 1 (Some [])] true) /\
  persist (sequentialIDs 1) 0 [createParentDifficultyForMod.mk (Some "Medium") 1 (Some [])] =
  inr [difficulties.mk 1 "Medium" 1 None] /\
  getSortedDifficultyNames [difficulties.mk 1 "Medium" 1 None] 1 = inr [Str "Medium"] /\
  roundTrip (sequentialIDs 1) 0 [Arr ["Medium"]] 1 <> inr [Arr ["Medium"]].
Proof.
  repeat split. discriminate.
Qed.

(** C1, amended. Round trip: let every name of the submission be non-blank
    and every inner array hold a parent name and at least one child name, and
    let the store give every row an id of its own. Then the parser accepts
    the submission, its creation list is stored, and reconstructing from the
    stored rows, read back in any sequence, yields the submission itself. *)
Theorem round_trip (fresh : nat -> Z) (allocated : nat)
    (difficultyNames : list stringOrArray) (modID : Z) :
  (forall a b : nat, fresh a = fresh b -> a = b) ->
  wellFormedSubmission difficultyNames = true ->
  exists arrays stored,
    getDifficultyArrays difficultyNames = inr arrays /\
    persist fresh allocated (difficultiesDataArray arrays) = inr stored /\
    roundTrip fresh allocated difficultyNames modID = inr difficultyNames /\
    forall rows,
      Permutation stored rows ->
      getSortedDifficultyNames rows modID = inr difficultyNames.
Proof.
  intros Hfresh Hwf.
  assert (Hany : forall rows,
             Permutation (storedRows fresh allocated 0 difficultyNames) rows ->
             getSortedDifficultyNames rows modID = inr difficultyNames).
  { intros rows Hperm.
    rewrite getSortedDifficultyNames_eq.
    assert (Hcount : length (parentRows rows) = length difficultyNames).
    { rewrite <- (storedParents_length fresh difficultyNames allocated 0),
        <- storedRows_parentRows.
      symmetry. apply Permutation_length. now apply filter_permutation. }
    rewrite Hcount.
    rewrite (map_seqZ_nth (formatEntry rows) difficultyNames 1).
    - now rewrite checkContinuous_wellFormed.
    - intros j element Hj.
      now apply (formatEntry_stored fresh allocated difficultyNames rows j element). }
  exists (mkArrays (flat_map flatNames difficultyNames)
            (parentRecords difficultyNames 0) (existsb isArray difficultyNames)).
  exists (storedRows fresh allocated 0 difficultyNames).
  split; [apply getDifficultyArrays_eq|].
  split; [now apply persist_stored|].
  split; [|exact Hany].
  unfold roundTrip. rewrite getDifficultyArrays_eq. cbn [difficultiesDataArray].
  rewrite persist_stored by exact Hwf. cbn [bind].
  apply Hany. apply Permutation_refl.
Qed.

Lemma round_trip_witness :
  exists arrays stored,
    getDifficultyArrays exampleSubmission = inr arrays /\
    persist (sequentialIDs 40) 0 (difficultiesDataArray arrays) = inr stored /\
    roundTrip (sequentialIDs 40) 0 exampleSubmission 7 = inr exampleSubmission /\
    forall rows,
      Permutation stored rows ->
      getSortedDifficultyNames rows 7 = inr exampleSubmission.
Proof.
  apply (round_trip (sequentialIDs 40) 0 exampleSubmission 7).
  - unfold sequentialIDs. intros a b H. lia.
  - reflexivity.
Defined.

(** * Further properties of the code *)

(** ** What a reconstruction can return *)

Lemma checkContinuous_cases (formattedArray : list stringOrArray) (modID : Z) :
  checkContinuous formattedArray modID = inr tt \/
  checkContinuous formattedArray modID = inl (ThrowString (parentOrdersMessage modID)) \/
  exists parentDifficulty,
    checkContinuous formattedArray modID =
    inl (ThrowString (childOrdersMessage parentDifficulty modID)).
Proof.
  induction formattedArray as [|element rest IH]; simpl; [now left|].
  destruct element as [s|a].
  - destruct (String.eqb s ""); [right; now left | exact IH].
  - destruct (checkChildren_cases a a modID) as [-> | ->]; simpl; [exact IH|].
    right. right. now exists a.
Qed.

Lemma checkChildren_inr (rest parentDifficulty : list string) (modID : Z) :
  checkChildren rest parentDifficulty modID = inr tt <-> forallb nonBlank rest = true.
Proof.
  induction rest as [|child rest IH]; simpl; [tauto|].
  unfold nonBlank at 1. destruct (String.eqb child ""); simpl; [|exact IH].
  split; discriminate.
Qed.

Lemma checkContinuous_inr (formattedArray : list stringOrArray) (modID : Z) :
  checkContinuous formattedArray modID = inr tt <->
  forallb namesNonBlank formattedArray = true.
Proof.
  induction formattedArray as [|element rest IH]; simpl; [tauto|].
  destruct element as [s|a]; simpl.
  - unfold nonBlank. destruct (String.eqb s ""); simpl; [|exact IH].
    split; discriminate.
  - destruct (checkChildren_cases a a modID) as [Hok | Hthrow].
    + rewrite Hok. simpl. apply checkChildren_inr in Hok. now rewrite Hok.
    + rewrite Hthrow. simpl.
      destruct (forallb nonBlank a) eqn:Ha; [|split; discriminate].
      apply (checkChildren_inr a a modID) in Ha. congruence.
Qed.

Lemma getSortedDifficultyNames_inr (rows : list difficulties.t) (modID : Z)
    (formattedArray : list stringOrArray) :
  getSortedDifficultyNames rows modID = inr formattedArray ->
  formattedArray = map (formatEntry rows) (seqZ 1 (length (parentRows rows))) /\
  checkContinuous formattedArray modID = inr tt.
Proof.
  rewrite getSortedDifficultyNames_eq. intros H.
  apply bind_inr in H. destruct H as ([] & Hcheck & Hret).
  injection Hret as <-. now split.
Qed.

(** X1. Outcomes of the reconstruction: on every row set it returns, or it
    throws one of its two messages; the [TypeError] of reading the first
    element of an empty sibling array never happens. *)
Theorem getSortedDifficultyNames_outcomes (rows : list difficulties.t) (modID : Z) :
  (exists formattedArray, getSortedDifficultyNames rows modID = inr formattedArray) \/
  getSortedDifficultyNames rows modID = inl (ThrowString (parentOrdersMessage modID)) \/
  exists parentDifficulty,
    getSortedDifficultyNames rows modID =
    inl (ThrowString (childOrdersMessage parentDifficulty modID)).
Proof.
  rewrite getSortedDifficultyNames_eq.
  destruct (checkContinuous_cases
              (map (formatEntry rows) (seqZ 1 (length (parentRows rows)))) modID)
    as [-> | [-> | (parentDifficulty & ->)]]; simpl.
  - left. eexists. reflexivity.
  - right. now left.
  - right. right. now exists parentDifficulty.
Qed.

Lemma findSibling_In (siblingArray : list difficulties.t) (siblingOrder : Z)
    (siblingName : string) :
  findSibling siblingArray siblingOrder = Some siblingName ->
  exists sibling,
    In sibling siblingArray /\
    difficulties.order sibling = siblingOrder /\
    difficulties.name sibling = siblingName.
Proof.
  induction siblingArray as [|sibling rest IH]; simpl; [discriminate|].
  destruct (difficulties.order sibling =? siblingOrder) eqn:Horder.
  - intros H. injection H as <-. apply Z.eqb_eq in Horder. exists sibling. auto.
  - intros H. destruct (IH H) as (found & Hin & Hfound). exists found. auto.
Qed.

(** The loop over the sibling orders only pushes: names of siblings, after
    what the array held. *)
Lemma siblingOrderLoop_pushes (siblingArray : list difficulties.t) (fuel : nat) :
  forall (siblingOrder : Z) (parentAndChildrenArray : list string),
  exists pushed,
    siblingOrderLoop fuel siblingOrder siblingArray parentAndChildrenArray =
    parentAndChildrenArray ++ pushed /\
    forall siblingName,
      In siblingName pushed ->
      exists sibling, In sibling siblingArray /\ difficulties.name sibling = siblingName.
Proof.
  induction fuel as [|fuel IH]; intros siblingOrder acc; simpl.
  - exists []. split; [now rewrite app_nil_r | intros n []].
  - destruct (findSibling siblingArray siblingOrder) as [found|] eqn:Hfound.
    + destruct (IH (siblingOrder + 1) (acc ++ [found])) as (pushed & -> & Hpushed).
      exists (found :: pushed). split; [now rewrite <- app_assoc|].
      intros n [<- | Hn]; [|now apply Hpushed].
      apply findSibling_In in Hfound. destruct Hfound as (sibling & Hin & _ & Hname).
      now exists sibling.
    + apply IH.
Qed.

(** The element formatted for an order: the empty string when no parent has
    the order; else the name of the parent found, bare or followed by names
    of rows. *)
Lemma formatEntry_parent (rows : list difficulties.t) (parentOrder : Z) :
  (find (hasOrder parentOrder) (parentRows rows) = None /\
   formatEntry rows parentOrder = Str "") \/
  exists parent,
    find (hasOrder parentOrder) (parentRows rows) = Some parent /\
    (formatEntry rows parentOrder = Str (difficulties.name parent) \/
     exists pushed,
       formatEntry rows parentOrder = Arr (difficulties.name parent :: pushed) /\
       forall siblingName,
         In siblingName pushed ->
         exists sibling, In sibling rows /\ difficulties.name sibling = siblingName).
Proof.
  unfold formatEntry. rewrite findParent_find.
  destruct (find (hasOrder parentOrder) (parentRows rows)) as [parent|].
  - right. exists parent. split; [reflexivity|].
    destruct (childrenOf (difficulties.id parent) rows) as [|sibling siblings] eqn:Hrows;
      [now left|].
    destruct (siblingOrderLoop_pushes (sibling :: siblings) (length (sibling :: siblings)) 1
                [difficulties.name parent]) as (pushed & -> & Hpushed).
    right. exists pushed. split; [reflexivity|].
    intros n Hn. destruct (Hpushed n Hn) as (found & Hin & Hname).
    exists found. split; [|exact Hname].
    rewrite <- Hrows in Hin. unfold childrenOf in Hin.
    apply filter_In in Hin. tauto.
  - left. now split.
Qed.

Lemma map_seqZ_nth_error {A : Type} (f : Z -> A) (n : nat) :
  forall (start : Z) (j : nat),
    (j < n)%nat -> nth_error (map f (seqZ start n)) j = Some (f (start + Z.of_nat j)).
Proof.
  induction n as [|n IH]; intros start j Hj; [lia|].
  destruct j as [|j]; simpl.
  - do 2 f_equal. lia.
  - rewrite IH by lia. do 2 f_equal. lia.
Qed.

(** X2. What a returned reconstruction guarantees: it has one element per
    parent row, and for every position [j] below the number of parent rows
    there is a parent row with order [j + 1] and a non-blank name, after
    which the element at position [j] is named. *)
Theorem getSortedDifficultyNames_success_orders (rows : list difficulties.t) (modID : Z)
    (formattedArray : list stringOrArray) :
  getSortedDifficultyNames rows modID = inr formattedArray ->
  length formattedArray = length (parentRows rows) /\
  forall j : nat,
    (j < length (parentRows rows))%nat ->
    exists parent element,
      In parent rows /\
      difficulties.parentDifficultyID parent = None /\
      difficulties.order parent = Z.of_nat j + 1 /\
      difficulties.name parent <> "" /\
      nth_error formattedArray j = Some element /\
      parentNameOf element = difficulties.name parent.
Proof.
  intros Hresult.
  apply getSortedDifficultyNames_inr in Hresult. destruct Hresult as [-> Hcheck].
  split; [now rewrite length_map, seqZ_length|].
  intros j Hj.
  apply checkContinuous_inr in Hcheck. rewrite forallb_forall in Hcheck.
  assert (Hnth := map_seqZ_nth_error (formatEntry rows) _ 1 j Hj).
  assert (Hok := Hcheck _ (nth_error_In _ _ Hnth)).
  destruct (formatEntry_parent rows (1 + Z.of_nat j))
    as [[_ Hblank] | (parent & Hfind & Hshape)].
  - rewrite Hblank in Hok. discriminate.
  - apply find_some in Hfind. destruct Hfind as [Hin Horder].
    apply filter_In in Hin. destruct Hin as [Hin Hparent].
    exists parent, (formatEntry rows (1 + Z.of_nat j)).
    split; [exact Hin|]. split.
    { unfold isParent in Hparent.
      now destruct (difficulties.parentDifficultyID parent). }
    split.
    { unfold hasOrder in Horder. apply Z.eqb_eq in Horder. lia. }
    split; [|split; [exact Hnth|]].
    + destruct Hshape as [Hshape | (pushed & Hshape & _)]; rewrite Hshape in Hok;
        simpl in Hok; intros Hempty; rewrite Hempty in Hok; discriminate.
    + destruct Hshape as [Hshape | (pushed & Hshape & _)]; now rewrite Hshape.
Qed.

Lemma getSortedDifficultyNames_success_orders_witness :
  length exampleSubmission = length (parentRows (exampleRows 11 12 13 14)) /\
  forall j : nat,
    (j < length (parentRows (exampleRows 11 12 13 14)))%nat ->
    exists parent element,
      In parent (exampleRows 11 12 13 14) /\
      difficulties.parentDifficultyID parent = None /\
      difficulties.order parent = Z.of_nat j + 1 /\
      difficulties.name parent <> "" /\
      nth_error exampleSubmission j = Some element /\
      parentNameOf element = difficulties.name parent.
Proof.
  apply (getSortedDifficultyNames_success_orders (exampleRows 11 12 13 14) 7 exampleSubmission).
  reflexivity.
Defined.

(** X3. The names of a returned reconstruction: every name in it is
    non-blank and is the name of a stored row, and no array in it is
    empty. *)
Theorem getSortedDifficultyNames_success_names (rows : list difficulties.t) (modID : Z)
    (formattedArray : list stringOrArray) :
  getSortedDifficultyNames rows modID = inr formattedArray ->
  forall element,
    In element formattedArray ->
    element <> Arr [] /\
    forall name,
      In name (namesOf element) ->
      name <> "" /\ exists difficulty, In difficulty rows /\ difficulties.name difficulty = name.
Proof.
  intros Hresult element Helement.
  apply getSortedDifficultyNames_inr in Hresult. destruct Hresult as [-> Hcheck].
  apply checkContinuous_inr in Hcheck. rewrite forallb_forall in Hcheck.
  assert (Hok := Hcheck _ Helement).
  apply in_map_iff in Helement. destruct Helement as (parentOrder & <- & _).
  assert (Hrow : forall parent,
             find (hasOrder parentOrder) (parentRows rows) = Some parent ->
             In parent rows).
  { intros parent Hfind. apply find_some in Hfind. destruct Hfind as [Hin _].
    apply filter_In in Hin. tauto. }
  destruct (formatEntry_parent rows parentOrder)
    as [[_ Hblank] | (parent & Hfind & [Hshape | (pushed & Hshape & Hpushed)])].
  - rewrite Hblank in Hok. discriminate.
  - rewrite Hshape in Hok |- *. split; [discriminate|].
    intros name [<- | []]. split.
    + intros Hempty. simpl in Hok. rewrite Hempty in Hok. discriminate.
    + exists parent. split; [now apply Hrow | reflexivity].
  - rewrite Hshape in Hok |- *. split; [discriminate|].
    intros name Hname. split.
    + intros Hempty. cbn [namesNonBlank] in Hok. cbn [namesOf] in Hname.
      rewrite forallb_forall in Hok.
      assert (H := Hok name Hname). rewrite Hempty in H. discriminate.
    + destruct Hname as [<- | Hname].
      * exists parent. split; [now apply Hrow | reflexivity].
      * now apply Hpushed.
Qed.

Lemma getSortedDifficultyNames_success_names_witness :
  getSortedDifficultyNames (exampleRows 11 12 13 14) 7 = inr exampleSubmission /\
  forall element,
    In element exampleSubmission ->
    element <> Arr [] /\
    forall name,
      In name (namesOf element) ->
      name <> "" /\
      exists difficulty,
        In difficulty (exampleRows 11 12 13 14) /\ difficulties.name difficulty = name.
Proof.
  split; [reflexivity|].
  apply (getSortedDifficultyNames_success_names (exampleRows 11 12 13 14) 7 exampleSubmission).
  reflexivity.
Defined.

(** X4. Without a blank name among the stored rows, the only error of the
    reconstruction is the one for the parent orders: the message for child
    orders is thrown for a blank name it finds, not for an order it does
    not find. *)
Theorem getSortedDifficultyNames_child_message_needs_blank
    (rows : list difficulties.t) (modID : Z) :
  (forall difficulty, In difficulty rows -> difficulties.name difficulty <> "") ->
  (exists formattedArray, getSortedDifficultyNames rows modID = inr formattedArray) \/
  getSortedDifficultyNames rows modID = inl (ThrowString (parentOrdersMessage modID)).
Proof.
  intros Hnames.
  rewrite getSortedDifficultyNames_eq.
  assert (Hentries : forall parentOrder,
             formatEntry rows parentOrder = Str "" \/
             namesNonBlank (formatEntry rows parentOrder) = true).
  { intros parentOrder.
    assert (Hnonblank : forall difficulty,
               In difficulty rows -> nonBlank (difficulties.name difficulty) = true).
    { intros difficulty Hin. unfold nonBlank. apply negb_true_iff.
      apply String.eqb_neq. now apply Hnames. }
    destruct (formatEntry_parent rows parentOrder)
      as [[_ Hblank] | (parent & Hfind & [Hshape | (pushed & Hshape & Hpushed)])].
    - now left.
    - right. rewrite Hshape. simpl. apply Hnonblank.
      apply find_some in Hfind. destruct Hfind as [Hin _].
      apply filter_In in Hin. tauto.
    - right. rewrite Hshape. simpl. apply andb_true_iff. split.
      + apply Hnonblank. apply find_some in Hfind. destruct Hfind as [Hin _].
        apply filter_In in Hin. tauto.
      + apply forallb_forall. intros name Hname.
        destruct (Hpushed name Hname) as (sibling & Hin & <-). now apply Hnonblank. }
  generalize (seqZ 1 (length (parentRows rows))). intros orders.
  assert (Hcheck : checkContinuous (map (formatEntry rows) orders) modID = inr tt \/
                   checkContinuous (map (formatEntry rows) orders) modID =
                   inl (ThrowString (parentOrdersMessage modID))).
  { induction orders as [|parentOrder orders IH]; simpl; [now left|].
    destruct (Hentries parentOrder) as [-> | Hok]; [now right|].
    destruct (formatEntry rows parentOrder) as [s|a]; simpl in Hok |- *.
    - unfold nonBlank in Hok. apply negb_true_iff in Hok. now rewrite Hok.
    - apply (checkChildren_inr a a modID) in Hok. now rewrite Hok. }
  destruct Hcheck as [-> | ->]; simpl; [left; eexists; reflexivity | now right].
Qed.

Lemma getSortedDifficultyNames_child_message_needs_blank_witness :
  (exists formattedArray, getSortedDifficultyNames gapRows 7 = inr formattedArray) \/
  getSortedDifficultyNames gapRows 7 = inl (ThrowString (parentOrdersMessage 7)).
Proof.
  apply (getSortedDifficultyNames_child_message_needs_blank gapRows 7).
  intros difficulty [<- | [<- | [<- | []]]]; discriminate.
Defined.

(** X5. A row set without a parent row (the empty one, or children whose
    parent row is missing) reconstructs to the empty array: the children are
    dropped without an error. *)
Theorem getSortedDifficultyNames_without_parents (rows : list difficulties.t) (modID : Z) :
  (forall difficulty, In difficulty rows -> difficulties.parentDifficultyID difficulty <> None) ->
  getSortedDifficultyNames rows modID = inr [].
Proof.
  intros Hchildren. rewrite getSortedDifficultyNames_eq.
  assert (Hnone : parentRows rows = []).
  { unfold parentRows. induction rows as [|difficulty rest IH]; simpl; [reflexivity|].
    unfold isParent at 1.
    destruct (difficulties.parentDifficultyID difficulty) eqn:Hparent.
    - apply IH. intros d Hd. apply Hchildren. now right.
    - exfalso. apply (Hchildren difficulty); [now left | exact Hparent]. }
  rewrite Hnone. reflexivity.
Qed.

Lemma getSortedDifficultyNames_without_parents_witness :
  getSortedDifficultyNames orphanRows 7 = inr [].
Proof.
  apply (getSortedDifficultyNames_without_parents orphanRows 7).
  intros difficulty [<- | [<- | []]]; discriminate.
Defined.

(** ** The sequence of the rows *)

Lemma find_order_permutation_unique (l l' : list difficulties.t) (order : Z) :
  Permutation l l' ->
  (forall x y, In x l -> In y l ->
               difficulties.order x = difficulties.order y -> x = y) ->
  find (hasOrder order) l' = find (hasOrder order) l.
Proof.
  intros Hperm Hunique.
  destruct (find (hasOrder order) l) as [x|] eqn:Hl.
  - apply find_some in Hl. destruct Hl as [Hin Hx].
    destruct (find (hasOrder order) l') as [y|] eqn:Hl'.
    + apply find_some in Hl'. destruct Hl' as [Hin' Hy].
      f_equal. apply Hunique.
      * apply (Permutation_in _ (Permutation_sym Hperm) Hin').
      * exact Hin.
      * unfold hasOrder in Hx, Hy. apply Z.eqb_eq in Hx, Hy. congruence.
    + rewrite (find_none _ _ Hl' x) in Hx; [discriminate|].
      apply (Permutation_in _ Hperm Hin).
  - destruct (find (hasOrder order) l') as [y|] eqn:Hl'; [|reflexivity].
    apply find_some in Hl'. destruct Hl' as [Hin' Hy].
    rewrite (find_none _ _ Hl y) in Hy; [discriminate|].
    apply (Permutation_in _ (Permutation_sym Hperm) Hin').
Qed.

Lemma siblingOrderLoop_ext (siblingArray siblingArray' : list difficulties.t) (fuel : nat) :
  (forall siblingOrder,
      findSibling siblingArray' siblingOrder = findSibling siblingArray siblingOrder) ->
  forall (siblingOrder : Z) (parentAndChildrenArray : list string),
    siblingOrderLoop fuel siblingOrder siblingArray' parentAndChildrenArray =
    siblingOrderLoop fuel siblingOrder siblingArray parentAndChildrenArray.
Proof.
  intros Hfind. induction fuel as [|fuel IH]; intros siblingOrder acc; simpl.
  - reflexivity.
  - now rewrite Hfind, IH.
Qed.

Lemma formatEntry_permutation (rows rows' : list difficulties.t) (parentOrder : Z) :
  ordersDistinct rows ->
  Permutation rows rows' ->
  formatEntry rows' parentOrder = formatEntry rows parentOrder.
Proof.
  intros Hdistinct Hperm. unfold formatEntry. rewrite !findParent_find.
  rewrite (find_order_permutation_unique (parentRows rows) (parentRows rows')).
  - destruct (find (hasOrder parentOrder) (parentRows rows)) as [parent|]; [|reflexivity].
    assert (Hgroup : Permutation (childrenOf (difficulties.id parent) rows)
                       (childrenOf (difficulties.id parent) rows')).
    { now apply filter_permutation. }
    destruct (childrenOf (difficulties.id parent) rows) as [|sibling siblings] eqn:Hrows.
    + apply Permutation_nil in Hgroup. now rewrite Hgroup.
    + destruct (childrenOf (difficulties.id parent) rows') as [|sibling' siblings'] eqn:Hrows'.
      { apply Permutation_sym, Permutation_nil in Hgroup. discriminate. }
      rewrite <- (Permutation_length Hgroup). f_equal.
      apply siblingOrderLoop_ext. intros siblingOrder.
      rewrite !findSibling_find. f_equal.
      apply find_order_permutation_unique; [exact Hgroup|].
      intros x y Hx Hy. rewrite <- Hrows in Hx, Hy.
      unfold childrenOf in Hx, Hy. apply filter_In in Hx, Hy.
      destruct Hx as [Hx Hxparent], Hy as [Hy Hyparent].
      apply isChildOf_eq in Hxparent, Hyparent.
      apply Hdistinct; congruence.
  - now apply filter_permutation.
  - intros x y Hx Hy. unfold parentRows in Hx, Hy. apply filter_In in Hx, Hy.
    destruct Hx as [Hx Hxparent], Hy as [Hy Hyparent].
    unfold isParent in Hxparent, Hyparent.
    apply Hdistinct; try assumption.
    destruct (difficulties.parentDifficultyID x), (difficulties.parentDifficultyID y);
      try discriminate; reflexivity.
Qed.

(** X6. The sequence of the rows does not matter: when the rows of each
    sibling scope have different orders, two row sets that are permutations
    of each other give the same outcome, the same array or the same error. *)
Theorem getSortedDifficultyNames_permutation (rows rows' : list difficulties.t) (modID : Z) :
  ordersDistinct rows ->
  Permutation rows rows' ->
  getSortedDifficultyNames rows' modID = getSortedDifficultyNames rows modID.
Proof.
  intros Hdistinct Hperm. rewrite !getSortedDifficultyNames_eq.
  assert (Hcount : length (parentRows rows') = length (parentRows rows)).
  { symmetry. apply Permutation_length. now apply filter_permutation. }
  rewrite Hcount.
  assert (Hmap : map (formatEntry rows') (seqZ 1 (length (parentRows rows))) =
                 map (formatEntry rows) (seqZ 1 (length (parentRows rows)))).
  { apply map_ext. intros parentOrder. now apply formatEntry_permutation. }
  now rewrite Hmap.
Qed.

Lemma getSortedDifficultyNames_permutation_witness :
  getSortedDifficultyNames exampleRowsShuffled 7 =
  getSortedDifficultyNames (exampleRows 11 12 13 14) 7.
Proof.
  apply (getSortedDifficultyNames_permutation (exampleRows 11 12 13 14) exampleRowsShuffled 7).
  - intros x y Hx Hy Hparent Horder. unfold exampleRows in Hx, Hy.
    destruct Hx as [<- | [<- | [<- | [<- | []]]]];
      destruct Hy as [<- | [<- | [<- | [<- | []]]]];
      try reflexivity; discriminate.
  - unfold exampleRows, exampleRowsShuffled.
    apply Permutation_sym.
    apply Permutation_trans with
      ([difficulties.mk 13 "Medium+" 1 (Some 12)] ++
       [difficulties.mk 14 "Hard" 3 None; difficulties.mk 12 "Medium" 2 None;
        difficulties.mk 11 "Easy" 1 None]); [apply Permutation_refl|].
    apply Permutation_sym.
    apply Permutation_trans with
      ([difficulties.mk 11 "Easy" 1 None; difficulties.mk 12 "Medium" 2 None] ++
       difficulties.mk 13 "Medium+" 1 (Some 12) :: [difficulties.mk 14 "Hard" 3 None]);
      [apply Permutation_refl|].
    apply Permutation_sym. apply Permutation_cons_app. simpl.
    apply Permutation_trans with
      ([difficulties.mk 14 "Hard" 3 None] ++
       [difficulties.mk 12 "Medium" 2 None; difficulties.mk 11 "Easy" 1 None]);
      [apply Permutation_refl|].
    apply Permutation_sym.
    apply Permutation_trans with
      ([difficulties.mk 11 "Easy" 1 None; difficulties.mk 12 "Medium" 2 None] ++
       difficulties.mk 14 "Hard" 3 None :: []); [apply Permutation_refl|].
    apply Permutation_sym. apply Permutation_cons_app. rewrite app_nil_r.
    apply perm_swap.
Defined.

(** ** The canonical difficulty of a map *)

Lemma canonicalNameLoop_inr (parents : list difficulties.t) (name : string) (id : Z) :
  canonicalNameLoop parents name = inr id ->
  exists parent,
    In parent parents /\ difficulties.name parent = name /\ difficulties.id parent = id.
Proof.
  induction parents as [|parent rest IH]; simpl; [discriminate|].
  destruct (String.eqb (difficulties.name parent) name) eqn:Hname.
  - intros H. injection H as <-. apply String.eqb_eq in Hname. exists parent. auto.
  - intros H. destruct (IH H) as (found & Hin & Hfound). exists found. auto.
Qed.

Lemma canonicalNameLoop_unknown (parents : list difficulties.t) (name : string) :
  (forall parent, In parent parents -> difficulties.name parent <> name) ->
  canonicalNameLoop parents name = inl (ThrowString canonicalDifficultyNameErrorMessage).
Proof.
  induction parents as [|parent rest IH]; intros Hunknown; simpl; [reflexivity|].
  destruct (String.eqb (difficulties.name parent) name) eqn:Hname.
  - apply String.eqb_eq in Hname. exfalso. apply (Hunknown parent); simpl; auto.
  - apply IH. intros p Hp. apply Hunknown. now right.
Qed.

(** X7. A named canonical difficulty: when the request names one (a
    non-empty string), [techAny] plays no part; an id that is returned is the
    id of a default parent difficulty with that name, and a name that no
    default parent difficulty has makes the call throw
    [canonicalDifficultyNameErrorMessage]. *)
Theorem getCanonicalDifficultyID_named (prisma : prismaReads) (name : string)
    (techAny : option (list string)) :
  name <> "" ->
  getCanonicalDifficultyID prisma (Some name) techAny =
  getCanonicalDifficultyID prisma (Some name) None /\
  (forall id,
      getCanonicalDifficultyID prisma (Some name) techAny = inr id ->
      exists parent,
        In parent (parentDefaultDifficultyObjectsArray prisma) /\
        difficulties.name parent = name /\ difficulties.id parent = id) /\
  ((forall parent,
       In parent (parentDefaultDifficultyObjectsArray prisma) ->
       difficulties.name parent <> name) ->
   getCanonicalDifficultyID prisma (Some name) techAny =
   inl (ThrowString canonicalDifficultyNameErrorMessage)).
Proof.
  intros Hname. unfold getCanonicalDifficultyID, truthyString.
  apply String.eqb_neq in Hname. rewrite Hname.
  split; [reflexivity|]. split.
  - intros id. apply canonicalNameLoop_inr.
  - apply canonicalNameLoop_unknown.
Qed.

Lemma getCanonicalDifficultyID_named_witness :
  getCanonicalDifficultyID samplePrismaTech (Some "Advanced") (Some ["Jump"]) =
  getCanonicalDifficultyID samplePrismaTech (Some "Advanced") None /\
  (forall id,
      getCanonicalDifficultyID samplePrismaTech (Some "Advanced") (Some ["Jump"]) = inr id ->
      exists parent,
        In parent (parentDefaultDifficultyObjectsArray samplePrismaTech) /\
        difficulties.name parent = "Advanced" /\ difficulties.id parent = id) /\
  ((forall parent,
       In parent (parentDefaultDifficultyObjectsArray samplePrismaTech) ->
       difficulties.name parent <> "Advanced") ->
   getCanonicalDifficultyID samplePrismaTech (Some "Advanced") (Some ["Jump"]) =
   inl (ThrowString canonicalDifficultyNameErrorMessage)).
Proof.
  apply (getCanonicalDifficultyID_named samplePrismaTech "Advanced" (Some ["Jump"])).
  discriminate.
Defined.

Lemma easiestLoop_inr (parents : list difficulties.t) :
  forall easiestDifficultyID easiestDifficultyOrder id order,
    easiestLoop parents easiestDifficultyID easiestDifficultyOrder = inr (id, order) ->
    (forall parent, In parent parents -> order <= difficulties.order parent) /\
    ((id, order) = (easiestDifficultyID, easiestDifficultyOrder) \/
     exists parent,
       In parent parents /\ difficulties.id parent = id /\
       difficulties.order parent = order /\ order < easiestDifficultyOrder).
Proof.
  induction parents as [|parent rest IH]; intros id0 order0 id order; simpl.
  - intros H. injection H as <- <-. split; [intros p [] | now left].
  - destruct (difficulties.order parent =? order0) eqn:Hequal; [discriminate|].
    apply Z.eqb_neq in Hequal.
    destruct (difficulties.order parent <? order0) eqn:Hless.
    + apply Z.ltb_lt in Hless. intros H.
      destruct (IH _ _ _ _ H) as [Hleast Hchosen].
      assert (Hhead : order <= difficulties.order parent).
      { destruct Hchosen as [Hsame | (p & _ & _ & _ & Hp)];
          [injection Hsame as _ ->; lia | lia]. }
      split.
      * intros p [<- | Hp]; [exact Hhead | now apply Hleast].
      * right. destruct Hchosen as [Hsame | (p & Hin & Hid & Horder & Hp)].
        { injection Hsame as -> ->. exists parent. simpl. auto. }
        { exists p. simpl. repeat split; auto. lia. }
    + apply Z.ltb_ge in Hless. intros H.
      destruct (IH _ _ _ _ H) as [Hleast Hchosen].
      assert (Hbound : order <= order0).
      { destruct Hchosen as [Hsame | (p & _ & _ & _ & Hp)];
          [injection Hsame as _ ->; lia | lia]. }
      split.
      * intros p [<- | Hp]; [lia | now apply Hleast].
      * destruct Hchosen as [Hsame | (p & Hin & Hid & Horder & Hp)]; [now left|].
        right. exists p. simpl. auto.
Qed.

(** X8. The easiest difficulty: without a canonical difficulty name and
    without [techAny], an id that is returned is not 0 and is the id of a
    default parent difficulty whose order is below 99999 and is the least
    order of all default parent difficulties; with no default parent
    difficulty the call throws. *)
Theorem getCanonicalDifficultyID_easiest (prisma : prismaReads)
    (canonicalDifficultyName : option string) :
  truthyString canonicalDifficultyName = None ->
  (parentDefaultDifficultyObjectsArray prisma = [] ->
   getCanonicalDifficultyID prisma canonicalDifficultyName None =
   inl (ThrowString "Unable to find easiest parent default difficulty")) /\
  forall id,
    getCanonicalDifficultyID prisma canonicalDifficultyName None = inr id ->
    id <> 0 /\
    exists parent,
      In parent (parentDefaultDifficultyObjectsArray prisma) /\
      difficulties.id parent = id /\
      difficulties.order parent < 99999 /\
      forall other,
        In other (parentDefaultDifficultyObjectsArray prisma) ->
        difficulties.order parent <= difficulties.order other.
Proof.
  intros Hname. unfold getCanonicalDifficultyID. rewrite Hname. split.
  - intros ->. reflexivity.
  - intros id Hresult.
    apply bind_inr in Hresult. destruct Hresult as ([found order] & Hloop & Hreturn).
    destruct (found =? 0) eqn:Hzero; [discriminate|].
    injection Hreturn as <-. apply Z.eqb_neq in Hzero.
    split; [exact Hzero|].
    destruct (easiestLoop_inr _ _ _ _ _ Hloop) as [Hleast Hchosen].
    destruct Hchosen as [Hsame | (parent & Hin & Hid & Horder & Hbound)].
    + injection Hsame as -> _. now contradiction Hzero.
    + exists parent. repeat split; auto; try lia.
      intros other Hother. rewrite Horder. now apply Hleast.
Qed.

Lemma getCanonicalDifficultyID_easiest_witness :
  (parentDefaultDifficultyObjectsArray samplePrismaTech = [] ->
   getCanonicalDifficultyID samplePrismaTech None None =
   inl (ThrowString "Unable to find easiest parent default difficulty")) /\
  forall id,
    getCanonicalDifficultyID samplePrismaTech None None = inr id ->
    id <> 0 /\
    exists parent,
      In parent (parentDefaultDifficultyObjectsArray samplePrismaTech) /\
      difficulties.id parent = id /\
      difficulties.order parent < 99999 /\
      forall other,
        In other (parentDefaultDifficultyObjectsArray samplePrismaTech) ->
        difficulties.order parent <= difficulties.order other.
Proof.
  apply (getCanonicalDifficultyID_easiest samplePrismaTech None). reflexivity.
Defined.

Lemma findTech_In (techObjects : list tech_list.t) (techName : string)
    (techObject : tech_list.t) :
  findTech techObjects techName = Some techObject ->
  In techObject techObjects /\ tech_list.name techObject = techName.
Proof.
  induction techObjects as [|first rest IH]; simpl; [discriminate|].
  destruct (String.eqb (tech_list.name first) techName) eqn:Hname.
  - intros H. injection H as <-. apply String.eqb_eq in Hname. auto.
  - intros H. destruct (IH H). auto.
Qed.

Lemma highestLoop_inr (techObjects : list tech_list.t) (techAny : list string) :
  forall highestDifficultyID highestDifficultyOrder id order,
    highestLoop techAny techObjects highestDifficultyID highestDifficultyOrder
    = inr (id, order) ->
    highestDifficultyOrder <= order /\
    (forall techName,
        In techName techAny ->
        exists techObject,
          findTech techObjects techName = Some techObject /\
          difficulties.order (tech_list.difficulties techObject) <= order) /\
    ((id, order) = (highestDifficultyID, highestDifficultyOrder) \/
     exists techName techObject,
       In techName techAny /\
       findTech techObjects techName = Some techObject /\
       tech_list.defaultDifficultyID techObject = id /\
       difficulties.order (tech_list.difficulties techObject) = order /\
       highestDifficultyOrder < order).
Proof.
  induction techAny as [|techName rest IH]; intros id0 order0 id order; simpl.
  - intros H. injection H as <- <-. split; [lia|]. split; [intros n [] | now left].
  - destruct (findTech techObjects techName) as [techObject|] eqn:Hfind; [|discriminate].
    destruct (difficulties.order (tech_list.difficulties techObject) =? order0) eqn:Hequal;
      [discriminate|].
    apply Z.eqb_neq in Hequal.
    destruct (difficulties.order (tech_list.difficulties techObject) >? order0) eqn:Hmore.
    + apply Z.gtb_lt in Hmore. intros H.
      destruct (IH _ _ _ _ H) as (Hbound & Hknown & Hchosen).
      split; [lia|]. split.
      * intros n [<- | Hn]; [|now apply Hknown].
        exists techObject. split; [exact Hfind | lia].
      * right. destruct Hchosen as [Hsame | (n & t & Hin & Ht & Hid & Horder & Hlt)].
        { injection Hsame as -> ->. exists techName, techObject.
          simpl. repeat split; auto. }
        { exists n, t. simpl. repeat split; auto. lia. }
    + assert (Hle : difficulties.order (tech_list.difficulties techObject) < order0).
      { destruct (Z.gtb_spec (difficulties.order (tech_list.difficulties techObject)) order0);
          [discriminate | lia]. }
      intros H.
      destruct (IH _ _ _ _ H) as (Hbound & Hknown & Hchosen).
      split; [lia|]. split.
      * intros n [<- | Hn]; [|now apply Hknown].
        exists techObject. split; [exact Hfind | lia].
      * destruct Hchosen as [Hsame | (n & t & Hin & Ht & Hid & Horder & Hlt)]; [now left|].
        right. exists n, t. simpl. repeat split; auto.
Qed.

(** X9. The difficulty of the hardest tech: without a canonical difficulty
    name and with [techAny], an id that is returned is not 0; every name in
    [techAny] is then the name of a tech object, and the id is the
    [defaultDifficultyID] of the tech object of one of them, whose
    difficulty has a positive order that no tech named in [techAny]
    exceeds. *)
Theorem getCanonicalDifficultyID_hardest_tech (prisma : prismaReads)
    (canonicalDifficultyName : option string) (techAny : list string) (id : Z) :
  truthyString canonicalDifficultyName = None ->
  getCanonicalDifficultyID prisma canonicalDifficultyName (Some techAny) = inr id ->
  id <> 0 /\
  (forall techName,
      In techName techAny ->
      exists techObject,
        In techObject (techObjectsWithDifficultyObjectsArray prisma) /\
        tech_list.name techObject = techName) /\
  exists techName techObject,
    In techName techAny /\
    findTech (techObjectsWithDifficultyObjectsArray prisma) techName = Some techObject /\
    tech_list.defaultDifficultyID techObject = id /\
    0 < difficulties.order (tech_list.difficulties techObject) /\
    forall otherName other,
      In otherName techAny ->
      findTech (techObjectsWithDifficultyObjectsArray prisma) otherName = Some other ->
      difficulties.order (tech_list.difficulties other) <=
      difficulties.order (tech_list.difficulties techObject).
Proof.
  intros Hname Hresult. unfold getCanonicalDifficultyID in Hresult.
  rewrite Hname in Hresult.
  apply bind_inr in Hresult. destruct Hresult as ([found order] & Hloop & Hreturn).
  destruct (found =? 0) eqn:Hzero; [discriminate|].
  injection Hreturn as <-. apply Z.eqb_neq in Hzero.
  destruct (highestLoop_inr _ _ _ _ _ _ Hloop) as (_ & Hknown & Hchosen).
  split; [exact Hzero|]. split.
  - intros techName Hin. destruct (Hknown techName Hin) as (techObject & Hfind & _).
    exists techObject. now apply findTech_In.
  - destruct Hchosen as [Hsame | (techName & techObject & Hin & Hfind & Hid & Horder & Hlt)].
    + injection Hsame as -> _. now contradiction Hzero.
    + exists techName, techObject. repeat split; auto; try lia.
      intros otherName other Hother Hfound.
      destruct (Hknown otherName Hother) as (other' & Hfound' & Hle).
      rewrite Hfound in Hfound'. injection Hfound' as <-. lia.
Qed.

Lemma getCanonicalDifficultyID_hardest_tech_witness :
  3 <> 0 /\
  (forall techName,
      In techName ["Jump"; "Cornerboost"; "Wavedash"] ->
      exists techObject,
        In techObject (techObjectsWithDifficultyObjectsArray samplePrismaTech) /\
        tech_list.name techObject = techName) /\
  exists techName techObject,
    In techName ["Jump"; "Cornerboost"; "Wavedash"] /\
    findTech (techObjectsWithDifficultyObjectsArray samplePrismaTech) techName
    = Some techObject /\
    tech_list.defaultDifficultyID techObject = 3 /\
    0 < difficulties.order (tech_list.difficulties techObject) /\
    forall otherName other,
      In otherName ["Jump"; "Cornerboost"; "Wavedash"] ->
      findTech (techObjectsWithDifficultyObjectsArray samplePrismaTech) otherName
      = Some other ->
      difficulties.order (tech_list.difficulties other) <=
      difficulties.order (tech_list.difficulties techObject).
Proof.
  apply (getCanonicalDifficultyID_hardest_tech samplePrismaTech None
           ["Jump"; "Cornerboost"; "Wavedash"] 3); reflexivity.
Defined.

(** ** What the validator leaves of the creation object *)

Lemma strictEqualName_Some (name : string) (other : option string) :
  strictEqualName (Some name) other = true -> other = Some name.
Proof.
  destruct other as [o|]; simpl; [|discriminate].
  intros H. apply String.eqb_eq in H. now subst.
Qed.

Lemma defaultChildLoop_Some (children : list difficulties.t) (claimed1 : option string)
    (id : Z) :
  defaultChildLoop children claimed1 = Some id ->
  exists child,
    In child children /\ claimed1 = Some (difficulties.name child) /\
    difficulties.id child = id.
Proof.
  induction children as [|child rest IH]; cbn [defaultChildLoop]; [discriminate|].
  destruct (strictEqualName (Some (difficulties.name child)) claimed1) eqn:Hname.
  - intros H. injection H as <-. apply strictEqualName_Some in Hname.
    exists child. simpl. auto.
  - intros H. destruct (IH H) as (found & Hin & Hfound). exists found. simpl. auto.
Qed.

Lemma defaultDifficultyLoop_Some (defaultDifficultyObjectsArray : list defaultDifficultyForMod.t)
    (claimed : list string) (id : Z) :
  defaultDifficultyLoop defaultDifficultyObjectsArray claimed = Some id ->
  exists parent children child,
    In parent defaultDifficultyObjectsArray /\
    defaultDifficultyForMod.other_difficulties parent = Some children /\
    In child children /\
    nth_error claimed 0 = Some (defaultDifficultyForMod.name parent) /\
    nth_error claimed 1 = Some (difficulties.name child) /\
    difficulties.id child = id.
Proof.
  induction defaultDifficultyObjectsArray as [|parent rest IH];
    cbn [defaultDifficultyLoop]; [discriminate|].
  assert (Hrest : defaultDifficultyLoop rest claimed = Some id ->
                  exists parent0 children child,
                    In parent0 (parent :: rest) /\
                    defaultDifficultyForMod.other_difficulties parent0 = Some children /\
                    In child children /\
                    nth_error claimed 0 = Some (defaultDifficultyForMod.name parent0) /\
                    nth_error claimed 1 = Some (difficulties.name child) /\
                    difficulties.id child = id).
  { intros H. destruct (IH H) as (p & cs & c & Hin & Hfound).
    exists p, cs, c. simpl. auto. }
  destruct (defaultDifficultyForMod.other_difficulties parent) as [[|first others]|] eqn:Hother;
    try exact Hrest.
  destruct (strictEqualName (Some (defaultDifficultyForMod.name parent))
              (nth_error claimed 0)) eqn:Hname; [|exact Hrest].
  intros H. apply strictEqualName_Some in Hname.
  destruct (defaultChildLoop_Some _ _ _ H) as (child & Hin & Hchild & Hid).
  exists parent, (first :: others), child. simpl. auto 10.
Qed.

(** A call that returns has a claimed difficulty, and changed the first
    element of [map_details.create] by the overall rank of a Contest mod and
    by the difficulty it connected; it connects none for a mod with custom
    difficulties. *)
Lemma handleNonNormalMods_inr
    (object object' : mapIdCreationObject) (details : mapDetailsCreationObject.t)
    (others : list mapDetailsCreationObject.t)
    (modType : mods_details_type) (overallRank : option Z)
    (modDifficulty : option stringOrArray)
    (customDifficultiesArray : list createParentDifficultyForMod.t)
    (defaultDifficultyObjectsArray : list defaultDifficultyForMod.t)
    (modUsesCustomDifficultiesBool modHasSubDifficultiesBool : bool) :
  map_details_create object = details :: others ->
  handleNonNormalMods object modType overallRank modDifficulty customDifficultiesArray
    defaultDifficultyObjectsArray modUsesCustomDifficultiesBool modHasSubDifficultiesBool
  = inr object' ->
  exists connected,
    map_details_create object' = afterNonNormal modType overallRank connected details :: others /\
    (modUsesCustomDifficultiesBool = true -> connected = None) /\
    (modUsesCustomDifficultiesBool = false ->
     exists claimed,
       modDifficulty = Some (Arr claimed) /\
       connected = defaultDifficultyLoop defaultDifficultyObjectsArray claimed).
Proof.
  intros Hcreate Hcall. unfold handleNonNormalMods in Hcall.
  apply bind_inr in Hcall. destruct Hcall as ([object1 valid] & Hbody & Hret).
  injection Hret as <-. unfold handleNonNormalModsBody in Hbody.
  apply bind_inr in Hbody. destruct Hbody as (object0 & Hrank & Hrest).
  assert (Hcreate0 : map_details_create object0 =
                     (if isContest modType
                      then mapDetailsCreationObject.set_overallRank overallRank details
                      else details) :: others).
  { destruct (isContest modType).
    - unfold assignCreate0 in Hrank. rewrite Hcreate in Hrank. now injection Hrank as <-.
    - now injection Hrank as <-. }
  unfold truthyModDifficulty in Hrest.
  destruct modDifficulty as [[s|a]|]; [| |discriminate].
  - destruct (String.eqb s ""); [discriminate|].
    destruct modUsesCustomDifficultiesBool.
    + destruct customDifficultiesArray as [|difficulty rest]; [discriminate|].
      destruct modHasSubDifficultiesBool; [discriminate|].
      apply bind_inr in Hrest. destruct Hrest as (valid' & _ & Hret).
      injection Hret as <- _. exists None. unfold afterNonNormal.
      split; [exact Hcreate0|]. split; [reflexivity | discriminate].
    + destruct defaultDifficultyObjectsArray; discriminate.
  - destruct modUsesCustomDifficultiesBool.
    + destruct customDifficultiesArray as [|difficulty rest]; [discriminate|].
      destruct modHasSubDifficultiesBool.
      * injection Hrest as <- _. exists None. unfold afterNonNormal.
        split; [exact Hcreate0|]. split; [reflexivity | discriminate].
      * discriminate.
    + destruct defaultDifficultyObjectsArray as [|difficulty rest]; [discriminate|].
      destruct (defaultDifficultyLoop (difficulty :: rest) a) as [childID|] eqn:Hloop.
      * apply bind_inr in Hrest. destruct Hrest as (object2 & Hassign & Hret).
        injection Hret as <- _. exists (Some childID). unfold afterNonNormal.
        unfold assignCreate0 in Hassign. rewrite Hcreate0 in Hassign.
        injection Hassign as <-.
        split; [reflexivity|]. split; [discriminate|].
        intros _. exists a. now rewrite Hloop.
      * injection Hrest as <- _. exists None. unfold afterNonNormal.
        split; [exact Hcreate0|]. split; [reflexivity|].
        intros _. exists a. now rewrite Hloop.
Qed.

(** X10. A mod with custom difficulties: a call that returns has only
    assigned the overall rank, and that for a Contest mod; the difficulty the
    map claims is connected to nothing, and the rest of the creation object
    is as it was. *)
Theorem handleNonNormalMods_custom_connects_nothing
    (object object' : mapIdCreationObject) (details : mapDetailsCreationObject.t)
    (others : list mapDetailsCreationObject.t)
    (modType : mods_details_type) (overallRank : option Z)
    (modDifficulty : option stringOrArray)
    (customDifficultiesArray : list createParentDifficultyForMod.t)
    (defaultDifficultyObjectsArray : list defaultDifficultyForMod.t)
    (modHasSubDifficultiesBool : bool) :
  map_details_create object = details :: others ->
  handleNonNormalMods object modType overallRank modDifficulty customDifficultiesArray
    defaultDifficultyObjectsArray true modHasSubDifficultiesBool = inr object' ->
  object' =
  mkMapId ((if isContest modType
            then mapDetailsCreationObject.set_overallRank overallRank details
            else details) :: others) /\
  match map_details_create object' with
  | first :: _ =>
      mapDetailsCreationObject.difficulties_difficultiesTomaps_details_modDifficultyID first =
      mapDetailsCreationObject.difficulties_difficultiesTomaps_details_modDifficultyID details
  | [] => False
  end.
Proof.
  intros Hcreate Hcall.
  destruct (handleNonNormalMods_inr _ _ _ _ _ _ _ _ _ _ _ Hcreate Hcall)
    as (connected & Hcreate' & Hcustom & _).
  rewrite (Hcustom eq_refl) in Hcreate'. unfold afterNonNormal in Hcreate'.
  split.
  - destruct object' as [create']. simpl in Hcreate'. now rewrite Hcreate'.
  - rewrite Hcreate'. now destruct (isContest modType).
Qed.

Lemma handleNonNormalMods_custom_connects_nothing_witness :
  mkMapId [mapDetailsCreationObject.set_overallRank (Some 3) sampleDetails] =
  mkMapId ((if isContest Contest
            then mapDetailsCreationObject.set_overallRank (Some 3) sampleDetails
            else sampleDetails) :: []) /\
  match map_details_create
          (mkMapId [mapDetailsCreationObject.set_overallRank (Some 3) sampleDetails]) with
  | first :: _ =>
      mapDetailsCreationObject.difficulties_difficultiesTomaps_details_modDifficultyID first =
      mapDetailsCreationObject.difficulties_difficultiesTomaps_details_modDifficultyID
        sampleDetails
  | [] => False
  end.
Proof.
  apply (handleNonNormalMods_custom_connects_nothing sampleObject _ sampleDetails []
           Contest (Some 3) (Some (Arr ["Medium"; "Medium+"])) sampleCustomDifficulties []
           true);
    reflexivity.
Defined.

(** X11. A mod on the default tree: a call that returns was given an array,
    and a difficulty it connects (one that was not connected before) is the
    id of a child, named by element 1 of the array, of a default difficulty
    with children that is named by element 0. *)
Theorem handleNonNormalMods_default_connects_child
    (object object' : mapIdCreationObject) (details : mapDetailsCreationObject.t)
    (others : list mapDetailsCreationObject.t)
    (modType : mods_details_type) (overallRank : option Z)
    (modDifficulty : option stringOrArray)
    (customDifficultiesArray : list createParentDifficultyForMod.t)
    (defaultDifficultyObjectsArray : list defaultDifficultyForMod.t)
    (modHasSubDifficultiesBool : bool) :
  map_details_create object = details :: others ->
  mapDetailsCreationObject.difficulties_difficultiesTomaps_details_modDifficultyID details
  = None ->
  handleNonNormalMods object modType overallRank modDifficulty customDifficultiesArray
    defaultDifficultyObjectsArray false modHasSubDifficultiesBool = inr object' ->
  exists claimed first,
    modDifficulty = Some (Arr claimed) /\
    map_details_create object' = first :: others /\
    forall id,
      mapDetailsCreationObject.difficulties_difficultiesTomaps_details_modDifficultyID first
      = Some id ->
      exists parent children child,
        In parent defaultDifficultyObjectsArray /\
        defaultDifficultyForMod.other_difficulties parent = Some children /\
        In child children /\
        nth_error claimed 0 = Some (defaultDifficultyForMod.name parent) /\
        nth_error claimed 1 = Some (difficulties.name child) /\
        difficulties.id child = id.
Proof.
  intros Hcreate Hunset Hcall.
  destruct (handleNonNormalMods_inr _ _ _ _ _ _ _ _ _ _ _ Hcreate Hcall)
    as (connected & Hcreate' & _ & Hdefault).
  destruct (Hdefault eq_refl) as (claimed & Hclaimed & Hconnected).
  exists claimed, (afterNonNormal modType overallRank connected details).
  split; [exact Hclaimed|]. split; [exact Hcreate'|].
  intros id Hid. apply defaultDifficultyLoop_Some. rewrite <- Hconnected.
  unfold afterNonNormal in Hid.
  destruct connected as [childID|]; destruct (isContest modType); simpl in Hid;
    congruence.
Qed.

Lemma handleNonNormalMods_default_connects_child_witness :
  exists claimed first,
    Some (Arr ["Intermediate"; "High"]) = Some (Arr claimed) /\
    map_details_create
      (mkMapId [mapDetailsCreationObject.set_modDifficultyID 7 sampleDetails])
    = first :: [] /\
    forall id,
      mapDetailsCreationObject.difficulties_difficultiesTomaps_details_modDifficultyID first
      = Some id ->
      exists parent children child,
        In parent sampleDefaultDifficulties /\
        defaultDifficultyForMod.other_difficulties parent = Some children /\
        In child children /\
        nth_error claimed 0 = Some (defaultDifficultyForMod.name parent) /\
        nth_error claimed 1 = Some (difficulties.name child) /\
        difficulties.id child = id.
Proof.
  apply (handleNonNormalMods_default_connects_child sampleObject _ sampleDetails []
           Collab None (Some (Arr ["Intermediate"; "High"])) [] sampleDefaultDifficulties
           true);
    reflexivity.
Defined.

(** X12. A map without a difficulty: when the creation object has its map
    details and [modDifficulty] is [undefined] or the empty string, the call
    throws the invalid-map-difficulty message, for a custom tree and for the
    default tree alike, before either list is looked at. *)
Theorem handleNonNormalMods_missing_difficulty
    (object : mapIdCreationObject) (modType : mods_details_type) (overallRank : option Z)
    (modDifficulty : option stringOrArray)
    (customDifficultiesArray : list createParentDifficultyForMod.t)
    (defaultDifficultyObjectsArray : list defaultDifficultyForMod.t)
    (modUsesCustomDifficultiesBool modHasSubDifficultiesBool : bool) :
  map_details_create object <> [] ->
  modDifficulty = None \/ modDifficulty = Some (Str "") ->
  handleNonNormalMods object modType overallRank modDifficulty customDifficultiesArray
    defaultDifficultyObjectsArray modUsesCustomDifficultiesBool modHasSubDifficultiesBool
  = inl (ThrowString invalidMapDifficultyErrorMessage).
Proof.
  intros Hcreate Hmissing.
  unfold handleNonNormalMods, handleNonNormalModsBody.
  assert (Hfirst : exists object',
             (if isContest modType
              then assignCreate0 (mapDetailsCreationObject.set_overallRank overallRank) object
              else ret object) = inr object').
  { destruct (isContest modType).
    - destruct (assignCreate0_nonempty
                  (mapDetailsCreationObject.set_overallRank overallRank) object Hcreate)
        as (object' & H & _). now exists object'.
    - now exists object. }
  destruct Hfirst as (object' & ->).
  destruct Hmissing as [-> | ->]; reflexivity.
Qed.

Lemma handleNonNormalMods_missing_difficulty_witness :
  handleNonNormalMods sampleObject Contest (Some 3) None [] [] false true
  = inl (ThrowString invalidMapDifficultyErrorMessage).
Proof.
  apply handleNonNormalMods_missing_difficulty; [discriminate | now left].
Defined.

(** ** The map creation object, field by field *)

(** A creation object that is returned holds one record, the one
    [creationDetails] describes; the canonical difficulty was found, the
    length was found with an id other than 0, and a mapper given by id
    exists. *)
Lemma getMapIdCreationObject_inr
    (submittingUser : submitterUser.t) (prisma : prismaReads)
    (mapObject : jsonCreateMapWithMod.t) (currentTime : Z) (modType : mods_details_type)
    (lengthObjectArray : list map_lengths.t)
    (customDifficultiesArray : list createParentDifficultyForMod.t)
    (defaultDifficultyObjectsArray : list defaultDifficultyForMod.t)
    (modUsesCustomDifficultiesBool modHasSubDifficultiesBool : bool)
    (object : mapIdCreationObject) :
  getMapIdCreationObject submittingUser prisma mapObject currentTime modType
    lengthObjectArray customDifficultiesArray defaultDifficultyObjectsArray
    modUsesCustomDifficultiesBool modHasSubDifficultiesBool = inr object ->
  exists canonicalDifficultyID connected,
    getCanonicalDifficultyID prisma (jsonCreateMapWithMod.canonicalDifficulty mapObject)
      (jsonCreateMapWithMod.techAny mapObject) = inr canonicalDifficultyID /\
    findLengthID lengthObjectArray (jsonCreateMapWithMod.length mapObject) <> 0 /\
    (forall mapperUserID,
        truthyNumber (jsonCreateMapWithMod.mapperUserID mapObject) = Some mapperUserID ->
        users_findUnique prisma mapperUserID = true) /\
    (isNormal modType = true \/ modUsesCustomDifficultiesBool = true -> connected = None) /\
    (isNormal modType = false -> modUsesCustomDifficultiesBool = false ->
     exists claimed,
       jsonCreateMapWithMod.modDifficulty mapObject = Some (Arr claimed) /\
       connected = defaultDifficultyLoop defaultDifficultyObjectsArray claimed) /\
    object =
    mkMapId
      [creationDetails submittingUser mapObject currentTime modType canonicalDifficultyID
         (findLengthID lengthObjectArray (jsonCreateMapWithMod.length mapObject)) connected].
Proof.
  intros Hcall. unfold getMapIdCreationObject in Hcall.
  apply bind_inr in Hcall. destruct Hcall as (canonicalDifficultyID & Hcanonical & Hcall).
  destruct (findLengthID lengthObjectArray (jsonCreateMapWithMod.length mapObject) =? 0)
    eqn:Hlength; [discriminate|].
  apply Z.eqb_neq in Hlength.
  rewrite privilegedUser_eq in Hcall.
  apply bind_inr in Hcall. destruct Hcall as (privileged & Hprivileged & Hcall).
  injection Hprivileged as <-.
  apply bind_inr in Hcall. destruct Hcall as (object1 & Hstep1 & Hcall).
  apply bind_inr in Hcall. destruct Hcall as (object2 & Hstep2 & Hcall).
  apply bind_inr in Hcall. destruct Hcall as (object3 & Hstep3 & Hcall).
  unfold creationDetails.
  destruct (permLoop (submitterUser.permissionsArray submittingUser));
    cbn [assignCreate0 map_details_create ret] in Hstep1; injection Hstep1 as <-.
  all: assert (Hmapper : forall mapperUserID,
                  truthyNumber (jsonCreateMapWithMod.mapperUserID mapObject)
                  = Some mapperUserID ->
                  users_findUnique prisma mapperUserID = true)
         by (intros m Hm; rewrite Hm in Hstep2;
             destruct (users_findUnique prisma m); [reflexivity | discriminate]).
  all: destruct (truthyNumber (jsonCreateMapWithMod.mapperUserID mapObject)) as [mapper|];
    [ rewrite (Hmapper mapper eq_refl) in Hstep2
    | destruct (truthyString (jsonCreateMapWithMod.mapperNameString mapObject)) ];
    cbn [assignCreate0 map_details_create ret] in Hstep2; injection Hstep2 as <-.
  all: destruct (isNormal modType) eqn:Hnormal;
    [ cbn [assignCreate0 map_details_create ret] in Hstep3; injection Hstep3 as <-;
      assert (Hcontest : isContest modType = false) by (now destruct modType);
      rewrite Hcontest;
      exists canonicalDifficultyID, None;
      split; [exact Hcanonical|]; split; [exact Hlength|]; split; [exact Hmapper|];
      split; [reflexivity|]; split; [discriminate|];
      destruct (jsonCreateMapWithMod.techAny mapObject),
        (jsonCreateMapWithMod.techFC mapObject);
      cbn [assignCreate0 map_details_create ret] in Hcall; injection Hcall as <-;
      reflexivity
    | ].
  all: eapply handleNonNormalMods_inr in Hstep3; [|reflexivity];
    destruct Hstep3 as (connected & Hcreate3 & Hcustom & Hdefault);
    exists canonicalDifficultyID, connected;
    split; [exact Hcanonical|]; split; [exact Hlength|]; split; [exact Hmapper|];
    split; [intros [Habsurd | Hc]; [discriminate | now apply Hcustom]|];
    split; [intros _ Hc; now apply Hdefault|];
    destruct object3 as [create3]; cbn [map_details_create] in Hcreate3; subst create3;
    unfold afterNonNormal in Hcall;
    destruct (isContest modType), connected,
      (jsonCreateMapWithMod.techAny mapObject), (jsonCreateMapWithMod.techFC mapObject);
    cbn [assignCreate0 map_details_create ret] in Hcall; injection Hcall as <-;
    reflexivity.
Qed.

Lemma findLengthID_found (lengthObjectArray : list map_lengths.t) (lengthName : string) :
  findLengthID lengthObjectArray lengthName <> 0 ->
  exists length,
    In length lengthObjectArray /\ map_lengths.name length = lengthName /\
    map_lengths.id length = findLengthID lengthObjectArray lengthName.
Proof.
  induction lengthObjectArray as [|length rest IH]; simpl; [intros H; now contradiction H|].
  destruct (String.eqb (map_lengths.name length) lengthName) eqn:Hname.
  - intros _. apply String.eqb_eq in Hname. exists length. auto.
  - intros H. destruct (IH H) as (found & Hin & Hfound). exists found. auto.
Qed.

Lemma findLengthID_unknown (lengthObjectArray : list map_lengths.t) (lengthName : string) :
  (forall length, In length lengthObjectArray -> map_lengths.name length <> lengthName) ->
  findLengthID lengthObjectArray lengthName = 0.
Proof.
  induction lengthObjectArray as [|length rest IH]; intros Hunknown; simpl; [reflexivity|].
  destruct (String.eqb (map_lengths.name length) lengthName) eqn:Hname.
  - apply String.eqb_eq in Hname. exfalso. apply (Hunknown length); simpl; auto.
  - apply IH. intros l Hl. apply Hunknown. now right.
Qed.

(** X13. What every creation object carries: one record, with the map's
    name, description, notes, minimum mod version and removed flag, the
    submission time, the submitting user as submitter, the canonical
    difficulty id that [getCanonicalDifficultyID] returns for the map, and as
    length an id other than 0 of a length that has the map's length name. *)
Theorem getMapIdCreationObject_base_fields
    (submittingUser : submitterUser.t) (prisma : prismaReads)
    (mapObject : jsonCreateMapWithMod.t) (currentTime : Z) (modType : mods_details_type)
    (lengthObjectArray : list map_lengths.t)
    (customDifficultiesArray : list createParentDifficultyForMod.t)
    (defaultDifficultyObjectsArray : list defaultDifficultyForMod.t)
    (modUsesCustomDifficultiesBool modHasSubDifficultiesBool : bool)
    (object : mapIdCreationObject) :
  getMapIdCreationObject submittingUser prisma mapObject currentTime modType
    lengthObjectArray customDifficultiesArray defaultDifficultyObjectsArray
    modUsesCustomDifficultiesBool modHasSubDifficultiesBool = inr object ->
  exists details,
    map_details_create object = [details] /\
    mapDetailsCreationObject.name details = jsonCreateMapWithMod.name mapObject /\
    mapDetailsCreationObject.description details = jsonCreateMapWithMod.description mapObject /\
    mapDetailsCreationObject.notes details = jsonCreateMapWithMod.notes mapObject /\
    mapDetailsCreationObject.minimumModVersion details =
    jsonCreateMapWithMod.minimumModVersion mapObject /\
    mapDetailsCreationObject.mapRemovedFromModBool details =
    jsonCreateMapWithMod.mapRemovedFromModBool mapObject /\
    mapDetailsCreationObject.timeSubmitted details = currentTime /\
    mapDetailsCreationObject.users_maps_details_submittedByTousers details =
    submitterUser.id submittingUser /\
    getCanonicalDifficultyID prisma (jsonCreateMapWithMod.canonicalDifficulty mapObject)
      (jsonCreateMapWithMod.techAny mapObject) =
    inr (mapDetailsCreationObject.canonicalDifficulty details) /\
    mapDetailsCreationObject.map_lengths details <> 0 /\
    exists length,
      In length lengthObjectArray /\
      map_lengths.name length = jsonCreateMapWithMod.length mapObject /\
      map_lengths.id length = mapDetailsCreationObject.map_lengths details.
Proof.
  intros Hcall.
  destruct (getMapIdCreationObject_inr _ _ _ _ _ _ _ _ _ _ _ Hcall)
    as (canonicalDifficultyID & connected & Hcanonical & Hlength & _ & _ & _ & ->).
  eexists. split; [reflexivity|]. cbn.
  repeat (split; [first [reflexivity | assumption]|]).
  now apply findLengthID_found.
Qed.

Lemma getMapIdCreationObject_base_fields_witness :
  exists details,
    map_details_create sampleCreated = [details] /\
    mapDetailsCreationObject.name details = jsonCreateMapWithMod.name sampleMap /\
    mapDetailsCreationObject.description details = jsonCreateMapWithMod.description sampleMap /\
    mapDetailsCreationObject.notes details = jsonCreateMapWithMod.notes sampleMap /\
    mapDetailsCreationObject.minimumModVersion details =
    jsonCreateMapWithMod.minimumModVersion sampleMap /\
    mapDetailsCreationObject.mapRemovedFromModBool details =
    jsonCreateMapWithMod.mapRemovedFromModBool sampleMap /\
    mapDetailsCreationObject.timeSubmitted details = 1700000000 /\
    mapDetailsCreationObject.users_maps_details_submittedByTousers details =
    submitterUser.id sampleModerator /\
    getCanonicalDifficultyID samplePrisma (jsonCreateMapWithMod.canonicalDifficulty sampleMap)
      (jsonCreateMapWithMod.techAny sampleMap) =
    inr (mapDetailsCreationObject.canonicalDifficulty details) /\
    mapDetailsCreationObject.map_lengths details <> 0 /\
    exists length,
      In length sampleLengths /\
      map_lengths.name length = jsonCreateMapWithMod.length sampleMap /\
      map_lengths.id length = mapDetailsCreationObject.map_lengths details.
Proof.
  apply (getMapIdCreationObject_base_fields sampleModerator samplePrisma sampleMap 1700000000
           Normal sampleLengths [] [] true true sampleCreated).
  reflexivity.
Defined.

(** X14. The mapper of a map: a creation object never has both a mapper
    connection and a mapper name. A mapper connection is the request's
    [mapperUserID], which is not 0 and is the id of a user; a mapper name is
    the request's non-empty [mapperNameString], taken only when the request
    has no [mapperUserID] or has 0. *)
Theorem getMapIdCreationObject_mapper
    (submittingUser : submitterUser.t) (prisma : prismaReads)
    (mapObject : jsonCreateMapWithMod.t) (currentTime : Z) (modType : mods_details_type)
    (lengthObjectArray : list map_lengths.t)
    (customDifficultiesArray : list createParentDifficultyForMod.t)
    (defaultDifficultyObjectsArray : list defaultDifficultyForMod.t)
    (modUsesCustomDifficultiesBool modHasSubDifficultiesBool : bool)
    (object : mapIdCreationObject) :
  getMapIdCreationObject submittingUser prisma mapObject currentTime modType
    lengthObjectArray customDifficultiesArray defaultDifficultyObjectsArray
    modUsesCustomDifficultiesBool modHasSubDifficultiesBool = inr object ->
  exists details,
    map_details_create object = [details] /\
    (mapDetailsCreationObject.users_maps_details_mapperUserIDTousers details = None \/
     mapDetailsCreationObject.mapperNameString details = None) /\
    (forall mapperUserID,
        mapDetailsCreationObject.users_maps_details_mapperUserIDTousers details
        = Some mapperUserID ->
        jsonCreateMapWithMod.mapperUserID mapObject = Some mapperUserID /\
        mapperUserID <> 0 /\
        users_findUnique prisma mapperUserID = true) /\
    (forall mapperNameString,
        mapDetailsCreationObject.mapperNameString details = Some mapperNameString ->
        jsonCreateMapWithMod.mapperNameString mapObject = Some mapperNameString /\
        mapperNameString <> "" /\
        (jsonCreateMapWithMod.mapperUserID mapObject = None \/
         jsonCreateMapWithMod.mapperUserID mapObject = Some 0)).
Proof.
  intros Hcall.
  destruct (getMapIdCreationObject_inr _ _ _ _ _ _ _ _ _ _ _ Hcall)
    as (canonicalDifficultyID & connected & _ & _ & Hmapper & _ & _ & ->).
  eexists. split; [reflexivity|]. cbn.
  unfold truthyNumber, truthyString in *.
  destruct (jsonCreateMapWithMod.mapperUserID mapObject) as [mapper|].
  - destruct (mapper =? 0) eqn:Hzero.
    + apply Z.eqb_eq in Hzero. subst mapper.
      split; [now left|]. split; [discriminate|].
      intros name Hname.
      destruct (jsonCreateMapWithMod.mapperNameString mapObject) as [given|];
        [|discriminate].
      destruct (String.eqb given "") eqn:Hempty; [discriminate|].
      injection Hname as <-. apply String.eqb_neq in Hempty. auto.
    + apply Z.eqb_neq in Hzero. split; [now right|]. split; [|discriminate].
      intros m Hm. injection Hm as <-. repeat split; auto.
  - split; [now left|]. split; [discriminate|].
    intros name Hname.
    destruct (jsonCreateMapWithMod.mapperNameString mapObject) as [given|];
      [|discriminate].
    destruct (String.eqb given "") eqn:Hempty; [discriminate|].
    injection Hname as <-. apply String.eqb_neq in Hempty. auto.
Qed.

Lemma getMapIdCreationObject_mapper_witness :
  exists details,
    map_details_create sampleContestCreated = [details] /\
    (mapDetailsCreationObject.users_maps_details_mapperUserIDTousers details = None \/
     mapDetailsCreationObject.mapperNameString details = None) /\
    (forall mapperUserID,
        mapDetailsCreationObject.users_maps_details_mapperUserIDTousers details
        = Some mapperUserID ->
        jsonCreateMapWithMod.mapperUserID sampleContestMap = Some mapperUserID /\
        mapperUserID <> 0 /\
        users_findUnique samplePrismaTech mapperUserID = true) /\
    (forall mapperNameString,
        mapDetailsCreationObject.mapperNameString details = Some mapperNameString ->
        jsonCreateMapWithMod.mapperNameString sampleContestMap = Some mapperNameString /\
        mapperNameString <> "" /\
        (jsonCreateMapWithMod.mapperUserID sampleContestMap = None \/
         jsonCreateMapWithMod.mapperUserID sampleContestMap = Some 0)).
Proof.
  apply (getMapIdCreationObject_mapper sampleModerator samplePrismaTech sampleContestMap
           1700000000 Contest sampleLengths [] sampleDefaultDifficulties false true
           sampleContestCreated).
  reflexivity.
Defined.

(** X15. The fields of a mod type: the creation object of a map of a Normal
    mod has the request's chapter and side and neither an overall rank nor a
    mod difficulty; that of a map of another mod type has neither chapter nor
    side, and an overall rank (the request's) only for a Contest mod. *)
Theorem getMapIdCreationObject_mod_type_fields
    (submittingUser : submitterUser.t) (prisma : prismaReads)
    (mapObject : jsonCreateMapWithMod.t) (currentTime : Z) (modType : mods_details_type)
    (lengthObjectArray : list map_lengths.t)
    (customDifficultiesArray : list createParentDifficultyForMod.t)
    (defaultDifficultyObjectsArray : list defaultDifficultyForMod.t)
    (modUsesCustomDifficultiesBool modHasSubDifficultiesBool : bool)
    (object : mapIdCreationObject) :
  getMapIdCreationObject submittingUser prisma mapObject currentTime modType
    lengthObjectArray customDifficultiesArray defaultDifficultyObjectsArray
    modUsesCustomDifficultiesBool modHasSubDifficultiesBool = inr object ->
  exists details,
    map_details_create object = [details] /\
    (modType = Normal ->
     mapDetailsCreationObject.chapter details = jsonCreateMapWithMod.chapter mapObject /\
     mapDetailsCreationObject.side details = jsonCreateMapWithMod.side mapObject /\
     mapDetailsCreationObject.overallRank details = None /\
     mapDetailsCreationObject.difficulties_difficultiesTomaps_details_modDifficultyID details
     = None) /\
    (modType <> Normal ->
     mapDetailsCreationObject.chapter details = None /\
     mapDetailsCreationObject.side details = None /\
     mapDetailsCreationObject.overallRank details =
     match modType with
     | Contest => jsonCreateMapWithMod.overallRank mapObject
     | _ => None
     end).
Proof.
  intros Hcall.
  destruct (getMapIdCreationObject_inr _ _ _ _ _ _ _ _ _ _ _ Hcall)
    as (canonicalDifficultyID & connected & _ & _ & _ & Hconnected & _ & ->).
  eexists. split; [reflexivity|]. cbn. split.
  - intros ->. cbn. repeat split. apply Hconnected. now left.
  - intros Htype. destruct modType; [now contradiction Htype| | |]; cbn; repeat split.
Qed.

Lemma getMapIdCreationObject_mod_type_fields_witness :
  exists details,
    map_details_create sampleContestCreated = [details] /\
    (Contest = Normal ->
     mapDetailsCreationObject.chapter details = jsonCreateMapWithMod.chapter sampleContestMap /\
     mapDetailsCreationObject.side details = jsonCreateMapWithMod.side sampleContestMap /\
     mapDetailsCreationObject.overallRank details = None /\
     mapDetailsCreationObject.difficulties_difficultiesTomaps_details_modDifficultyID details
     = None) /\
    (Contest <> Normal ->
     mapDetailsCreationObject.chapter details = None /\
     mapDetailsCreationObject.side details = None /\
     mapDetailsCreationObject.overallRank details =
     jsonCreateMapWithMod.overallRank sampleContestMap).
Proof.
  apply (getMapIdCreationObject_mod_type_fields sampleModerator samplePrismaTech
           sampleContestMap 1700000000 Contest sampleLengths [] sampleDefaultDifficulties
           false true sampleContestCreated).
  reflexivity.
Defined.

Lemma techCreationObjects_entries (names : option (list string)) (fullClearOnlyBool : bool) :
  map techEntry (techCreationObjects names fullClearOnlyBool) =
  map (fun techName => (techName, fullClearOnlyBool)) (namesOrNone names).
Proof.
  destruct names as [names|]; simpl; [|reflexivity].
  rewrite map_map. reflexivity.
Qed.

(** X16. The tech of a map: the creation object has no tech list exactly
    when the request has neither [techAny] nor [techFC]; a tech list holds
    one entry per name of [techAny], not full-clear-only, followed by one
    entry per name of [techFC], full-clear-only, in the sequence of the
    request, each with revision 0. *)
Theorem getMapIdCreationObject_tech
    (submittingUser : submitterUser.t) (prisma : prismaReads)
    (mapObject : jsonCreateMapWithMod.t) (currentTime : Z) (modType : mods_details_type)
    (lengthObjectArray : list map_lengths.t)
    (customDifficultiesArray : list createParentDifficultyForMod.t)
    (defaultDifficultyObjectsArray : list defaultDifficultyForMod.t)
    (modUsesCustomDifficultiesBool modHasSubDifficultiesBool : bool)
    (object : mapIdCreationObject) :
  getMapIdCreationObject submittingUser prisma mapObject currentTime modType
    lengthObjectArray customDifficultiesArray defaultDifficultyObjectsArray
    modUsesCustomDifficultiesBool modHasSubDifficultiesBool = inr object ->
  exists details,
    map_details_create object = [details] /\
    (mapDetailsCreationObject.maps_to_tech_maps_detailsTomaps_to_tech_mapID details = None <->
     jsonCreateMapWithMod.techAny mapObject = None /\
     jsonCreateMapWithMod.techFC mapObject = None) /\
    forall tech,
      mapDetailsCreationObject.maps_to_tech_maps_detailsTomaps_to_tech_mapID details
      = Some tech ->
      map techEntry tech =
      map (fun techName => (techName, false))
        (namesOrNone (jsonCreateMapWithMod.techAny mapObject)) ++
      map (fun techName => (techName, true))
        (namesOrNone (jsonCreateMapWithMod.techFC mapObject)) /\
      forall entry,
        In entry tech ->
        mapToTechCreationObject.maps_details_maps_detailsTomaps_to_tech_revision entry = 0.
Proof.
  intros Hcall.
  destruct (getMapIdCreationObject_inr _ _ _ _ _ _ _ _ _ _ _ Hcall)
    as (canonicalDifficultyID & connected & _ & _ & _ & _ & _ & ->).
  eexists. split; [reflexivity|]. cbn.
  assert (Hentries :
            forall tech,
              tech = techCreationObjects (jsonCreateMapWithMod.techAny mapObject) false ++
                     techCreationObjects (jsonCreateMapWithMod.techFC mapObject) true ->
              map techEntry tech =
              map (fun techName => (techName, false))
                (namesOrNone (jsonCreateMapWithMod.techAny mapObject)) ++
              map (fun techName => (techName, true))
                (namesOrNone (jsonCreateMapWithMod.techFC mapObject)) /\
              forall entry,
                In entry tech ->
                mapToTechCreationObject.maps_details_maps_detailsTomaps_to_tech_revision entry
                = 0).
  { intros tech ->. split.
    - now rewrite map_app, !techCreationObjects_entries.
    - intros entry Hin. apply in_app_or in Hin.
      destruct Hin as [Hin | Hin];
        [destruct (jsonCreateMapWithMod.techAny mapObject)
        |destruct (jsonCreateMapWithMod.techFC mapObject)];
        simpl in Hin; try contradiction;
        apply in_map_iff in Hin; destruct Hin as (n & <- & _); reflexivity. }
  destruct (jsonCreateMapWithMod.techAny mapObject) as [techAny|] eqn:Hany;
    destruct (jsonCreateMapWithMod.techFC mapObject) as [techFC|] eqn:Hfc.
  all: split;
    [ split; [try discriminate; auto | intros [H1 H2]; try discriminate; reflexivity]
    | intros tech Htech; try discriminate; injection Htech as <-; now apply Hentries ].
Qed.

Lemma getMapIdCreationObject_tech_witness :
  exists details,
    map_details_create sampleContestCreated = [details] /\
    (mapDetailsCreationObject.maps_to_tech_maps_detailsTomaps_to_tech_mapID details = None <->
     jsonCreateMapWithMod.techAny sampleContestMap = None /\
     jsonCreateMapWithMod.techFC sampleContestMap = None) /\
    forall tech,
      mapDetailsCreationObject.maps_to_tech_maps_detailsTomaps_to_tech_mapID details
      = Some tech ->
      map techEntry tech =
      map (fun techName => (techName, false))
        (namesOrNone (jsonCreateMapWithMod.techAny sampleContestMap)) ++
      map (fun techName => (techName, true))
        (namesOrNone (jsonCreateMapWithMod.techFC sampleContestMap)) /\
      forall entry,
        In entry tech ->
        mapToTechCreationObject.maps_details_maps_detailsTomaps_to_tech_revision entry = 0.
Proof.
  apply (getMapIdCreationObject_tech sampleModerator samplePrismaTech sampleContestMap
           1700000000 Contest sampleLengths [] sampleDefaultDifficulties false true
           sampleContestCreated).
  reflexivity.
Defined.

(** X17. An unknown length: when the canonical difficulty of the map is
    found and no map length has the map's length name, the call throws
    [lengthErrorMessage], whatever else the request holds. *)
Theorem getMapIdCreationObject_unknown_length
    (submittingUser : submitterUser.t) (prisma : prismaReads)
    (mapObject : jsonCreateMapWithMod.t) (currentTime : Z) (modType : mods_details_type)
    (lengthObjectArray : list map_lengths.t)
    (customDifficultiesArray : list createParentDifficultyForMod.t)
    (defaultDifficultyObjectsArray : list defaultDifficultyForMod.t)
    (modUsesCustomDifficultiesBool modHasSubDifficultiesBool : bool)
    (canonicalDifficultyID : Z) :
  getCanonicalDifficultyID prisma (jsonCreateMapWithMod.canonicalDifficulty mapObject)
    (jsonCreateMapWithMod.techAny mapObject) = inr canonicalDifficultyID ->
  (forall length,
      In length lengthObjectArray ->
      map_lengths.name length <> jsonCreateMapWithMod.length mapObject) ->
  getMapIdCreationObject submittingUser prisma mapObject currentTime modType
    lengthObjectArray customDifficultiesArray defaultDifficultyObjectsArray
    modUsesCustomDifficultiesBool modHasSubDifficultiesBool
  = inl (ThrowString lengthErrorMessage).
Proof.
  intros Hcanonical Hunknown. unfold getMapIdCreationObject.
  rewrite Hcanonical. cbn [bind].
  now rewrite (findLengthID_unknown _ _ Hunknown).
Qed.

Lemma getMapIdCreationObject_unknown_length_witness :
  getMapIdCreationObject sampleModerator samplePrisma sampleUnknownLengthMap 1700000000
    Normal sampleLengths [] [] true true
  = inl (ThrowString lengthErrorMessage).
Proof.
  apply (getMapIdCreationObject_unknown_length sampleModerator samplePrisma
           sampleUnknownLengthMap 1700000000 Normal sampleLengths [] [] true true 1).
  - reflexivity.
  - intros length [<- | [<- | []]]; discriminate.
Defined.

(** X18. An unknown mapper: when the canonical difficulty and the length of
    the map are found (the length with an id other than 0) and the request
    gives a [mapperUserID] other than 0 that is the id of no user, the call
    throws "No user found with ID = " followed by the id; the mapper name of
    the request is not used instead. *)
Theorem getMapIdCreationObject_unknown_mapper
    (submittingUser : submitterUser.t) (prisma : prismaReads)
    (mapObject : jsonCreateMapWithMod.t) (currentTime : Z) (modType : mods_details_type)
    (lengthObjectArray : list map_lengths.t)
    (customDifficultiesArray : list createParentDifficultyForMod.t)
    (defaultDifficultyObjectsArray : list defaultDifficultyForMod.t)
    (modUsesCustomDifficultiesBool modHasSubDifficultiesBool : bool)
    (canonicalDifficultyID mapperUserID : Z) :
  getCanonicalDifficultyID prisma (jsonCreateMapWithMod.canonicalDifficulty mapObject)
    (jsonCreateMapWithMod.techAny mapObject) = inr canonicalDifficultyID ->
  findLengthID lengthObjectArray (jsonCreateMapWithMod.length mapObject) <> 0 ->
  jsonCreateMapWithMod.mapperUserID mapObject = Some mapperUserID ->
  mapperUserID <> 0 ->
  users_findUnique prisma mapperUserID = false ->
  getMapIdCreationObject submittingUser prisma mapObject currentTime modType
    lengthObjectArray customDifficultiesArray defaultDifficultyObjectsArray
    modUsesCustomDifficultiesBool modHasSubDifficultiesBool
  = inl (ThrowString
           (invalidMapperUserIdErrorMessage ++ numberToString mapperUserID)%string).
Proof.
  intros Hcanonical Hlength Hmapper Hnonzero Hunknown. unfold getMapIdCreationObject.
  rewrite Hcanonical. cbn [bind].
  apply Z.eqb_neq in Hlength, Hnonzero. rewrite Hlength.
  rewrite privilegedUser_eq. cbn [bind ret].
  unfold truthyNumber. rewrite Hmapper, Hnonzero, Hunknown.
  destruct (permLoop (submitterUser.permissionsArray submittingUser)); reflexivity.
Qed.

Lemma getMapIdCreationObject_unknown_mapper_witness :
  getMapIdCreationObject sampleModerator samplePrisma sampleUnknownMapperMap 1700000000
    Normal sampleLengths [] [] true true
  = inl (ThrowString "No user found with ID = 99").
Proof.
  apply (getMapIdCreationObject_unknown_mapper sampleModerator samplePrisma
           sampleUnknownMapperMap 1700000000 Normal sampleLengths [] [] true true 1 99);
    try reflexivity; discriminate.
Defined.

(** ** The creation objects of all maps of a mod *)

Lemma allFulfilled_map {A B : Type} (f : A -> M B) (l : list A) :
  (forall x, In x l -> exists value, f x = inr value) ->
  exists values,
    allFulfilled (map f l) = Some values /\
    Forall2 (fun x value => f x = inr value) l values.
Proof.
  induction l as [|x l IH]; intros Hall; simpl.
  - exists []. split; [reflexivity | constructor].
  - destruct (Hall x (or_introl eq_refl)) as (value & Hvalue).
    destruct IH as (values & Hvalues & Hforall).
    { intros y Hy. apply Hall. now right. }
    rewrite Hvalue, Hvalues. exists (value :: values).
    split; [reflexivity | now constructor].
Qed.

Lemma rejections_map {A B : Type} (f : A -> M B) (l : list A) (reason : thrown) :
  In reason (rejections (map f l)) -> exists x, In x l /\ f x = inl reason.
Proof.
  induction l as [|x l IH]; simpl; [intros []|].
  destruct (f x) as [e|value] eqn:Hx.
  - intros [<- | Hin].
    + exists x. auto.
    + destruct (IH Hin) as (y & Hy & Hreason). exists y. auto.
  - intros Hin. destruct (IH Hin) as (y & Hy & Hreason). exists y. auto.
Qed.

Lemma promiseAll_rejected {A : Type} (first : nat) (settled : list (M A)) :
  (exists reason, In (inl reason) settled) ->
  exists reason, promiseAll first settled = inl reason /\ In reason (rejections settled).
Proof.
  intros (reason & Hin). unfold promiseAll.
  assert (Hnone : allFulfilled settled = None).
  { induction settled as [|[e|value] rest IH]; simpl; [contradiction | reflexivity |].
    destruct Hin as [Habsurd | Hin]; [discriminate|]. now rewrite (IH Hin). }
  assert (Hsome : In reason (rejections settled)).
  { induction settled as [|[e|value] rest IH]; simpl; [contradiction | |].
    - destruct Hin as [Heq | Hin]; [injection Heq as ->; now left|].
      right. apply IH; [exact Hin|].
      clear - Hin. induction rest as [|[e'|v'] rest IH]; simpl; [contradiction | reflexivity|].
      destruct Hin as [Habsurd | Hin]; [discriminate|]. now rewrite (IH Hin).
    - destruct Hin as [Habsurd | Hin]; [discriminate|].
      simpl in Hnone. destruct (allFulfilled rest) eqn:Hrest; [discriminate|].
      now apply IH. }
  rewrite Hnone.
  destruct (nth_error (rejections settled) first) as [chosen|] eqn:Hchosen.
  - exists chosen. split; [reflexivity|]. eapply nth_error_In. exact Hchosen.
  - destruct (rejections settled) as [|head rest]; [contradiction|].
    exists head. split; [reflexivity | now left].
Qed.

(** X19. When the creation object of every map can be built,
    [getMapIDsCreationArray] returns one creation object per map, in the
    sequence of the maps, and writes nothing to the response. *)
Theorem getMapIDsCreationArray_all_built
    (submittingUser : submitterUser.t) (prisma : prismaReads) (first : nat) (res : Response)
    (maps : list jsonCreateMapWithMod.t) (currentTime : Z) (modType : mods_details_type)
    (lengthObjectArray : list map_lengths.t)
    (difficultiesCreationArray : list createParentDifficultyForMod.t)
    (defaultDifficultyObjectsArray : list defaultDifficultyForMod.t)
    (modUsesCustomDifficultiesBool modHasSubDifficultiesBool : bool) :
  (forall mapObject,
      In mapObject maps ->
      exists object,
        getMapIdCreationObject submittingUser prisma mapObject currentTime modType
          lengthObjectArray difficultiesCreationArray defaultDifficultyObjectsArray
          modUsesCustomDifficultiesBool modHasSubDifficultiesBool = inr object) ->
  exists mapIDsCreationArray,
    getMapIDsCreationArray submittingUser prisma first res maps currentTime modType
      lengthObjectArray difficultiesCreationArray defaultDifficultyObjectsArray
      modUsesCustomDifficultiesBool modHasSubDifficultiesBool
    = inr (Some mapIDsCreationArray, res) /\
    Forall2
      (fun mapObject object =>
         getMapIdCreationObject submittingUser prisma mapObject currentTime modType
           lengthObjectArray difficultiesCreationArray defaultDifficultyObjectsArray
           modUsesCustomDifficultiesBool modHasSubDifficultiesBool = inr object)
      maps mapIDsCreationArray.
Proof.
  intros Hall.
  destruct (allFulfilled_map _ maps Hall) as (values & Hvalues & Hforall).
  exists values. split; [|exact Hforall].
  unfold getMapIDsCreationArray, promiseAll. now rewrite Hvalues.
Qed.

Lemma getMapIDsCreationArray_all_built_witness :
  exists mapIDsCreationArray,
    getMapIDsCreationArray sampleModerator samplePrismaTech 0 freshResponse
      [sampleContestMap; sampleContestMap] 1700000000 Contest sampleLengths []
      sampleDefaultDifficulties false true
    = inr (Some mapIDsCreationArray, freshResponse) /\
    Forall2
      (fun mapObject object =>
         getMapIdCreationObject sampleModerator samplePrismaTech mapObject 1700000000 Contest
           sampleLengths [] sampleDefaultDifficulties false true = inr object)
      [sampleContestMap; sampleContestMap] mapIDsCreationArray.
Proof.
  apply (getMapIDsCreationArray_all_built sampleModerator samplePrismaTech 0 freshResponse
           [sampleContestMap; sampleContestMap] 1700000000 Contest sampleLengths []
           sampleDefaultDifficulties false true).
  intros mapObject [<- | [<- | []]]; exists sampleContestCreated; reflexivity.
Defined.

(** X20. When the creation object of some map cannot be built,
    [getMapIDsCreationArray] returns no array, whichever rejection comes
    first. What one of the failing maps threw decides the outcome: the
    messages for the canonical difficulty, a tech name and the length, and
    any string that contains "No user found with ID = ", are answered with
    status 404 and the string as body; the invalid-map-difficulty message is
    answered with status 400; [errorSent] is set and nothing is thrown.
    Every other value is thrown again and the response is not written to. *)
Theorem getMapIDsCreationArray_failure
    (submittingUser : submitterUser.t) (prisma : prismaReads) (first : nat) (res : Response)
    (maps : list jsonCreateMapWithMod.t) (currentTime : Z) (modType : mods_details_type)
    (lengthObjectArray : list map_lengths.t)
    (difficultiesCreationArray : list createParentDifficultyForMod.t)
    (defaultDifficultyObjectsArray : list defaultDifficultyForMod.t)
    (modUsesCustomDifficultiesBool modHasSubDifficultiesBool : bool) :
  (exists mapObject error,
      In mapObject maps /\
      getMapIdCreationObject submittingUser prisma mapObject currentTime modType
        lengthObjectArray difficultiesCreationArray defaultDifficultyObjectsArray
        modUsesCustomDifficultiesBool modHasSubDifficultiesBool = inl error) ->
  exists mapObject error,
    In mapObject maps /\
    getMapIdCreationObject submittingUser prisma mapObject currentTime modType
      lengthObjectArray difficultiesCreationArray defaultDifficultyObjectsArray
      modUsesCustomDifficultiesBool modHasSubDifficultiesBool = inl error /\
    ((exists message,
         error = ThrowString message /\
         (message = canonicalDifficultyNameErrorMessage \/
          message = techNameErrorMessage \/
          message = lengthErrorMessage \/
          includes message invalidMapperUserIdErrorMessage = true) /\
         getMapIDsCreationArray submittingUser prisma first res maps currentTime modType
           lengthObjectArray difficultiesCreationArray defaultDifficultyObjectsArray
           modUsesCustomDifficultiesBool modHasSubDifficultiesBool
         = inr (None, mkResponseState (Some 404) (Some message) true)) \/
     (error = ThrowString invalidMapDifficultyErrorMessage /\
      getMapIDsCreationArray submittingUser prisma first res maps currentTime modType
        lengthObjectArray difficultiesCreationArray defaultDifficultyObjectsArray
        modUsesCustomDifficultiesBool modHasSubDifficultiesBool
      = inr (None, mkResponseState (Some 400) (Some invalidMapDifficultyErrorMessage) true)) \/
     ((forall message,
          error = ThrowString message ->
          message <> canonicalDifficultyNameErrorMessage /\
          message <> techNameErrorMessage /\
          message <> lengthErrorMessage /\
          includes message invalidMapperUserIdErrorMessage = false /\
          message <> invalidMapDifficultyErrorMessage) /\
      getMapIDsCreationArray submittingUser prisma first res maps currentTime modType
        lengthObjectArray difficultiesCreationArray defaultDifficultyObjectsArray
        modUsesCustomDifficultiesBool modHasSubDifficultiesBool = inl error)).
Proof.
  intros (failing & reason & Hin & Hfails).
  destruct (promiseAll_rejected first
              (map (fun mapObject =>
                      getMapIdCreationObject submittingUser prisma mapObject currentTime
                        modType lengthObjectArray difficultiesCreationArray
                        defaultDifficultyObjectsArray modUsesCustomDifficultiesBool
                        modHasSubDifficultiesBool) maps))
    as (error & Hall & Hrejected).
  { exists reason. apply in_map_iff. exists failing. auto. }
  apply rejections_map in Hrejected. destruct Hrejected as (mapObject & Hmap & Herror).
  exists mapObject, error. split; [exact Hmap|]. split; [exact Herror|].
  unfold getMapIDsCreationArray. rewrite Hall. unfold catchCreationError, sendError.
  destruct error as [message| | | |]; try (right; right; split; [discriminate | reflexivity]).
  destruct (String.eqb message canonicalDifficultyNameErrorMessage) eqn:H1.
  { apply String.eqb_eq in H1. left. exists message. subst message. auto. }
  destruct (String.eqb message techNameErrorMessage) eqn:H2.
  { apply String.eqb_eq in H2. left. exists message. subst message. auto 6. }
  destruct (String.eqb message lengthErrorMessage) eqn:H3.
  { apply String.eqb_eq in H3. left. exists message. subst message. auto 6. }
  destruct (includes message invalidMapperUserIdErrorMessage) eqn:H4.
  { left. exists message. auto 7. }
  destruct (String.eqb message invalidMapDifficultyErrorMessage) eqn:H5.
  { apply String.eqb_eq in H5. right. left. subst message. auto. }
  right. right. split; [|reflexivity].
  intros m Hm. injection Hm as <-.
  apply String.eqb_neq in H1, H2, H3, H5. auto.
Qed.

Lemma getMapIDsCreationArray_failure_witness :
  exists mapObject error,
    In mapObject [sampleMap; sampleUnknownMapperMap] /\
    getMapIdCreationObject sampleModerator samplePrisma mapObject 1700000000 Normal
      sampleLengths [] [] true true = inl error /\
    ((exists message,
         error = ThrowString message /\
         (message = canonicalDifficultyNameErrorMessage \/
          message = techNameErrorMessage \/
          message = lengthErrorMessage \/
          includes message invalidMapperUserIdErrorMessage = true) /\
         getMapIDsCreationArray sampleModerator samplePrisma 0 freshResponse
           [sampleMap; sampleUnknownMapperMap] 1700000000 Normal sampleLengths [] [] true true
         = inr (None, mkResponseState (Some 404) (Some message) true)) \/
     (error = ThrowString invalidMapDifficultyErrorMessage /\
      getMapIDsCreationArray sampleModerator samplePrisma 0 freshResponse
        [sampleMap; sampleUnknownMapperMap] 1700000000 Normal sampleLengths [] [] true true
      = inr (None, mkResponseState (Some 400) (Some invalidMapDifficultyErrorMessage) true)) \/
     ((forall message,
          error = ThrowString message ->
          message <> canonicalDifficultyNameErrorMessage /\
          message <> techNameErrorMessage /\
          message <> lengthErrorMessage /\
          includes message invalidMapperUserIdErrorMessage = false /\
          message <> invalidMapDifficultyErrorMessage) /\
      getMapIDsCreationArray sampleModerator samplePrisma 0 freshResponse
        [sampleMap; sampleUnknownMapperMap] 1700000000 Normal sampleLengths [] [] true true
      = inl error)).
Proof.
  apply (getMapIDsCreationArray_failure sampleModerator samplePrisma 0 freshResponse
           [sampleMap; sampleUnknownMapperMap] 1700000000 Normal sampleLengths [] [] true true).
  exists sampleUnknownMapperMap, (ThrowString "No user found with ID = 99").
  split; [right; now left | reflexivity].
Defined.

Lemma prefix_app (pattern rest : string) :
  String.prefix pattern (pattern ++ rest)%string = true.
Proof.
  induction pattern as [|c pattern IH]; simpl.
  - now destruct rest.
  - destruct (Ascii.ascii_dec c c) as [_ | Hne]; [exact IH | now contradiction Hne].
Qed.

Lemma includes_prefix (pattern rest : string) :
  includes (pattern ++ rest)%string pattern = true.
Proof.
  assert (Hstep : forall s, String.prefix pattern s = true -> includes s pattern = true).
  { intros s Hs. destruct s; cbn [includes]; now rewrite Hs. }
  apply Hstep, prefix_app.
Qed.

(** X21. Maps that fail for their mapper only: when some map cannot be
    built and every failing map fails with "No user found with ID = "
    followed by an id (what [getMapIdCreationObject] throws for a
    [mapperUserID] that is no user), the call returns no array and answers
    with status 404 and that message of one of the failing maps. *)
Theorem getMapIDsCreationArray_unknown_mapper
    (submittingUser : submitterUser.t) (prisma : prismaReads) (first : nat) (res : Response)
    (maps : list jsonCreateMapWithMod.t) (currentTime : Z) (modType : mods_details_type)
    (lengthObjectArray : list map_lengths.t)
    (difficultiesCreationArray : list createParentDifficultyForMod.t)
    (defaultDifficultyObjectsArray : list defaultDifficultyForMod.t)
    (modUsesCustomDifficultiesBool modHasSubDifficultiesBool : bool) :
  (exists mapObject error,
      In mapObject maps /\
      getMapIdCreationObject submittingUser prisma mapObject currentTime modType
        lengthObjectArray difficultiesCreationArray defaultDifficultyObjectsArray
        modUsesCustomDifficultiesBool modHasSubDifficultiesBool = inl error) ->
  (forall mapObject error,
      In mapObject maps ->
      getMapIdCreationObject submittingUser prisma mapObject currentTime modType
        lengthObjectArray difficultiesCreationArray defaultDifficultyObjectsArray
        modUsesCustomDifficultiesBool modHasSubDifficultiesBool = inl error ->
      exists mapperUserID,
        error = ThrowString
                  (invalidMapperUserIdErrorMessage ++ numberToString mapperUserID)%string) ->
  exists mapObject mapperUserID,
    In mapObject maps /\
    getMapIdCreationObject submittingUser prisma mapObject currentTime modType
      lengthObjectArray difficultiesCreationArray defaultDifficultyObjectsArray
      modUsesCustomDifficultiesBool modHasSubDifficultiesBool
    = inl (ThrowString
             (invalidMapperUserIdErrorMessage ++ numberToString mapperUserID)%string) /\
    getMapIDsCreationArray submittingUser prisma first res maps currentTime modType
      lengthObjectArray difficultiesCreationArray defaultDifficultyObjectsArray
      modUsesCustomDifficultiesBool modHasSubDifficultiesBool
    = inr (None,
           mkResponseState (Some 404)
             (Some (invalidMapperUserIdErrorMessage ++ numberToString mapperUserID)%string)
             true).
Proof.
  intros (failing & reason & Hin & Hfails) Hmapper.
  destruct (promiseAll_rejected first
              (map (fun mapObject =>
                      getMapIdCreationObject submittingUser prisma mapObject currentTime
                        modType lengthObjectArray difficultiesCreationArray
                        defaultDifficultyObjectsArray modUsesCustomDifficultiesBool
                        modHasSubDifficultiesBool) maps))
    as (error & Hall & Hrejected).
  { exists reason. apply in_map_iff. exists failing. auto. }
  apply rejections_map in Hrejected. destruct Hrejected as (mapObject & Hmap & Herror).
  destruct (Hmapper mapObject error Hmap Herror) as (mapperUserID & ->).
  exists mapObject, mapperUserID. split; [exact Hmap|]. split; [exact Herror|].
  unfold getMapIDsCreationArray. rewrite Hall. unfold catchCreationError, sendError.
  destruct (String.eqb _ canonicalDifficultyNameErrorMessage) eqn:H1.
  { apply String.eqb_eq in H1. now rewrite H1. }
  destruct (String.eqb _ techNameErrorMessage) eqn:H2.
  { apply String.eqb_eq in H2. now rewrite H2. }
  destruct (String.eqb _ lengthErrorMessage) eqn:H3.
  { apply String.eqb_eq in H3. now rewrite H3. }
  now rewrite includes_prefix.
Qed.

Lemma getMapIDsCreationArray_unknown_mapper_witness :
  exists mapObject mapperUserID,
    In mapObject [sampleMap; sampleUnknownMapperMap] /\
    getMapIdCreationObject sampleModerator samplePrisma mapObject 1700000000 Normal
      sampleLengths [] [] true true
    = inl (ThrowString
             (invalidMapperUserIdErrorMessage ++ numberToString mapperUserID)%string) /\
    getMapIDsCreationArray sampleModerator samplePrisma 0 freshResponse
      [sampleMap; sampleUnknownMapperMap] 1700000000 Normal sampleLengths [] [] true true
    = inr (None,
           mkResponseState (Some 404)
             (Some (invalidMapperUserIdErrorMessage ++ numberToString mapperUserID)%string)
             true).
Proof.
  apply (getMapIDsCreationArray_unknown_mapper sampleModerator samplePrisma 0 freshResponse
           [sampleMap; sampleUnknownMapperMap] 1700000000 Normal sampleLengths [] [] true true).
  - exists sampleUnknownMapperMap, (ThrowString "No user found with ID = 99").
    split; [right; now left | reflexivity].
  - intros mapObject error [<- | [<- | []]] Herror.
    + discriminate Herror.
    + exists 99. vm_compute in Herror. injection Herror as <-. reflexivity.
Defined.

(** ** Formatting a mod *)

Lemma formatMapsLoop_eq (rawMaps : list rawMap) :
  formatMapsLoop rawMaps = inr (map (fun _ => None) rawMaps).
Proof.
  induction rawMaps as [|rawMap rest IH]; simpl; [reflexivity|]. now rewrite IH.
Qed.

(** X22. A mod that is formatted: it had exactly one [mods_details] row,
    whose fields the result copies beside the id of the mod; the result has
    one map entry per row of [maps_ids]; and its difficulties are what
    [getSortedDifficultyNames] returns for the difficulty rows of the mod,
    or are left out when the rows were not included. *)
Theorem formatMod_formatted (rawMod : rawMod.t) (formatted : formattedMod.t) :
  formatMod rawMod = inr formatted ->
  exists details,
    rawMod.mods_details rawMod = [details] /\
    formattedMod.id formatted = rawMod.id rawMod /\
    formattedMod.revision formatted = rawModDetails.revision details /\
    formattedMod.type formatted = rawModDetails.type details /\
    formattedMod.name formatted = rawModDetails.name details /\
    formattedMod.publisherID formatted = rawModDetails.publisherID details /\
    formattedMod.publisherGamebananaID formatted =
    rawModDetails.publishers_gamebananaID details /\
    formattedMod.contentWarning formatted = rawModDetails.contentWarning details /\
    formattedMod.notes formatted = rawModDetails.notes details /\
    formattedMod.shortDescription formatted = rawModDetails.shortDescription details /\
    formattedMod.longDescription formatted = rawModDetails.longDescription details /\
    formattedMod.gamebananaModID formatted = rawModDetails.gamebananaModID details /\
    length (formattedMod.maps formatted) = length (rawMod.maps_ids rawMod) /\
    match rawMod.difficulties rawMod with
    | Some rows =>
        exists formattedArray,
          getSortedDifficultyNames rows (rawMod.id rawMod) = inr formattedArray /\
          formattedMod.difficulties formatted = Some formattedArray
    | None => formattedMod.difficulties formatted = None
    end.
Proof.
  unfold formatMod. intros Hformat.
  destruct (rawMod.mods_details rawMod) as [|details [|second rest]]; try discriminate.
  exists details. split; [reflexivity|].
  rewrite formatMapsLoop_eq in Hformat. cbn [bind] in Hformat.
  destruct (rawMod.difficulties rawMod) as [rows|].
  - destruct (getSortedDifficultyNames rows (rawMod.id rawMod)) as [error|formattedArray];
      [discriminate|].
    injection Hformat as <-. cbn. rewrite length_map.
    repeat (split; [reflexivity|]). now exists formattedArray.
  - injection Hformat as <-. cbn. rewrite length_map. repeat split.
Qed.

Lemma formatMod_formatted_witness :
  exists details,
    rawMod.mods_details sampleRawMod = [details] /\
    7 = rawMod.id sampleRawMod /\
    1 = rawModDetails.revision details /\
    Normal = rawModDetails.type details /\
    "Spring Collab" = rawModDetails.name details /\
    4 = rawModDetails.publisherID details /\
    Some 1698143 = rawModDetails.publishers_gamebananaID details /\
    false = rawModDetails.contentWarning details /\
    None = rawModDetails.notes details /\
    "A collab" = rawModDetails.shortDescription details /\
    None = rawModDetails.longDescription details /\
    Some 150813 = rawModDetails.gamebananaModID details /\
    length [@None formattedMap; None] = length (rawMod.maps_ids sampleRawMod) /\
    match rawMod.difficulties sampleRawMod with
    | Some rows =>
        exists formattedArray,
          getSortedDifficultyNames rows (rawMod.id sampleRawMod) = inr formattedArray /\
          Some exampleSubmission = Some formattedArray
    | None => Some exampleSubmission = None
    end.
Proof.
  apply (formatMod_formatted sampleRawMod
           (formattedMod.mk 7 1 Normal "Spring Collab" 4 (Some 1698143) false None "A collab"
              None (Some 150813) [None; None] (Some exampleSubmission))).
  reflexivity.
Defined.

(** X23. A mod that is not formatted: [formatMod] throws nothing; it returns
    an error in two cases only. Without exactly one [mods_details] row (none
    at all included) the error holds the "more than 1 mod_details" message
    with the id of the mod; with one row, the error holds what
    [getSortedDifficultyNames] threw on the difficulty rows of the mod. *)
Theorem formatMod_error (rawMod : rawMod.t) (error : thrown) :
  formatMod rawMod = inl (toErrorWithMessage error) <->
  (length (rawMod.mods_details rawMod) <> 1%nat /\
   error = ThrowString (modDetailsCountMessage (rawMod.id rawMod))) \/
  (length (rawMod.mods_details rawMod) = 1%nat /\
   exists rows,
     rawMod.difficulties rawMod = Some rows /\
     getSortedDifficultyNames rows (rawMod.id rawMod) = inl error).
Proof.
  unfold formatMod.
  destruct (rawMod.mods_details rawMod) as [|details [|second rest]]; simpl.
  - split.
    + intros H. injection H as <-. left. split; [discriminate | reflexivity].
    + intros [[_ ->] | [Habsurd _]]; [reflexivity | discriminate].
  - rewrite formatMapsLoop_eq. cbn [bind].
    destruct (rawMod.difficulties rawMod) as [rows|].
    + destruct (getSortedDifficultyNames rows (rawMod.id rawMod))
        as [reason|formattedArray] eqn:Hsorted; simpl.
      * split.
        { intros H. injection H as <-. right. split; [reflexivity|]. now exists rows. }
        { intros [[Habsurd _] | [_ (rows' & Hrows & Hthrown)]];
            [now contradiction Habsurd|].
          injection Hrows as <-. rewrite Hsorted in Hthrown. now injection Hthrown as <-. }
      * split; [discriminate|].
        intros [[Habsurd _] | [_ (rows' & Hrows & Hthrown)]];
          [now contradiction Habsurd|].
        injection Hrows as <-. rewrite Hsorted in Hthrown. discriminate.
    + simpl. split; [discriminate|].
      intros [[Habsurd _] | [_ (rows' & Hrows & _)]];
        [now contradiction Habsurd | discriminate].
  - split.
    + intros H. injection H as <-. left. split; [discriminate | reflexivity].
    + intros [[_ ->] | [Habsurd _]]; [reflexivity | discriminate].
Qed.

Lemma formatMod_error_witness :
  formatMod sampleCorruptMod = inl (toErrorWithMessage (ThrowString (parentOrdersMessage 8))).
Proof.
  apply (proj2 (formatMod_error sampleCorruptMod (ThrowString (parentOrdersMessage 8)))).
  right. split; [reflexivity|]. exists gapRows. split; reflexivity.
Defined.

(** Reconstruction from the stored rows of a well-formed submission, read
    back in any sequence. *)
Lemma getSortedDifficultyNames_stored (fresh : nat -> Z) (allocated : nat)
    (difficultyNames : list stringOrArray) (rows : list difficulties.t) (modID : Z) :
  (forall a b : nat, fresh a = fresh b -> a = b) ->
  wellFormedSubmission difficultyNames = true ->
  Permutation (storedRows fresh allocated 0 difficultyNames) rows ->
  getSortedDifficultyNames rows modID = inr difficultyNames.
Proof.
  intros Hfresh Hwf Hperm.
  rewrite getSortedDifficultyNames_eq.
  assert (Hcount : length (parentRows rows) = length difficultyNames).
  { rewrite <- (storedParents_length fresh difficultyNames allocated 0),
      <- storedRows_parentRows.
    symmetry. apply Permutation_length. now apply filter_permutation. }
  rewrite Hcount.
  rewrite (map_seqZ_nth (formatEntry rows) difficultyNames 1).
  - now rewrite checkContinuous_wellFormed.
  - intros j element Hj.
    now apply (formatEntry_stored fresh allocated difficultyNames rows j element).
Qed.

(** X24. From submission to formatted mod: let a submission be well formed
    (non-blank names, a parent and at least one child in every array), let
    the creation list the parser returns for it be stored with an id of its
    own per row, and let a mod with one [mods_details] row have those rows,
    in any sequence, as its difficulties. Then [formatMod] formats the mod,
    and the difficulties of the result are the submission. *)
Theorem formatMod_shows_submission (fresh : nat -> Z) (allocated : nat)
    (difficultyNames : list stringOrArray) (arrays : difficultyArrays)
    (stored rows : list difficulties.t) (rawMod : rawMod.t) (details : rawModDetails.t) :
  (forall a b : nat, fresh a = fresh b -> a = b) ->
  wellFormedSubmission difficultyNames = true ->
  getDifficultyArrays difficultyNames = inr arrays ->
  persist fresh allocated (difficultiesDataArray arrays) = inr stored ->
  Permutation stored rows ->
  rawMod.mods_details rawMod = [details] ->
  rawMod.difficulties rawMod = Some rows ->
  exists formatted,
    formatMod rawMod = inr formatted /\
    formattedMod.difficulties formatted = Some difficultyNames.
Proof.
  intros Hfresh Hwf Harrays Hstored Hperm Hdetails Hrows.
  rewrite getDifficultyArrays_eq in Harrays. injection Harrays as <-.
  cbn [difficultiesDataArray] in Hstored.
  rewrite (persist_stored fresh difficultyNames Hwf) in Hstored. injection Hstored as <-.
  unfold formatMod. rewrite Hdetails, Hrows, formatMapsLoop_eq. cbn [bind].
  rewrite (getSortedDifficultyNames_stored fresh allocated difficultyNames rows
             (rawMod.id rawMod) Hfresh Hwf Hperm).
  eexists. split; reflexivity.
Qed.

Lemma formatMod_shows_submission_witness :
  exists formatted,
    formatMod
      (rawMod.mk 7 [sampleRawDetails] []
         (Some (storedRows (sequentialIDs 40) 0 0 exampleSubmission)))
    = inr formatted /\
    formattedMod.difficulties formatted = Some exampleSubmission.
Proof.
  apply (formatMod_shows_submission (sequentialIDs 40) 0 exampleSubmission
           (mkArrays (flat_map flatNames exampleSubmission)
              (parentRecords exampleSubmission 0) true)
           (storedRows (sequentialIDs 40) 0 0 exampleSubmission)
           (storedRows (sequentialIDs 40) 0 0 exampleSubmission)
           (rawMod.mk 7 [sampleRawDetails] []
              (Some (storedRows (sequentialIDs 40) 0 0 exampleSubmission)))
           sampleRawDetails).
  - unfold sequentialIDs. intros a b H. lia.
  - reflexivity.
  - reflexivity.
  - reflexivity.
  - apply Permutation_refl.
  - reflexivity.
  - reflexivity.
Defined.

(** ** The handlers that answer with a list of mods *)

Lemma formatMods_inr (rawMods : list rawMod.t) (formattedMods : list formattedMod.t) :
  formatMods rawMods = inr formattedMods <->
  Forall2 (fun rawMod formatted => formatMod rawMod = inr formatted) rawMods formattedMods.
Proof.
  revert formattedMods.
  induction rawMods as [|rawMod rest IH]; intros formattedMods; simpl.
  - split.
    + intros H. injection H as <-. constructor.
    + intros H. inversion H. reflexivity.
  - destruct (formatMod rawMod) as [[error]|formatted] eqn:Hformat.
    + split; [discriminate|]. intros H. inversion H; subst. congruence.
    + split.
      * intros H. apply bind_inr in H. destruct H as (formattedRest & Hrest & Hret).
        injection Hret as <-. constructor; [exact Hformat | now apply IH].
      * intros H. inversion H as [|? formatted' ? formattedRest Hhead Htail]; subst.
        rewrite Hformat in Hhead. injection Hhead as <-.
        apply IH in Htail. now rewrite Htail.
Qed.

Lemma formatMods_inl (rawMods : list rawMod.t) :
  (exists rawMod error, In rawMod rawMods /\ formatMod rawMod = inl error) ->
  exists rawMod error,
    In rawMod rawMods /\
    formatMod rawMod = inl (toErrorWithMessage error) /\
    formatMods rawMods = inl (ThrowErrorWithMessage error).
Proof.
  induction rawMods as [|rawMod rest IH]; intros (failing & reason & Hin & Hfails);
    [contradiction|].
  simpl. destruct (formatMod rawMod) as [[error]|formatted] eqn:Hformat.
  - exists rawMod, error. auto.
  - destruct Hin as [<- | Hin]; [congruence|].
    destruct IH as (found & error & Hfound & Hformat' & Hall).
    { exists failing, reason. auto. }
    exists found, error. rewrite Hall. auto.
Qed.

(** X25. All or nothing: a handler that answers with a list of mods sends
    the formatted mods, one per mod and in the sequence of the query, when
    every mod can be formatted; when one cannot, it sends no body at all and
    hands the error of such a mod to [next]. *)
Theorem respondWithMods_all_or_nothing (rawMods : list rawMod.t) :
  ((forall rawMod, In rawMod rawMods -> exists formatted, formatMod rawMod = inr formatted) ->
   exists formattedMods,
     respondWithMods rawMods = Json formattedMods /\
     Forall2 (fun rawMod formatted => formatMod rawMod = inr formatted)
       rawMods formattedMods) /\
  ((exists rawMod error, In rawMod rawMods /\ formatMod rawMod = inl error) ->
   exists rawMod error,
     In rawMod rawMods /\
     formatMod rawMod = inl (toErrorWithMessage error) /\
     respondWithMods rawMods = Next (ThrowErrorWithMessage error)).
Proof.
  unfold respondWithMods. split.
  - intros Hall.
    assert (Hformatted : exists formattedMods,
               Forall2 (fun rawMod formatted => formatMod rawMod = inr formatted)
                 rawMods formattedMods).
    { induction rawMods as [|rawMod rest IH].
      - exists []. constructor.
      - destruct (Hall rawMod (or_introl eq_refl)) as (formatted & Hformat).
        destruct IH as (formattedRest & Hrest).
        { intros r Hr. apply Hall. now right. }
        exists (formatted :: formattedRest). now constructor. }
    destruct Hformatted as (formattedMods & Hforall).
    exists formattedMods. split; [|exact Hforall].
    apply formatMods_inr in Hforall. now rewrite Hforall.
  - intros Hfailing.
    destruct (formatMods_inl rawMods Hfailing) as (rawMod & error & Hin & Hformat & Hall).
    exists rawMod, error. rewrite Hall. auto.
Qed.

Lemma respondWithMods_all_or_nothing_witness :
  (exists formattedMods,
      respondWithMods [sampleRawMod; sampleRawMod] = Json formattedMods /\
      Forall2 (fun rawMod formatted => formatMod rawMod = inr formatted)
        [sampleRawMod; sampleRawMod] formattedMods) /\
  (exists rawMod error,
      In rawMod [sampleRawMod; sampleCorruptMod] /\
      formatMod rawMod = inl (toErrorWithMessage error) /\
      respondWithMods [sampleRawMod; sampleCorruptMod] = Next (ThrowErrorWithMessage error)).
Proof.
  split.
  - apply (proj1 (respondWithMods_all_or_nothing [sampleRawMod; sampleRawMod])).
    intros rawMod [<- | [<- | []]]; eexists; reflexivity.
  - apply (proj2 (respondWithMods_all_or_nothing [sampleRawMod; sampleCorruptMod])).
    exists sampleCorruptMod. eexists. split; [right; now left | reflexivity].
Defined.

(** X26. One mod with a gap in its parent orders fails the whole list: when
    a mod of the query has one [mods_details] row and difficulty rows among
    which some order from 1 to the number of parent rows is the order of no
    parent row, the handler sends no mod at all and calls [next]. *)
Theorem respondWithMods_order_gap (rawMods : list rawMod.t) (corrupt : rawMod.t)
    (details : rawModDetails.t) (rows : list difficulties.t) (parentOrder : Z) :
  In corrupt rawMods ->
  rawMod.mods_details corrupt = [details] ->
  rawMod.difficulties corrupt = Some rows ->
  1 <= parentOrder <= Z.of_nat (length (parentRows rows)) ->
  (forall difficulty,
      In difficulty rows ->
      difficulties.parentDifficultyID difficulty = None ->
      difficulties.order difficulty <> parentOrder) ->
  exists error, respondWithMods rawMods = Next error.
Proof.
  intros Hin Hdetails Hrows Hrange Hmissing.
  assert (Hthrows : exists message,
             getSortedDifficultyNames rows (rawMod.id corrupt) = inl (ThrowString message)).
  { rewrite getSortedDifficultyNames_eq.
    destruct (checkContinuous_blank
                (map (formatEntry rows) (seqZ 1 (length (parentRows rows))))
                (rawMod.id corrupt)) as (message & Hthrow & _).
    - apply in_map_iff. exists parentOrder. split.
      + unfold formatEntry. rewrite findParent_missing; [reflexivity|].
        intros difficulty Hd. unfold parentRows in Hd.
        apply filter_In in Hd. destruct Hd as [Hd Hparent].
        apply Hmissing; [exact Hd|].
        unfold isParent in Hparent.
        now destruct (difficulties.parentDifficultyID difficulty).
      + apply In_seqZ. lia.
    - exists message. now rewrite Hthrow. }
  destruct Hthrows as (message & Hthrows).
  destruct (formatMods_inl rawMods) as (rawMod & error & _ & _ & Hall).
  { exists corrupt, (toErrorWithMessage (ThrowString message)).
    split; [exact Hin|].
    unfold formatMod. rewrite Hdetails, Hrows, formatMapsLoop_eq. cbn [bind].
    now rewrite Hthrows. }
  exists (ThrowErrorWithMessage error). unfold respondWithMods. now rewrite Hall.
Qed.

Lemma respondWithMods_order_gap_witness :
  exists error, respondWithMods [sampleRawMod; sampleCorruptMod; sampleRawMod] = Next error.
Proof.
  apply (respondWithMods_order_gap [sampleRawMod; sampleCorruptMod; sampleRawMod]
           sampleCorruptMod sampleRawDetails gapRows 2).
  - right. now left.
  - reflexivity.
  - reflexivity.
  - simpl. lia.
  - intros difficulty [<- | [<- | [<- | []]]] _; discriminate.
Defined.

(** ** The publisher of a mod *)

Lemma tryCatch_inr {A : Type} (body : M A) (a : A) :
  tryCatch body = inr a -> body = inr a.
Proof.
  unfold tryCatch. destruct body; [discriminate|]. intros H. now injection H as ->.
Qed.

(** X27. Answered or returned, never both: when
    [getPublisherConnectionObject] returns without an error, either it sent
    an answer with status 400 or 404, set [errorSent] and returned
    [undefined], or it returned a connection object and left the response as
    it was. *)
Theorem getPublisherConnectionObject_answer_or_object
    (double : Type) (ofZ : Z -> double) (strictEqualDouble : double -> double -> bool)
    (axios : string -> M (axiosResponse double))
    (Number : option (json double) -> M (option double))
    (StringOf : option (json double) -> M string)
    (reads : publisherReads) (res res' : Response)
    (userID publisherGamebananaID publisherID : option Z) (publisherName : option string)
    (returned : option (publisherConnection double)) :
  getPublisherConnectionObject double ofZ strictEqualDouble axios Number StringOf reads res
    userID publisherGamebananaID publisherID publisherName = inr (returned, res') ->
  (returned = None /\ errorSent res' = true /\ jsonBody res' <> None /\
   (statusCode res' = Some 400 \/ statusCode res' = Some 404)) \/
  (exists connection, returned = Some connection /\ res' = res).
Proof.
  unfold getPublisherConnectionObject, sendError. intros Hcall.
  apply tryCatch_inr in Hcall. unfold ret in Hcall.
  assert (Hsent : forall status message,
             status = 400 \/ status = 404 ->
             @inr thrown _ (None, mkResponseState (Some status) (Some message) true) =
             inr (returned, res') ->
             (returned = None /\ errorSent res' = true /\ jsonBody res' <> None /\
              (statusCode res' = Some 400 \/ statusCode res' = Some 404)) \/
             (exists connection : publisherConnection double,
                 returned = Some connection /\ res' = res)).
  { intros status message Hstatus H. injection H as <- <-. left. simpl.
    repeat split; [discriminate|]. destruct Hstatus as [-> | ->]; auto. }
  assert (Hkept : forall connection : publisherConnection double,
             @inr thrown _ (Some connection, res) = inr (returned, res') ->
             (returned = None /\ errorSent res' = true /\ jsonBody res' <> None /\
              (statusCode res' = Some 400 \/ statusCode res' = Some 404)) \/
             (exists connection : publisherConnection double,
                 returned = Some connection /\ res' = res)).
  { intros connection H. injection H as <- <-. right. now exists connection. }
  destruct (truthyNumber userID) as [user|].
  - destruct (users_findUnique_publishers reads user) as [userPublishers|].
    + destruct (length userPublishers <? 1)%nat; [apply (Hsent 400 _ (or_introl eq_refl) Hcall)|].
      destruct (1 <? length userPublishers)%nat;
        [apply (Hsent 400 _ (or_introl eq_refl) Hcall)|].
      destruct userPublishers as [|publisher rest]; [discriminate|].
      apply (Hkept _ Hcall).
    + apply (Hsent 404 _ (or_intror eq_refl) Hcall).
  - destruct (truthyNumber publisherGamebananaID) as [gamebananaID|].
    + destruct (publishers_findUnique_gamebananaID reads gamebananaID).
      * apply (Hkept _ Hcall).
      * destruct (getGamebananaUsernameById double axios StringOf gamebananaID)
          as [[error]|name]; [discriminate|].
        destruct (String.eqb name "false");
          [apply (Hsent 404 _ (or_intror eq_refl) Hcall) | apply (Hkept _ Hcall)].
    + destruct (truthyNumber publisherID) as [publisher|].
      * destruct (publishers_findUnique_id reads publisher);
          [apply (Hkept _ Hcall) | apply (Hsent 404 _ (or_intror eq_refl) Hcall)].
      * destruct (truthyString publisherName) as [name|]; [|apply (Hkept _ Hcall)].
        cbv zeta in Hcall.
        destruct (1 <? length (publishers_findMany_name reads name))%nat;
          [apply (Hsent 400 _ (or_introl eq_refl) Hcall)|].
        assert (Hlookup :
                  match
                    getGamebananaIdByUsername double (ofZ (-1)) axios Number name
                  with
                  | inl (toErrorWithMessage error) => throw (ThrowErrorWithMessage error)
                  | inr gamebananaID =>
                      if isMinusOne double ofZ strictEqualDouble gamebananaID
                      then inr (None,
                                mkResponseState (Some 404)
                                  (Some "Specified username does not exist on GameBanana.")
                                  true)
                      else inr (Some (CreatePublisher name gamebananaID), res)
                  end = @inr thrown _ (returned, res') ->
                  (returned = None /\ errorSent res' = true /\ jsonBody res' <> None /\
                   (statusCode res' = Some 400 \/ statusCode res' = Some 404)) \/
                  (exists connection : publisherConnection double,
                      returned = Some connection /\ res' = res)).
        { destruct (getGamebananaIdByUsername double (ofZ (-1)) axios Number name)
            as [[error]|gamebananaID]; [discriminate|].
          destruct (isMinusOne double ofZ strictEqualDouble gamebananaID); intros H;
            [apply (Hsent 404 _ (or_intror eq_refl) H) | apply (Hkept _ H)]. }
        destruct (publishers_findMany_name reads name) as [|publisher [|second rest]];
          [apply (Hlookup Hcall) | apply (Hkept _ Hcall) | apply (Hlookup Hcall)].
Qed.

Lemma getPublisherConnectionObject_answer_or_object_witness :
  (@None (publisherConnection Z) = None /\
   errorSent (sendError 404 "userID not found" freshResponse) = true /\
   jsonBody (sendError 404 "userID not found" freshResponse) <> None /\
   (statusCode (sendError 404 "userID not found" freshResponse) = Some 400 \/
    statusCode (sendError 404 "userID not found" freshResponse) = Some 404)) \/
  (exists connection : publisherConnection Z,
      None = Some connection /\
      sendError 404 "userID not found" freshResponse = freshResponse).
Proof.
  apply (getPublisherConnectionObject_answer_or_object Z (fun z => z) Z.eqb sampleAxios
           jsNumber jsString samplePublisherReads freshResponse
           (sendError 404 "userID not found" freshResponse)
           (Some 6) None None (Some "steve") None).
  reflexivity.
Defined.

(** X28. A publisher known by name only: let the request name a publisher
    and give no user id, GameBanana id or publisher id (or give 0), let no
    publisher have the name, and let the GameBanana request for the name
    complete with status 200 and a body whose element 0 can be read. When
    [Number] of that element is [NaN] or [-1], the function answers 404
    "Specified username does not exist on GameBanana." and returns
    [undefined]; when it is another number, the function returns the object
    that creates a publisher with the name and the number as its GameBanana
    id, and sends nothing; when [Number] throws, the function returns an
    error value and sends nothing. *)
Theorem getPublisherConnectionObject_by_name
    (double : Type) (ofZ : Z -> double) (strictEqualDouble : double -> double -> bool)
    (axios : string -> M (axiosResponse double))
    (Number : option (json double) -> M (option double))
    (StringOf : option (json double) -> M string)
    (reads : publisherReads) (res : Response)
    (userID publisherGamebananaID publisherID : option Z) (publisherName : string)
    (body first : option (json double)) :
  (forall a b, strictEqualDouble a b = true <-> a = b) ->
  truthyNumber userID = None ->
  truthyNumber publisherGamebananaID = None ->
  truthyNumber publisherID = None ->
  publisherName <> "" ->
  publishers_findMany_name reads publisherName = [] ->
  axios (identifyUrl publisherName) = inr (mkResponse 200 body) ->
  element0 body = inr first ->
  (Number first = inr None \/ Number first = inr (Some (ofZ (-1))) ->
   getPublisherConnectionObject double ofZ strictEqualDouble axios Number StringOf reads res
     userID publisherGamebananaID publisherID (Some publisherName)
   = inr (None,
          mkResponseState (Some 404)
            (Some "Specified username does not exist on GameBanana.") true)) /\
  (forall gamebananaID,
      Number first = inr (Some gamebananaID) ->
      gamebananaID <> ofZ (-1) ->
      getPublisherConnectionObject double ofZ strictEqualDouble axios Number StringOf reads
        res userID publisherGamebananaID publisherID (Some publisherName)
      = inr (Some (CreatePublisher publisherName (Some gamebananaID)), res)) /\
  (forall error,
      Number first = inl error ->
      getPublisherConnectionObject double ofZ strictEqualDouble axios Number StringOf reads
        res userID publisherGamebananaID publisherID (Some publisherName)
      = inl (toErrorWithMessage (ThrowErrorWithMessage error))).
Proof.
  intros Hequal Huser Hgamebanana Hpublisher Hname Hnone Hresponse Hfirst.
  assert (Hlookup :
            getGamebananaIdByUsername double (ofZ (-1)) axios Number publisherName =
            match Number first with
            | inl error => inl (toErrorWithMessage error)
            | inr (Some found) => inr (Some found)
            | inr None => inr (Some (ofZ (-1)))
            end).
  { unfold getGamebananaIdByUsername. rewrite Hresponse.
    cbn [bind status data Z.eqb Pos.eqb negb]. rewrite Hfirst.
    cbn [bind]. destruct (Number first) as [error|[found|]]; reflexivity. }
  assert (Hminus : strictEqualDouble (ofZ (-1)) (ofZ (-1)) = true) by now apply Hequal.
  unfold getPublisherConnectionObject.
  rewrite Huser, Hgamebanana, Hpublisher.
  unfold truthyString. apply String.eqb_neq in Hname. rewrite Hname.
  cbv zeta. rewrite Hnone, Hlookup. cbn [length Nat.ltb Nat.leb isMinusOne].
  split; [|split].
  - intros [Hnan | Hsentinel].
    + rewrite Hnan. cbn [isMinusOne]. rewrite Hminus. reflexivity.
    + rewrite Hsentinel. cbn [isMinusOne]. rewrite Hminus. reflexivity.
  - intros gamebananaID Hnumber Hother. rewrite Hnumber. cbn [isMinusOne].
    destruct (strictEqualDouble gamebananaID (ofZ (-1))) eqn:Heq; [|reflexivity].
    apply Hequal in Heq. now contradiction Hother.
  - intros error Hthrown. rewrite Hthrown. reflexivity.
Qed.

Lemma getPublisherConnectionObject_by_name_witness :
  getPublisherConnectionObject Z (fun z => z) Z.eqb (axiosAnswering (JString "unknown"))
    jsNumber jsString samplePublisherReads freshResponse None (Some 0) None (Some "nobody")
  = inr (None,
         mkResponseState (Some 404)
           (Some "Specified username does not exist on GameBanana.") true) /\
  getPublisherConnectionObject Z (fun z => z) Z.eqb sampleAxios jsNumber jsString
    samplePublisherReads freshResponse None (Some 0) None (Some "steve")
  = inr (Some (CreatePublisher "steve" (Some 1698143)), freshResponse) /\
  getPublisherConnectionObject Z (fun z => z) Z.eqb (axiosAnswering toStringObject)
    jsNumber jsString samplePublisherReads freshResponse None (Some 0) None (Some "steve")
  = inl (toErrorWithMessage (ThrowErrorWithMessage ThrowTypeError)).
Proof.
  split; [|split].
  - apply (proj1 (getPublisherConnectionObject_by_name Z (fun z => z) Z.eqb
                    (axiosAnswering (JString "unknown")) jsNumber jsString
                    samplePublisherReads freshResponse None (Some 0) None "nobody"
                    (Some (JArray [JString "unknown"])) (Some (JString "unknown"))
                    Z.eqb_eq eq_refl eq_refl eq_refl ltac:(discriminate)
                    eq_refl eq_refl eq_refl)).
    left. reflexivity.
  - apply (proj1 (proj2 (getPublisherConnectionObject_by_name Z (fun z => z) Z.eqb
                           sampleAxios jsNumber jsString
                           samplePublisherReads freshResponse None (Some 0) None "steve"
                           (Some (JArray [JNumber 1698143])) (Some (JNumber 1698143))
                           Z.eqb_eq eq_refl eq_refl eq_refl ltac:(discriminate)
                           eq_refl eq_refl eq_refl))).
    + reflexivity.
    + discriminate.
  - apply (proj2 (proj2 (getPublisherConnectionObject_by_name Z (fun z => z) Z.eqb
                           (axiosAnswering toStringObject) jsNumber jsString
                           samplePublisherReads freshResponse None (Some 0) None "steve"
                           (Some (JArray [toStringObject])) (Some toStringObject)
                           Z.eqb_eq eq_refl eq_refl eq_refl ltac:(discriminate)
                           eq_refl eq_refl eq_refl))).
    reflexivity.
Defined.

(** ** The failures of the GameBanana lookups *)

(** X29. [getGamebananaIdByUsername] never returns [NaN], and it returns an
    error value in four cases only: the request is rejected, the status of
    the response is not 200, the body of a 200 response is [undefined] or
    [null], or [Number(data[0])] throws. The error value then wraps the
    rejection, the error "GameBanana api not responding as expected.", the
    [TypeError] of [data[0]], or what [Number] threw. *)
Theorem getGamebananaIdByUsername_failures
    (double : Type) (minusOne : double)
    (axios : string -> M (axiosResponse double))
    (Number : option (json double) -> M (option double))
    (gamebananaUsername : string) :
  getGamebananaIdByUsername double minusOne axios Number gamebananaUsername <> inr None /\
  (forall error,
      getGamebananaIdByUsername double minusOne axios Number gamebananaUsername
      = inl (toErrorWithMessage error) <->
      axios (identifyUrl gamebananaUsername) = inl error \/
      (exists response,
          axios (identifyUrl gamebananaUsername) = inr response /\
          status response <> 200 /\
          error = ThrowError "GameBanana api not responding as expected.") \/
      (exists response,
          axios (identifyUrl gamebananaUsername) = inr response /\
          status response = 200 /\
          (data response = None \/ data response = Some JNull) /\
          error = ThrowTypeError) \/
      (exists response first,
          axios (identifyUrl gamebananaUsername) = inr response /\
          status response = 200 /\
          element0 (data response) = inr first /\
          Number first = inl error)).
Proof.
  unfold getGamebananaIdByUsername, tryCatch, bind, throw, ret.
  destruct (axios (identifyUrl gamebananaUsername)) as [reason|response].
  - split; [discriminate|]. intros error. split.
    + intros H. injection H as <-. now left.
    + intros [H | [(response & H & _) | [(response & H & _) | (response & first & H & _)]]];
        try discriminate.
      now injection H as ->.
  - destruct (status response =? 200) eqn:Hstatus;
      [apply Z.eqb_eq in Hstatus | apply Z.eqb_neq in Hstatus]; cbn [negb].
    + destruct (element0 (data response)) as [reason|first] eqn:Helement.
      * apply element0_inl in Helement. destruct Helement as [Hblank ->].
        split; [discriminate|]. intros error. split.
        -- intros H. injection H as <-. right. right. left. exists response. auto.
        -- intros [H | [(other & H & Hother & _) |
                        [(other & H & _ & _ & ->) | (other & first & H & _ & Hread & _)]]];
             [discriminate | | reflexivity |].
           ++ injection H as <-. now contradiction Hother.
           ++ injection H as <-.
              assert (Hthrown : element0 (data response) = inl ThrowTypeError)
                by now apply element0_inl.
              rewrite Hthrown in Hread. discriminate.
      * destruct (Number first) as [reason|[found|]] eqn:Hnumber.
        -- split; [discriminate|]. intros error. split.
           ++ intros H. injection H as <-. right. right. right.
              exists response, first. auto.
           ++ intros [H | [(other & H & Hother & _) |
                           [(other & H & _ & Hblank & _) |
                            (other & first' & H & _ & Hread & Hthrown)]]];
                [discriminate | | |].
              ** injection H as <-. now contradiction Hother.
              ** injection H as <-.
                 assert (Habsurd : element0 (data response) = inl ThrowTypeError)
                   by now apply element0_inl.
                 rewrite Helement in Habsurd. discriminate.
              ** injection H as <-. rewrite Helement in Hread. injection Hread as <-.
                 rewrite Hnumber in Hthrown. now injection Hthrown as <-.
        -- split; [discriminate|]. intros error. split; [discriminate|].
           intros [H | [(other & H & Hother & _) |
                        [(other & H & _ & Hblank & _) |
                         (other & first' & H & _ & Hread & Hthrown)]]];
             [discriminate | | |].
           ++ injection H as <-. now contradiction Hother.
           ++ injection H as <-.
              assert (Habsurd : element0 (data response) = inl ThrowTypeError)
                by now apply element0_inl.
              rewrite Helement in Habsurd. discriminate.
           ++ injection H as <-. rewrite Helement in Hread. injection Hread as <-.
              rewrite Hnumber in Hthrown. discriminate.
        -- split; [discriminate|]. intros error. split; [discriminate|].
           intros [H | [(other & H & Hother & _) |
                        [(other & H & _ & Hblank & _) |
                         (other & first' & H & _ & Hread & Hthrown)]]];
             [discriminate | | |].
           ++ injection H as <-. now contradiction Hother.
           ++ injection H as <-.
              assert (Habsurd : element0 (data response) = inl ThrowTypeError)
                by now apply element0_inl.
              rewrite Helement in Habsurd. discriminate.
           ++ injection H as <-. rewrite Helement in Hread. injection Hread as <-.
              rewrite Hnumber in Hthrown. discriminate.
    + split; [discriminate|]. intros error. split.
      * intros H. injection H as <-. right. left. exists response. auto.
      * intros [H | [(other & H & _ & ->) |
                     [(other & H & Hother & _) | (other & first & H & Hother & _)]]];
          [discriminate | reflexivity | |].
        -- injection H as <-. now contradiction Hstatus.
        -- injection H as <-. now contradiction Hstatus.
Qed.

Lemma getGamebananaIdByUsername_failures_witness :
  getGamebananaIdByUsername Z (-1) (fun url => ret (mkResponse 503 None)) jsNumber "steve"
  = inl (toErrorWithMessage (ThrowError "GameBanana api not responding as expected.")) /\
  getGamebananaIdByUsername Z (-1) (axiosAnswering toStringObject) jsNumber "steve"
  = inl (toErrorWithMessage ThrowTypeError).
Proof.
  split.
  - apply (proj2 (proj2 (getGamebananaIdByUsername_failures Z (-1)
                           (fun url => ret (mkResponse 503 None)) jsNumber "steve")
                    (ThrowError "GameBanana api not responding as expected."))).
    right. left. exists (mkResponse 503 None). repeat split. discriminate.
  - apply (proj2 (proj2 (getGamebananaIdByUsername_failures Z (-1)
                           (axiosAnswering toStringObject) jsNumber "steve")
                    ThrowTypeError)).
    right. right. right.
    exists (mkResponse 200 (Some (JArray [toStringObject]))), (Some toStringObject).
    repeat split.
Defined.

(** X30. [getGamebananaUsernameById] returns an error value in four cases
    only: the request is rejected, the status of the response is not 200,
    the body of a 200 response is [undefined] or [null], or
    [String(data[0])] throws. A name that it returns is [String(data[0])] of
    a response with status 200. *)
Theorem getGamebananaUsernameById_failures
    (double : Type)
    (axios : string -> M (axiosResponse double))
    (StringOf : option (json double) -> M string)
    (gamebananaID : Z) :
  (forall error,
      getGamebananaUsernameById double axios StringOf gamebananaID
      = inl (toErrorWithMessage error) <->
      axios (identifyByIdUrl gamebananaID) = inl error \/
      (exists response,
          axios (identifyByIdUrl gamebananaID) = inr response /\
          status response <> 200 /\
          error = ThrowError "GameBanana api not responding as expected.") \/
      (exists response,
          axios (identifyByIdUrl gamebananaID) = inr response /\
          status response = 200 /\
          (data response = None \/ data response = Some JNull) /\
          error = ThrowTypeError) \/
      (exists response first,
          axios (identifyByIdUrl gamebananaID) = inr response /\
          status response = 200 /\
          element0 (data response) = inr first /\
          StringOf first = inl error)) /\
  (forall name,
      getGamebananaUsernameById double axios StringOf gamebananaID = inr name ->
      exists response first,
        axios (identifyByIdUrl gamebananaID) = inr response /\
        status response = 200 /\
        element0 (data response) = inr first /\
        StringOf first = inr name).
Proof.
  unfold getGamebananaUsernameById, tryCatch, bind, throw, ret.
  destruct (axios (identifyByIdUrl gamebananaID)) as [reason|response].
  - split; [|discriminate]. intros error. split.
    + intros H. injection H as <-. now left.
    + intros [H | [(response & H & _) | [(response & H & _) | (response & first & H & _)]]];
        try discriminate.
      now injection H as ->.
  - destruct (status response =? 200) eqn:Hstatus;
      [apply Z.eqb_eq in Hstatus | apply Z.eqb_neq in Hstatus]; cbn [negb].
    + destruct (element0 (data response)) as [reason|first] eqn:Helement.
      * apply element0_inl in Helement. destruct Helement as [Hblank ->].
        split; [|discriminate]. intros error. split.
        -- intros H. injection H as <-. right. right. left. exists response. auto.
        -- intros [H | [(other & H & Hother & _) |
                        [(other & H & _ & _ & ->) | (other & first & H & _ & Hread & _)]]];
             [discriminate | | reflexivity |].
           ++ injection H as <-. now contradiction Hother.
           ++ injection H as <-.
              assert (Hthrown : element0 (data response) = inl ThrowTypeError)
                by now apply element0_inl.
              rewrite Hthrown in Hread. discriminate.
      * destruct (StringOf first) as [reason|written] eqn:Hstring.
        -- split; [|discriminate]. intros error. split.
           ++ intros H. injection H as <-. right. right. right.
              exists response, first. auto.
           ++ intros [H | [(other & H & Hother & _) |
                           [(other & H & _ & Hblank & _) |
                            (other & first' & H & _ & Hread & Hthrown)]]];
                [discriminate | | |].
              ** injection H as <-. now contradiction Hother.
              ** injection H as <-.
                 assert (Habsurd : element0 (data response) = inl ThrowTypeError)
                   by now apply element0_inl.
                 rewrite Helement in Habsurd. discriminate.
              ** injection H as <-. rewrite Helement in Hread. injection Hread as <-.
                 rewrite Hstring in Hthrown. now injection Hthrown as <-.
        -- split.
           ++ intros error. split; [discriminate|].
              intros [H | [(other & H & Hother & _) |
                           [(other & H & _ & Hblank & _) |
                            (other & first' & H & _ & Hread & Hthrown)]]];
                [discriminate | | |].
              ** injection H as <-. now contradiction Hother.
              ** injection H as <-.
                 assert (Habsurd : element0 (data response) = inl ThrowTypeError)
                   by now apply element0_inl.
                 rewrite Helement in Habsurd. discriminate.
              ** injection H as <-. rewrite Helement in Hread. injection Hread as <-.
                 rewrite Hstring in Hthrown. discriminate.
           ++ intros name H. injection H as <-. exists response, first. auto.
    + split; [|discriminate]. intros error. split.
      * intros H. injection H as <-. right. left. exists response. auto.
      * intros [H | [(other & H & _ & ->) |
                     [(other & H & Hother & _) | (other & first & H & Hother & _)]]];
          [discriminate | reflexivity | |].
        -- injection H as <-. now contradiction Hstatus.
        -- injection H as <-. now contradiction Hstatus.
Qed.

Lemma getGamebananaUsernameById_failures_witness :
  getGamebananaUsernameById Z (fun url => ret (mkResponse 200 (Some JNull))) jsString 42
  = inl (toErrorWithMessage ThrowTypeError) /\
  getGamebananaUsernameById Z (axiosAnswering toStringObject) jsString 42
  = inl (toErrorWithMessage ThrowTypeError).
Proof.
  split.
  - apply (proj2 (proj1 (getGamebananaUsernameById_failures Z
                           (fun url => ret (mkResponse 200 (Some JNull))) jsString 42)
                    ThrowTypeError)).
    right. right. left. exists (mkResponse 200 (Some JNull)). repeat split. now right.
  - apply (proj2 (proj1 (getGamebananaUsernameById_failures Z
                           (axiosAnswering toStringObject) jsString 42)
                    ThrowTypeError)).
    right. right. right.
    exists (mkResponse 200 (Some (JArray [toStringObject]))), (Some toStringObject).
    repeat split.
Defined.
